(** * Composeon: the icon indexing and search pipeline

    A shallow embedding of the icon scanner (class
    [ComposeonIconScanner]), of the MCP server ([mcp-server.js], class
    [ComposeonMCPServer]) and of the browser-side loader (class
    [IconsLoader]), followed by the properties of the specification
    that are checked against them.

    The scanner is the indexer of the specification: base name and
    variation of a file, category, display name, tags, grouping and
    order are those of its [scanIcons].  Search with a limit and the
    making of posts are those of the MCP server.  The MCP server and the
    loader keep copies of the indexing functions that differ from the
    scanner's; they are embedded where a property reads them.

    Modelling conventions.
    - A JavaScript string is the [string] of its bytes in UTF-8.  White
      space is that of ECMAScript, also beyond ASCII; case mapping is
      that of ASCII, other characters are carried through unchanged.
    - An object literal used as a lookup table ([specialNames],
      [alternatives], [emojiMap], [templates]) is a finite map over its
      own keys.  A lookup by a name that the table inherits from
      [Object.prototype] answers the inherited member in the code:
      [Js.inherited] tells these names.  Where the code then raises
      ([generateTags]) the embedding raises too; where it goes on with
      a value that is not a string, the properties leave these names
      out, each by a hypothesis of its own.
    - An object with a fixed set of fields is a record; an array is a
      list; a [Map] is an association list in insertion order.
    - Where a claim is about what a call leaves unchanged, arrays and
      objects live in an explicit store and are passed by reference. *)

From stdpp Require Import gmap strings list fin_maps sorting.
From Stdlib Require Import ZArith Ascii.

Open Scope string_scope.
Open Scope list_scope.

(** ** JavaScript string and array primitives *)

Module Js.

Definition is_upper (c : ascii) : bool :=
  let n := nat_of_ascii c in (65 <=? n)%nat && (n <=? 90)%nat.

Definition is_lower (c : ascii) : bool :=
  let n := nat_of_ascii c in (97 <=? n)%nat && (n <=? 122)%nat.

Definition lower_char (c : ascii) : ascii :=
  if is_upper c then ascii_of_nat (nat_of_ascii c + 32) else c.

Definition upper_char (c : ascii) : ascii :=
  if is_lower c then ascii_of_nat (nat_of_ascii c - 32) else c.

(** [String.prototype.toLowerCase] *)
Fixpoint toLowerCase (s : string) : string :=
  match s with
  | "" => ""
  | String c s' => String (lower_char c) (toLowerCase s')
  end.

(** [String.prototype.toUpperCase] *)
Fixpoint toUpperCase (s : string) : string :=
  match s with
  | "" => ""
  | String c s' => String (upper_char c) (toUpperCase s')
  end.

(** [s.startsWith(p)] *)
Fixpoint startsWith (s p : string) {struct p} : bool :=
  match p, s with
  | "", _ => true
  | String _ _, "" => false
  | String a p', String b s' => Ascii.eqb a b && startsWith s' p'
  end.

(** [s.includes(k)]: [k] occurs in [s] at some position. *)
Fixpoint includes (s k : string) : bool :=
  startsWith s k ||
  match s with
  | "" => false
  | String _ s' => includes s' k
  end.

(** [s.endsWith(p)]: some tail of [s] is [p]. *)
Fixpoint endsWith (s p : string) : bool :=
  String.eqb s p ||
  match s with
  | "" => false
  | String _ s' => endsWith s' p
  end.

(** White space and line terminators of ECMAScript, which [trim]
    removes, as they stand in UTF-8.  One byte: tab, line feed, vertical
    tab, form feed, carriage return, space. *)
Definition is_ws (c : ascii) : bool :=
  let n := nat_of_ascii c in ((9 <=? n)%nat && (n <=? 13)%nat) || (n =? 32)%nat.

Definition byte_is (n : nat) (c : ascii) : bool := (nat_of_ascii c =? n)%nat.

(** Two bytes: U+00A0, the no-break space. *)
Definition is_ws2 (a b : ascii) : bool := byte_is 194 a && byte_is 160 b.

(** Three bytes: U+1680; U+2000 to U+200A, U+2028, U+2029 and U+202F;
    U+205F; U+3000; U+FEFF. *)
Definition is_ws3 (a b c : ascii) : bool :=
  (byte_is 225 a && byte_is 154 b && byte_is 128 c)
  || (byte_is 226 a && byte_is 128 b &&
      (((128 <=? nat_of_ascii c)%nat && (nat_of_ascii c <=? 138)%nat)
       || byte_is 168 c || byte_is 169 c || byte_is 175 c))
  || (byte_is 226 a && byte_is 129 b && byte_is 159 c)
  || (byte_is 227 a && byte_is 128 b && byte_is 128 c)
  || (byte_is 239 a && byte_is 187 b && byte_is 191 c).

Fixpoint trimStart (s : string) : string :=
  match s with
  | "" => ""
  | String a s1 =>
      if is_ws a then trimStart s1
      else match s1 with
           | "" => s
           | String b s2 =>
               if is_ws2 a b then trimStart s2
               else match s2 with
                    | "" => s
                    | String c s3 => if is_ws3 a b c then trimStart s3 else s
                    end
           end
  end.

(** Nothing but white space. *)
Definition blank (s : string) : bool := String.eqb (trimStart s) "".

Fixpoint trimEnd (s : string) : string :=
  match s with
  | "" => ""
  | String c s' => if blank s then "" else String c (trimEnd s')
  end.

(** [String.prototype.trim] *)
Definition trim (s : string) : string := trimEnd (trimStart s).

(** Truthiness of a string value: the empty string is falsy. *)
Definition truthy (s : string) : bool :=
  match s with "" => false | _ => true end.

(** [s.split(' ')] *)
Fixpoint split_space (s : string) : list string :=
  match s with
  | "" => [""]
  | String c s' =>
      let r := split_space s' in
      if Ascii.eqb c " " then "" :: r
      else match r with
           | w :: ws => String c w :: ws
           | [] => [String c ""]
           end
  end.

(** [l.join(sep)] *)
Definition join (sep : string) (l : list string) : string := String.concat sep l.

(** [s.replace(/[-_]/g, ' ')] *)
Fixpoint replace_dash_underscore (s : string) : string :=
  match s with
  | "" => ""
  | String c s' =>
      String (if Ascii.eqb c "-" || Ascii.eqb c "_" then " "%char else c)
             (replace_dash_underscore s')
  end.

(** [s.replace(/([A-Z])/g, ' $1')] *)
Fixpoint space_before_capitals (s : string) : string :=
  match s with
  | "" => ""
  | String c s' =>
      if is_upper c then String " " (String c (space_before_capitals s'))
      else String c (space_before_capitals s')
  end.

(** [s.charAt(0)] and [s.slice(1)] *)
Definition charAt0 (s : string) : string :=
  match s with "" => "" | String c _ => String c "" end.

Definition slice1 (s : string) : string :=
  match s with "" => "" | String _ s' => s' end.

(** [s.replace(/-(?:a1|a2|...)$/, '')]: the regular expression is tried
    at every position from the left; it matches at a position when what
    remains of the input is exactly ["-"] followed by one alternative
    ([$] is the end of the input, there is no [m] flag).  [None] when
    there is no match, otherwise the text before the match. *)
Fixpoint match_dash_alt_end (alts : list string) (s : string) : option string :=
  if existsb (fun a => String.eqb s ("-" +:+ a)) alts then Some ""
  else match s with
       | "" => None
       | String c s' => String c <$> match_dash_alt_end alts s'
       end.

Definition replace_dash_alt_end (alts : list string) (s : string) : string :=
  match match_dash_alt_end alts s with
  | Some before => before
  | None => s
  end.

(** [arr.includes(x)] on an array of strings *)
Definition arr_includes (l : list string) (x : string) : bool :=
  existsb (String.eqb x) l.

(** [arr.slice(start, end)] for integer bounds: a negative bound counts
    from the end of the array, and both are clamped to it. *)
Definition clamp_index (len i : Z) : Z :=
  if (i <? 0)%Z then Z.max (len + i) 0 else Z.min i len.

Definition slice {A} (l : list A) (start stop : Z) : list A :=
  let len := Z.of_nat (List.length l) in
  let from := clamp_index len start in
  let to := clamp_index len stop in
  take (Z.to_nat (to - from)) (drop (Z.to_nat from) l).

(** The names of the members of [Object.prototype].  For such a name,
    when it is not a key of its own, the lookup [table[name]] in an
    object literal answers the inherited member: a function, and the
    prototype itself for [__proto__]; none is a string, none can be
    spread, and all are truthy. *)
Definition inheritedMembers : list string :=
  [ "constructor"; "__defineGetter__"; "__defineSetter__"; "hasOwnProperty";
    "__lookupGetter__"; "__lookupSetter__"; "isPrototypeOf";
    "propertyIsEnumerable"; "toString"; "valueOf"; "__proto__";
    "toLocaleString" ].

Definition inherited (name : string) : bool := arr_includes inheritedMembers name.

(** [a.localeCompare(b)] in the root collation, for strings of ASCII
    letters, digits and spaces.  The strings are compared without
    regard to case first, a space before a digit and a digit before a
    letter; strings that are the same up to case are told apart at
    their first difference, where lower case comes first. *)
Fixpoint comparePrimary (a b : string) : Z :=
  match a, b with
  | "", "" => 0%Z
  | "", String _ _ => (-1)%Z
  | String _ _, "" => 1%Z
  | String x a', String y b' =>
      let m := nat_of_ascii (lower_char x) in
      let n := nat_of_ascii (lower_char y) in
      if (m <? n)%nat then (-1)%Z
      else if (n <? m)%nat then 1%Z
      else comparePrimary a' b'
  end.

Fixpoint compareCase (a b : string) : Z :=
  match a, b with
  | String x a', String y b' =>
      if Ascii.eqb x y then compareCase a' b'
      else if is_lower x then (-1)%Z else 1%Z
  | _, _ => 0%Z
  end.

Definition localeCompare (a b : string) : Z :=
  let primary := comparePrimary a b in
  if (primary =? 0)%Z then compareCase a b else primary.

End Js.

(** ** The directory source *)

Module Fs.

(** What [fs.existsSync] / [fs.readdir] observe of the icons directory. *)
Inductive Dir :=
| DirMissing                      (* the path does not exist *)
| DirUnreadable                   (* it exists but listing it fails *)
| DirListing (entries : list string).

Definition existsSync (d : Dir) : bool :=
  match d with DirMissing => false | _ => true end.

(** [fs.readdirSync] / [fs.readdir]: [None] stands for the exception
    (or the rejected promise). *)
Definition readdir (d : Dir) : option (list string) :=
  match d with DirListing l => Some l | _ => None end.

Fixpoint last_dot (s : string) : option nat :=
  match s with
  | "" => None
  | String c s' =>
      match last_dot s' with
      | Some i => Some (S i)
      | None => if Ascii.eqb c "." then Some 0 else None
      end
  end.

Fixpoint take_str (n : nat) (s : string) : string :=
  match n, s with
  | S n', String c s' => String c (take_str n' s')
  | _, _ => ""
  end.

(** [path.parse(entry).name] for a directory entry (no separator in
    it): the entry up to its last dot; an entry without a dot, or whose
    only dot comes first, or [".."], is its own name. *)
Definition parse_name (entry : string) : string :=
  match last_dot entry with
  | None | Some 0 => entry
  | Some d => if String.eqb entry ".." then entry else take_str d entry
  end.

End Fs.

(** ** The icon scanner ([ComposeonIconScanner]) *)

Module Scanner.

(** [this.categoryKeywords], in the order of [Object.entries]. *)
Definition categoryKeywords : list (string * list string) :=
  [ ("ai",
     [ "openai"; "claude"; "anthropic"; "gemini"; "chatgpt"; "gpt"; "midjourney";
       "stability"; "huggingface"; "deepseek"; "cohere"; "replicate"; "runway";
       "perplexity"; "character"; "ai21"; "ai2"; "ai302"; "ai360"; "aihubmix";
       "aimass"; "aionlabs"; "aistudio"; "akashchat"; "alephalpha"; "baai";
       "chatglm"; "deepai"; "deepcogito"; "deepinfra"; "deepmind"; "doubao";
       "dreammachine"; "elevenx"; "essentialai"; "glmv"; "goose" ]);
    ("cloud",
     [ "aws"; "azure"; "google"; "googlecloud"; "gcp"; "digitalocean"; "cloudflare";
       "heroku"; "netlify"; "vercel"; "railway"; "render"; "supabase"; "planetscale";
       "alibaba"; "alibabacloud"; "baidu"; "baiducloud"; "tencent"; "huawei";
       "oracle"; "ibm"; "linode"; "vultr"; "hetzner"; "baseten"; "crusoe";
       "anyscale"; "centml"; "fireworks"; "featherless"; "friendli" ]);
    ("dev",
     [ "github"; "gitlab"; "bitbucket"; "vscode"; "cursor"; "jetbrains"; "sublime";
       "atom"; "vim"; "docker"; "kubernetes"; "jenkins"; "circleci"; "travis";
       "copilot"; "githubcopilot"; "cline"; "codeflicker"; "codegeex"; "commanda";
       "copilotkit"; "greptile"; "colab"; "gradio" ]);
    ("framework",
     [ "react"; "vue"; "angular"; "svelte"; "nextjs"; "nuxt"; "gatsby";
       "nodejs"; "python"; "javascript"; "typescript"; "java"; "golang"; "rust";
       "php"; "ruby"; "swift"; "kotlin"; "dart"; "flutter"; "unity"; "unreal" ]);
    ("design",
     [ "figma"; "adobe"; "sketch"; "canva"; "framer"; "invision"; "principle";
       "dribbble"; "behance"; "unsplash"; "pexels"; "clipdrop"; "miro"; "whimsical";
       "lucidchart"; "webflow" ]);
    ("social",
     [ "linkedin"; "twitter"; "facebook"; "instagram"; "youtube"; "tiktok";
       "discord"; "slack"; "telegram"; "whatsapp"; "zoom"; "teams"; "meet";
       "webex"; "skype"; "twitch"; "spotify"; "netflix" ]);
    ("database",
     [ "mongodb"; "postgresql"; "mysql"; "redis"; "elasticsearch"; "cassandra";
       "neo4j"; "sqlite"; "snowflake"; "databricks"; "clickhouse"; "cockroachdb" ]);
    ("browser",
     [ "chrome"; "firefox"; "safari"; "edge"; "opera"; "brave" ]);
    ("crypto",
     [ "bitcoin"; "ethereum"; "binance"; "coinbase"; "metamask" ]);
    ("ecommerce",
     [ "shopify"; "stripe"; "paypal"; "square"; "klarna"; "razorpay"; "adyen" ]);
    ("productivity",
     [ "notion"; "obsidian"; "todoist"; "trello"; "asana"; "monday";
       "clickup"; "airtable"; "sheets"; "excel"; "word"; "powerpoint" ]);
    ("security",
     [ "nordvpn"; "expressvpn"; "1password"; "bitwarden"; "lastpass" ]) ].

(** The alternatives of the suffix pattern of [getBaseName]. *)
Definition suffixAlternatives : list string := ["color"; "text"; "brand"; "mono"].

(** [getBaseName]: [fileName.replace(/-(?:color|text|brand|mono)$/, '')] *)
Definition getBaseName (fileName : string) : string :=
  Js.replace_dash_alt_end suffixAlternatives fileName.

(** [getVariation] *)
Definition getVariation (fileName : string) : string :=
  if Js.endsWith fileName "-color" then "color"
  else if Js.endsWith fileName "-text" then "text"
  else if Js.endsWith fileName "-brand" then "brand"
  else if Js.endsWith fileName "-mono" then "mono"
  else "default".

(** The table [specialNames] of [formatDisplayName]. *)
Definition specialNames : gmap string string :=
  list_to_map
    [ ("openai", "OpenAI"); ("chatgpt", "ChatGPT"); ("github", "GitHub");
      ("gitlab", "GitLab"); ("vscode", "VS Code"); ("nodejs", "Node.js");
      ("nextjs", "Next.js"); ("typescript", "TypeScript");
      ("javascript", "JavaScript"); ("mongodb", "MongoDB");
      ("postgresql", "PostgreSQL"); ("mysql", "MySQL"); ("aws", "AWS");
      ("gcp", "Google Cloud"); ("ui", "UI"); ("api", "API"); ("ai", "AI");
      ("ml", "ML"); ("ar", "AR"); ("vr", "VR"); ("iot", "IoT"); ("sdk", "SDK") ].

(** [word.charAt(0).toUpperCase() + word.slice(1).toLowerCase()] *)
Definition capitalize (word : string) : string :=
  Js.toUpperCase (Js.charAt0 word) +:+ Js.toLowerCase (Js.slice1 word).

(** [formatDisplayName].  For a name whose lower case is inherited
    ([constructor], [__proto__]) the code answers the inherited member,
    which is not a string; the properties about display names leave
    these names out. *)
Definition formatDisplayName (name : string) : string :=
  let words :=
    Js.trim (Js.join " " (map capitalize
      (Js.split_space (Js.space_before_capitals (Js.replace_dash_underscore name))))) in
  match specialNames !! Js.toLowerCase name with
  | Some special => if Js.truthy special then special else words
  | None => words
  end.

(** The test of [keywords.some(...)] in [categorizeIcon]. *)
Definition keywordHit (nameLower keyword : string) : bool :=
  Js.includes nameLower (Js.toLowerCase keyword) ||
  Js.includes (Js.toLowerCase keyword) nameLower.

(** The [for ... of Object.entries(...)] loop of [categorizeIcon]. *)
Fixpoint firstCategory (entries : list (string * list string)) (nameLower : string) : string :=
  match entries with
  | [] => "other"
  | (category, keywords) :: rest =>
      if existsb (keywordHit nameLower) keywords then category
      else firstCategory rest nameLower
  end.

(** [categorizeIcon] *)
Definition categorizeIcon (name : string) : string :=
  firstCategory categoryKeywords (Js.toLowerCase name).

(** The table [alternatives] of [generateTags]. *)
Definition alternatives : gmap string (list string) :=
  list_to_map
    [ ("github", ["git"; "version control"]);
      ("docker", ["container"; "virtualization"]);
      ("kubernetes", ["k8s"; "orchestration"]);
      ("postgresql", ["postgres"; "sql"]);
      ("mongodb", ["mongo"; "nosql"]);
      ("javascript", ["js"; "node"]);
      ("typescript", ["ts"]);
      ("react", ["reactjs"]);
      ("vue", ["vuejs"]);
      ("angular", ["ng"]) ].

(** [generateTags]; [None] when it raises.  [alternatives[name]] is
    truthy for a key of the table and for an inherited name; in the
    second case [baseTags.push(...alternatives[name])] spreads a value
    that is not iterable, which is a [TypeError]. *)
Definition generateTags (name : string) : option (list string) :=
  let baseTags := [name; categorizeIcon name] in
  match alternatives !! name with
  | Some more => Some (baseTags ++ more)
  | None => if Js.inherited name then None else Some baseTags
  end.

(** The list [popular] of [isPopularIcon]. *)
Definition popular : list string :=
  [ "github"; "google"; "microsoft"; "apple"; "amazon"; "meta"; "netflix";
    "openai"; "claude"; "anthropic"; "gemini"; "chatgpt";
    "aws"; "azure"; "googlecloud"; "docker"; "kubernetes";
    "react"; "vue"; "angular"; "nodejs"; "python"; "javascript";
    "figma"; "adobe"; "vscode"; "chrome"; "firefox";
    "linkedin"; "twitter"; "instagram"; "youtube"; "tiktok";
    "mongodb"; "postgresql"; "redis"; "elasticsearch" ].

(** [isPopularIcon] *)
Definition isPopularIcon (name : string) : bool :=
  Js.arr_includes popular (Js.toLowerCase name).

(** The object built for each file by the [svgFiles.map] of [scanIcons]. *)
Record Icon := mkIcon {
  icon_name : string;
  icon_fileName : string;
  icon_variation : string;
  icon_displayName : string;
  icon_category : string;
  icon_path : string;
  icon_tags : list string
}.

(** An entry of the catalog: the first icon of its base name
    ([...icon]) with [variations] and [paths] added. *)
Record Entry := mkEntry {
  name : string;
  fileName : string;
  variation : string;
  displayName : string;
  category : string;
  path : string;
  tags : list string;
  variations : list string;
  paths : gmap string string
}.

(** The callback of [svgFiles.map] raises for this file: its call of
    [generateTags] does. *)
Definition makeIconRaises (file : string) : bool :=
  match generateTags (getBaseName (Fs.parse_name file)) with
  | Some _ => false
  | None => true
  end.

(** The object that the callback builds for a file for which it does
    not raise. *)
Definition makeIcon (file : string) : Icon :=
  let name := Fs.parse_name file in
  let baseName := getBaseName name in
  {| icon_name := baseName;
     icon_fileName := file;
     icon_variation := getVariation name;
     icon_displayName := formatDisplayName baseName;
     icon_category := categorizeIcon baseName;
     icon_path := "lobe-icons/packages/static-svg/icons/" +:+ file;
     icon_tags := default [] (generateTags baseName) |}.

(** [{...icon, variations: [icon.variation], paths: {[icon.variation]: icon.path}}] *)
Definition firstEntry (icon : Icon) : Entry :=
  {| name := icon_name icon;
     fileName := icon_fileName icon;
     variation := icon_variation icon;
     displayName := icon_displayName icon;
     category := icon_category icon;
     path := icon_path icon;
     tags := icon_tags icon;
     variations := [icon_variation icon];
     paths := {[ icon_variation icon := icon_path icon ]} |}.

(** [existing.variations.push(icon.variation);
     existing.paths[icon.variation] = icon.path] *)
Definition addVariation (icon : Icon) (existing : Entry) : Entry :=
  {| name := name existing;
     fileName := fileName existing;
     variation := variation existing;
     displayName := displayName existing;
     category := category existing;
     path := path existing;
     tags := tags existing;
     variations := variations existing ++ [icon_variation icon];
     paths := <[ icon_variation icon := icon_path icon ]> (paths existing) |}.

(** The [Map] [groupedIcons]: keys with their values, in insertion order. *)
Definition map_has (m : list (string * Entry)) (key : string) : bool :=
  existsb (fun kv => String.eqb kv.1 key) m.

(** The object stored under [key] is updated in place. *)
Fixpoint map_modify (f : Entry → Entry) (key : string) (m : list (string * Entry))
  : list (string * Entry) :=
  match m with
  | [] => []
  | (k, v) :: m' =>
      if String.eqb k key then (k, f v) :: m'
      else (k, v) :: map_modify f key m'
  end.

(** One round of [icons.forEach(icon => ...)]. *)
Definition groupStep (m : list (string * Entry)) (icon : Icon) : list (string * Entry) :=
  if negb (map_has m (icon_name icon)) then m ++ [(icon_name icon, firstEntry icon)]
  else map_modify (addVariation icon) (icon_name icon) m.

(** [Array.from(groupedIcons.values())] after the [forEach]. *)
Definition groupIcons (icons : list Icon) : list Entry :=
  map snd (fold_left groupStep icons []).

(** The filters of [handleIconsAPI] over the icons of the manifest.  A
    query parameter that is absent is [None]. *)
Definition apiFilter (icons : list Entry) (category search : option string) : list Entry :=
  let icons :=
    match category with
    | Some c =>
        if Js.truthy c && negb (String.eqb c "all")
        then List.filter (fun icon => String.eqb (Scanner.category icon) c) icons
        else icons
    | None => icons
    end in
  match search with
  | Some s =>
      if Js.truthy s then
        let searchTerm := Js.toLowerCase s in
        List.filter (fun icon =>
                       Js.includes (Js.toLowerCase (name icon)) searchTerm ||
                       Js.includes (Js.toLowerCase (displayName icon)) searchTerm ||
                       existsb (fun tag => Js.includes (Js.toLowerCase tag) searchTerm)
                               (tags icon))
                    icons
      else icons
  | None => icons
  end.


(** [Array.prototype.sort(compare)] is a stable sort: for a consistent
    comparator its result is determined by the input array alone, and
    insertion from the right computes it. *)
Fixpoint insert_by {A} (compare : A → A → Z) (x : A) (l : list A) : list A :=
  match l with
  | [] => [x]
  | y :: l' => if (compare x y <=? 0)%Z then x :: l else y :: insert_by compare x l'
  end.

Fixpoint sort_by {A} (compare : A → A → Z) (l : list A) : list A :=
  match l with
  | [] => []
  | x :: l' => insert_by compare x (sort_by compare l')
  end.

Section WithCollation.

(** [String.prototype.localeCompare], which depends on the collation of
    the host: negative, zero or positive. *)
Variable localeCompare : string → string → Z.

(** The comparator passed to [finalIcons.sort]. *)
Definition compareEntries (a b : Entry) : Z :=
  let aPopular := isPopularIcon (name a) in
  let bPopular := isPopularIcon (name b) in
  if aPopular && negb bPopular then (-1)%Z
  else if negb aPopular && bPopular then 1%Z
  else localeCompare (displayName a) (displayName b).

Definition sortCatalog (entries : list Entry) : list Entry :=
  sort_by compareEntries entries.

(** [scanIcons]: a missing directory and any exception give [[]], the
    exception of [readdirSync] and that of the callback of
    [svgFiles.map] alike. *)
Definition scanIcons (dir : Fs.Dir) : list Entry :=
  if negb (Fs.existsSync dir) then []
  else match Fs.readdir dir with
       | None => []
       | Some files =>
           let svgFiles := List.filter (fun file => Js.endsWith file ".svg") files in
           if existsb makeIconRaises svgFiles then []
           else sortCatalog (groupIcons (map makeIcon svgFiles))
       end.

End WithCollation.

End Scanner.

(** ** The MCP server ([ComposeonMCPServer]) *)

Module McpServer.

(** [this.categories], in the order of [Object.entries]. *)
Definition categories : list (string * list string) :=
  [ ("ai", ["openai"; "claude"; "anthropic"; "gemini"; "chatglm"; "deepseek"; "cohere"; "mistral"]);
    ("cloud", ["aws"; "azure"; "google"; "googlecloud"; "microsoft"; "alibaba"; "alibabacloud"]);
    ("database", ["mongodb"; "postgresql"; "mysql"; "redis"; "elasticsearch"; "cassandra"]);
    ("design", ["figma"; "adobe"; "sketch"; "canva"; "framer"; "principle"]);
    ("dev", ["github"; "gitlab"; "vscode"; "cursor"; "docker"; "kubernetes"]);
    ("social", ["linkedin"; "twitter"; "facebook"; "instagram"; "discord"; "slack"]) ].

(** An element of [this.icons]. *)
Record Icon := mkIcon {
  name : string;
  category : string;
  filename : string;
  path : string;
  displayName : string;
  variations : list string
}.

(** [name.replace(/-(?:color|text|brand)$/, '')] *)
Definition stripSuffix (name : string) : string :=
  Js.replace_dash_alt_end ["color"; "text"; "brand"] name.

Fixpoint firstCategory (entries : list (string * list string)) (baseName : string) : string :=
  match entries with
  | [] => "other"
  | (category, keywords) :: rest =>
      if existsb (fun keyword => Js.includes baseName keyword) keywords then category
      else firstCategory rest baseName
  end.

(** [categorizeIcon] *)
Definition categorizeIcon (name : string) : string :=
  firstCategory categories (stripSuffix name).

Definition specialNames : gmap string string :=
  list_to_map
    [ ("openai", "OpenAI"); ("chatgpt", "ChatGPT"); ("github", "GitHub");
      ("vscode", "VS Code"); ("nodejs", "Node.js"); ("nextjs", "Next.js");
      ("typescript", "TypeScript"); ("javascript", "JavaScript") ].

(** [table[key] || fallback] on strings *)
Definition lookup_or (table : gmap string string) (key fallback : string) : string :=
  match table !! key with
  | Some v => if Js.truthy v then v else fallback
  | None => fallback
  end.

(** [formatDisplayName].  For a base name that is inherited the code
    answers the inherited member, which is not a string; the properties
    about display names leave these names out. *)
Definition formatDisplayName (name : string) : string :=
  let baseName := stripSuffix name in
  lookup_or specialNames baseName
    (Js.toUpperCase (Js.charAt0 baseName) +:+ Js.slice1 baseName).

(** [getVariations] *)
Definition getVariations (baseName : string) (allFiles : list string) : list string :=
  "default" ::
  List.filter (fun variation =>
                 Js.arr_includes allFiles (baseName +:+ "-" +:+ variation +:+ ".svg"))
              ["color"; "text"; "brand"].

Definition fallbackList : list string :=
  [ "openai"; "claude"; "github"; "figma"; "google"; "microsoft";
    "aws"; "azure"; "docker"; "react"; "nodejs"; "python" ].

(** The [Map] [uniqueIcons]: keys with their values, in insertion order;
    [set] on a present key replaces the value where it stands. *)
Definition map_has (m : list (string * Icon)) (key : string) : bool :=
  existsb (fun kv => String.eqb kv.1 key) m.

Fixpoint map_set (key : string) (v : Icon) (m : list (string * Icon)) : list (string * Icon) :=
  match m with
  | [] => [(key, v)]
  | (k, w) :: m' =>
      if String.eqb k key then (k, v) :: m' else (k, w) :: map_set key v m'
  end.

Section WithBasePath.

(** [file => path.join(this.iconBasePath, file)]; the base path is
    [__dirname] joined with the icons directory. *)
Variable joinBase : string → string.

(** [getFallbackIcons] *)
Definition getFallbackIcons : list Icon :=
  map (fun name =>
         {| name := name;
            category := categorizeIcon name;
            filename := name +:+ ".svg";
            path := joinBase (name +:+ ".svg");
            displayName := formatDisplayName name;
            variations := ["default"] |})
      fallbackList.

(** The object built for each file by the [svgFiles.map] of [loadIcons]. *)
Definition makeIcon (svgFiles : list string) (file : string) : Icon :=
  let name := Fs.parse_name file in
  {| name := name;
     category := categorizeIcon name;
     filename := file;
     path := joinBase file;
     displayName := formatDisplayName name;
     variations := getVariations name svgFiles |}.

(** One round of [this.icons.forEach(icon => ...)]. *)
Definition dedupStep (svgFiles : list string) (m : list (string * Icon)) (icon : Icon)
  : list (string * Icon) :=
  let baseName := stripSuffix (name icon) in
  if negb (map_has m baseName) || String.eqb (name icon) baseName then
    map_set baseName
      {| name := baseName;
         category := category icon;
         filename := filename icon;
         path := path icon;
         displayName := displayName icon;
         variations := getVariations baseName svgFiles |} m
  else m.

(** [loadIcons]: the value of [this.icons] when it returns. *)
Definition loadIcons (dir : Fs.Dir) : list Icon :=
  match Fs.readdir dir with
  | Some files =>
      let svgFiles := List.filter (fun file => Js.endsWith file ".svg") files in
      let icons := map (makeIcon svgFiles) svgFiles in
      map snd (fold_left (dedupStep svgFiles) icons [])
  | None => getFallbackIcons
  end.

End WithBasePath.

(** [searchIcons(query, category = null, limit = 50)] over [this.icons].
    An argument that is not supplied is [None]. *)
Definition searchIcons (icons : list Icon)
    (query category : option string) (limit : option Z) : list Icon :=
  let limit := default 50%Z limit in
  let filtered := icons in
  let filtered :=
    match category with
    | Some c =>
        if Js.truthy c && negb (String.eqb c "all")
        then List.filter (fun icon => String.eqb (McpServer.category icon) c) filtered
        else filtered
    | None => filtered
    end in
  let filtered :=
    match query with
    | Some q =>
        if Js.truthy q && Js.truthy (Js.trim q) then
          let searchTerm := Js.toLowerCase q in
          List.filter (fun icon =>
                         Js.includes (Js.toLowerCase (name icon)) searchTerm ||
                         Js.includes (Js.toLowerCase (displayName icon)) searchTerm ||
                         Js.includes (Js.toLowerCase (McpServer.category icon)) searchTerm)
                      filtered
        else filtered
    | None => filtered
    end in
  Js.slice filtered 0 limit.

Definition emojiMap : gmap string string :=
  list_to_map
    [ ("openai", "🤖");
      ("claude", "🧠");
      ("github", "🐙");
      ("figma", "🎨");
      ("google", "🔍");
      ("microsoft", "🪟");
      ("aws", "☁️");
      ("azure", "🔵");
      ("docker", "🐳");
      ("kubernetes", "⚓");
      ("mongodb", "🍃");
      ("postgresql", "🐘");
      ("linkedin", "💼");
      ("twitter", "🐦") ].

(** [getIconEmoji], for a name that is not inherited. *)
Definition getIconEmoji (name : string) : string :=
  lookup_or emojiMap name "⭐".

(** [selectedIcons.map(name => this.icons.find(icon => icon.name === name))
     .filter(Boolean)] *)
Definition findIcon (icons : list Icon) (wanted : string) : option Icon :=
  List.find (fun icon => String.eqb (name icon) wanted) icons.

Definition iconObjects (icons : list Icon) (selectedIcons : list string) : list Icon :=
  omap (findIcon icons) selectedIcons.

Definition nl : string := String (ascii_of_nat 10) "".

(** The lines of a template literal, joined by line feeds. *)
Definition lines (l : list string) : string := Js.join nl l.

Definition toolsSpotlight (iconList iconEmojis : string) : string :=
  lines
    [ "🌟 Amazing tools that are transforming how we work:";
      "";
      iconList;
      "";
      "These tools have revolutionized productivity and creativity in their respective domains. Each one brings unique capabilities that help teams and individuals achieve more.";
      "";
      "What's your favorite tool from this list? Share your experience in the comments! 👇";
      "";
      iconEmojis;
      "";
      "#TechTools #Innovation #Productivity #TechStack" ].

Definition techStack (iconList iconEmojis : string) : string :=
  lines
    [ "🛠️ My current tech stack:";
      "";
      iconList;
      "";
      "This combination has been incredibly powerful for building scalable, maintainable solutions. Each tool plays a crucial role in the development lifecycle.";
      "";
      "The synergy between these technologies enables rapid development while maintaining high quality standards.";
      "";
      "What does your tech stack look like? Drop it in the comments! 💻";
      "";
      iconEmojis;
      "";
      "#TechStack #Development #Engineering #SoftwareDevelopment" ].

Definition comparison (iconList iconEmojis : string) : string :=
  lines
    [ "⚖️ Comparing some popular tools in the market:";
      "";
      iconList;
      "";
      "Each of these tools has its strengths and ideal use cases. The choice often depends on:";
      "• Team size and expertise";
      "• Project requirements";
      "• Budget considerations";
      "• Integration needs";
      "• Long-term scalability";
      "";
      "Have you used any of these? What's been your experience? 🤔";
      "";
      iconEmojis;
      "";
      "#TechComparison #ToolSelection #TechDecisions" ].

Definition trendAnalysis (iconList iconEmojis : string) : string :=
  lines
    [ "📈 Trending technologies worth watching:";
      "";
      iconList;
      "";
      "These tools are gaining significant traction in the tech community. Here's why they're trending:";
      "";
      "✨ Innovation in user experience";
      "🚀 Improved performance and efficiency";
      "🔧 Better developer experience";
      "🌐 Strong community adoption";
      "💡 Solving real-world problems";
      "";
      "Which one are you most excited about? Let me know! 🎯";
      "";
      iconEmojis;
      "";
      "#TechTrends #Innovation #FutureTech #Technology" ].

Definition templates : gmap string (string → string → string) :=
  list_to_map
    [ ("tools-spotlight", toolsSpotlight); ("tech-stack", techStack);
      ("comparison", comparison); ("trend-analysis", trendAnalysis) ].

(** [generateLinkedInPost], for a template that is not inherited: for
    one that is, [templates[template]] is the inherited member and the
    code returns it in place of a post. *)
Definition generateLinkedInPost (icons : list Icon)
    (template : string) (selectedIcons : list string) : string :=
  let found := iconObjects icons selectedIcons in
  let iconList := Js.join nl (map (fun icon => "• " +:+ displayName icon) found) in
  let iconEmojis := Js.join " " (map (fun icon => getIconEmoji (name icon)) found) in
  match templates !! template with
  | Some text => text iconList iconEmojis
  | None =>
      "Check out these amazing tools: "
        +:+ Js.join ", " (map displayName found) +:+ "!"
  end.

End McpServer.

(** ** The browser-side loader ([IconsLoader]) *)

Module IconsLoader.

(** An element of [this.icons], as built by [createIconObject].  The
    elements that [initialize] reads from a manifest are entries of the
    scanner: see [LoaderBuild.Loaded]. *)
Record Icon := mkIcon {
  name : string;
  displayName : string;
  category : string;
  tags : list string;
  variations : list string;
  path : string;
  paths : gmap string string;
  searchable : string
}.

(** The [while] loop of [fuzzyMatch]: the pattern is consumed as its
    characters are met, in order, in the text. *)
Fixpoint fuzzyLoop (text pattern : string) : bool :=
  match pattern, text with
  | "", _ => true
  | String _ _, "" => false
  | String p pattern', String t text' =>
      if Ascii.eqb t p then fuzzyLoop text' pattern' else fuzzyLoop text' pattern
  end.

(** [fuzzyMatch] *)
Definition fuzzyMatch (text pattern : string) : bool :=
  fuzzyLoop (Js.toLowerCase text) (Js.toLowerCase pattern).

(** The predicate of the [filter] of [search]. *)
Definition searchHit (searchTerm : string) (icon : Icon) : bool :=
  Js.includes (searchable icon) searchTerm ||
  fuzzyMatch (name icon) searchTerm ||
  fuzzyMatch (displayName icon) searchTerm.

(** [!query || query.trim() === ''] *)
Definition blankQuery (query : option string) : bool :=
  match query with
  | Some q => negb (Js.truthy q) || String.eqb (Js.trim q) ""
  | None => true
  end.

(** [search] *)
Definition search (icons : list Icon) (query : option string) : list Icon :=
  if blankQuery query then icons
  else
    let searchTerm := Js.trim (Js.toLowerCase (default "" query)) in
    List.filter (searchHit searchTerm) icons.

(** [category === 'all' || !category] *)
Definition allCategories (category : option string) : bool :=
  match category with
  | Some c => String.eqb c "all" || negb (Js.truthy c)
  | None => true
  end.

(** [filterByCategory] *)
Definition filterByCategory (icons : list Icon) (category : option string) : list Icon :=
  if allCategories category then icons
  else List.filter (fun icon => String.eqb (IconsLoader.category icon) (default "" category)) icons.

(** [getIconsByNames] *)
Definition getIconsByNames (icons : list Icon) (names : list string) : list Icon :=
  List.filter (fun icon => Js.arr_includes names (name icon)) icons.

End IconsLoader.

(** ** Arrays and objects by reference

    [this.icons] holds a reference to an array of references to icon
    objects.  [filter] and [slice] allocate a new array that shares the
    objects of the one they read. *)

Module Heap.

Definition loc := nat.

Section Store.

Context {Obj : Type}.

Record store := mkStore {
  this_icons : loc;                 (* the field [this.icons] *)
  arrays : gmap loc (list loc);
  objects : gmap loc Obj
}.

(** A computation reads and writes the store and may fail on a
    reference that is not allocated. *)
Definition M (A : Type) : Type := store → option (A * store).

Definition ret {A} (x : A) : M A := fun σ => Some (x, σ).

Definition bind {A B} (m : M A) (k : A → M B) : M B :=
  fun σ => match m σ with
           | Some (x, σ') => k x σ'
           | None => None
           end.

Definition get_icons : M loc := fun σ => Some (this_icons σ, σ).

Definition read_array (a : loc) : M (list loc) :=
  fun σ => match arrays σ !! a with
           | Some l => Some (l, σ)
           | None => None
           end.

Definition read_object (o : loc) : M Obj :=
  fun σ => match objects σ !! o with
           | Some x => Some (x, σ)
           | None => None
           end.

Definition new_array (l : list loc) : M loc :=
  fun σ =>
    let a := fresh (dom (arrays σ)) in
    Some (a, {| this_icons := this_icons σ;
                arrays := <[a := l]> (arrays σ);
                objects := objects σ |}).

(** The loop of [arr.filter(icon => p icon)]: the callback reads the
    fields of the object behind each element. *)
Fixpoint filter_loop (p : Obj → bool) (l : list loc) : M (list loc) :=
  match l with
  | [] => ret []
  | o :: l' =>
      bind (read_object o) (fun x =>
      bind (filter_loop p l') (fun kept =>
      ret (if p x then o :: kept else kept)))
  end.

Definition array_filter (p : Obj → bool) (a : loc) : M loc :=
  bind (read_array a) (fun l =>
  bind (filter_loop p l) (fun kept =>
  new_array kept)).

Definition array_slice (a : loc) (start stop : Z) : M loc :=
  bind (read_array a) (fun l => new_array (Js.slice l start stop)).

(** The objects behind an array, in order. *)
Definition contents (σ : store) (a : loc) : option (list Obj) :=
  match arrays σ !! a with
  | Some l => mapM (fun o => objects σ !! o) l
  | None => None
  end.

(** The catalog as a reader sees it. *)
Definition catalog (σ : store) : option (list Obj) := contents σ (this_icons σ).

End Store.

Arguments store : clear implicits.
Arguments M : clear implicits.

End Heap.

(** ** The read operations over the store *)

Module Snapshot.

Import Heap.

(** [ComposeonMCPServer.searchIcons] *)
Definition searchIcons (query category : option string) (limit : option Z)
  : M McpServer.Icon loc :=
  let limit := default 50%Z limit in
  bind get_icons (fun filtered =>
  bind (match category with
        | Some c =>
            if Js.truthy c && negb (String.eqb c "all")
            then array_filter (fun icon => String.eqb (McpServer.category icon) c) filtered
            else ret filtered
        | None => ret filtered
        end) (fun filtered =>
  bind (match query with
        | Some q =>
            if Js.truthy q && Js.truthy (Js.trim q) then
              let searchTerm := Js.toLowerCase q in
              array_filter
                (fun icon =>
                   Js.includes (Js.toLowerCase (McpServer.name icon)) searchTerm ||
                   Js.includes (Js.toLowerCase (McpServer.displayName icon)) searchTerm ||
                   Js.includes (Js.toLowerCase (McpServer.category icon)) searchTerm)
                filtered
            else ret filtered
        | None => ret filtered
        end) (fun filtered =>
  array_slice filtered 0 limit))).

(** [IconsLoader.filterByCategory] *)
Definition filterByCategory (category : option string) : M IconsLoader.Icon loc :=
  if IconsLoader.allCategories category then get_icons
  else
    bind get_icons (fun icons =>
    array_filter
      (fun icon => String.eqb (IconsLoader.category icon) (default "" category)) icons).

(** [IconsLoader.search] *)
Definition search (query : option string) : M IconsLoader.Icon loc :=
  if IconsLoader.blankQuery query then get_icons
  else
    let searchTerm := Js.trim (Js.toLowerCase (default "" query)) in
    bind get_icons (fun icons =>
    array_filter (IconsLoader.searchHit searchTerm) icons).

End Snapshot.

(** * Vocabulary of the properties *)

Module Spec.

(** ** Strings *)

(** [k] occurs in [s]. *)
Definition substring (k s : string) : Prop :=
  ∃ before after, s = before +:+ k +:+ after.

(** [s] ends with [p]. *)
Definition suffix_of (p s : string) : Prop :=
  ∃ before, s = before +:+ p.

Fixpoint last_char (s : string) : option ascii :=
  match s with
  | "" => None
  | String c s' => match last_char s' with Some d => Some d | None => Some c end
  end.

(** ** Categories *)

(** Some keyword of the list occurs in [b], or [b] occurs in it. *)
Definition matchesSome (b : string) (keywords : list string) : Prop :=
  ∃ k, k ∈ keywords ∧ (substring k b ∨ substring b k).

(** ** Grouping *)

Definition isSvg (file : string) : bool := Js.endsWith file ".svg".

(** Neither the name nor its lower case is inherited from
    [Object.prototype]: the lookups of the scanner by this name stay
    within its tables. *)
Definition ownName (name : string) : bool :=
  negb (Js.inherited name) && negb (Js.inherited (Js.toLowerCase name)).

(** The files have base names of that kind. *)
Definition ownFiles (files : list string) : Prop :=
  Forall (fun file => ownName (Scanner.getBaseName (Fs.parse_name file)) = true) files.

(** The [.svg] files of the listing have base names of that kind. *)
Definition ownStems (files : list string) : Prop :=
  ownFiles (List.filter isSvg files).

(** The value stored under a key of the [Map]. *)
Definition assoc (key : string) (m : list (string * Scanner.Entry)) : option Scanner.Entry :=
  snd <$> List.find (fun kv => String.eqb kv.1 key) m.

(** The icons seen so far whose base name is [key]. *)
Definition members (key : string) (seen : list Scanner.Icon) : list Scanner.Icon :=
  List.filter (fun icon => String.eqb (Scanner.icon_name icon) key) seen.

(** What the loop has made of the members of one base name. *)
Definition folded (l : list Scanner.Icon) : option Scanner.Entry :=
  match l with
  | [] => None
  | first :: more =>
      Some (fold_left (fun e icon => Scanner.addVariation icon e) more
                      (Scanner.firstEntry first))
  end.

(** The invariant of the [forEach] loop: the keys are distinct, and each
    key holds what the loop made of its members, in order. *)
Definition grouped (m : list (string * Scanner.Entry)) (seen : list Scanner.Icon) : Prop :=
  NoDup (map fst m) ∧ ∀ key, assoc key m = folded (members key seen).

(** What the scenario looks at in an entry. *)
Definition summary (e : Scanner.Entry) : string * list string * string * string :=
  (Scanner.name e, Scanner.variations e, Scanner.category e, Scanner.displayName e).

(** ** Order *)

Definition le {A} (compare : A → A → Z) (a b : A) : Prop := (compare a b ≤ 0)%Z.

(** A comparator that puts the elements of one class first and orders
    each class by [inner]. *)
Definition classThen {A} (first : A → bool) (inner : A → A → Z) (a b : A) : Z :=
  if first a && negb (first b) then (-1)%Z
  else if negb (first a) && first b then 1%Z
  else inner a b.

Definition isPopular (e : Scanner.Entry) : bool := Scanner.isPopularIcon (Scanner.name e).

Definition byDisplayName (localeCompare : string → string → Z) (a b : Scanner.Entry) : Z :=
  localeCompare (Scanner.displayName a) (Scanner.displayName b).

(** A comparator on code units, one instance of what [localeCompare]
    is assumed to be. *)
Fixpoint codeUnitCompare (s t : string) : Z :=
  match s, t with
  | "", "" => 0
  | "", String _ _ => -1
  | String _ _, "" => 1
  | String a s', String b t' =>
      if (nat_of_ascii a <? nat_of_ascii b)%nat then -1
      else if (nat_of_ascii b <? nat_of_ascii a)%nat then 1
      else codeUnitCompare s' t'
  end%Z.

Definition sampleEntries : list Scanner.Entry :=
  Scanner.groupIcons
    (map Scanner.makeIcon ["zoom.svg"; "github.svg"; "notes.svg"; "figma-color.svg"]).

(** The claim of C6 on the order within a part, read on code units: of
    two entries of the same part that follow each other, the display
    name of the first is not after that of the second, character code
    by character code. *)
Definition lexicographic (catalog : list Scanner.Entry) : Prop :=
  ∀ i a b, catalog !! i = Some a → catalog !! S i = Some b →
           isPopular a = isPopular b →
           (codeUnitCompare (Scanner.displayName a) (Scanner.displayName b) ≤ 0)%Z.

Definition sorted_lexicographically : Prop :=
  ∀ files, lexicographic (Scanner.scanIcons Js.localeCompare (Fs.DirListing files)).

(** ** Failure of the directory *)

(** The claim of C7 read on the scanner: a directory that cannot be
    listed gives the fallback catalog. *)
Definition scanner_falls_back : Prop :=
  ∀ (localeCompare : string → string → Z) (dir : Fs.Dir),
    Fs.readdir dir = None →
    map Scanner.name (Scanner.scanIcons localeCompare dir) = McpServer.fallbackList.

(** ** Search *)



Definition categoryTest (category : option string) (icon : McpServer.Icon) : bool :=
  match category with
  | Some c =>
      if Js.truthy c && negb (String.eqb c "all")
      then String.eqb (McpServer.category icon) c else true
  | None => true
  end.

Definition queryTest (query : option string) (icon : McpServer.Icon) : bool :=
  match query with
  | Some q =>
      if Js.truthy q && Js.truthy (Js.trim q)
      then Js.includes (Js.toLowerCase (McpServer.name icon)) (Js.toLowerCase q) ||
           Js.includes (Js.toLowerCase (McpServer.displayName icon)) (Js.toLowerCase q) ||
           Js.includes (Js.toLowerCase (McpServer.category icon)) (Js.toLowerCase q)
      else true
  | None => true
  end.



Definition apiCategoryTest (category : option string) (e : Scanner.Entry) : bool :=
  match category with
  | Some c =>
      if Js.truthy c && negb (String.eqb c "all")
      then String.eqb (Scanner.category e) c else true
  | None => true
  end.

Definition apiSearchTest (search : option string) (e : Scanner.Entry) : bool :=
  match search with
  | Some s =>
      if Js.truthy s
      then Js.includes (Js.toLowerCase (Scanner.name e)) (Js.toLowerCase s) ||
           Js.includes (Js.toLowerCase (Scanner.displayName e)) (Js.toLowerCase s) ||
           existsb (fun tag => Js.includes (Js.toLowerCase tag) (Js.toLowerCase s))
                   (Scanner.tags e)
      else true
  | None => true
  end.

(** One icon of the MCP catalog. *)
Definition githubIcon : McpServer.Icon :=
  {| McpServer.name := "github";
     McpServer.category := "dev";
     McpServer.filename := "github.svg";
     McpServer.path := "icons/github.svg";
     McpServer.displayName := "GitHub";
     McpServer.variations := ["default"] |}.


(** ** Posts *)

(** The names that the catalog knows. *)
Definition known (icons : list McpServer.Icon) (wanted : string) : bool :=
  bool_decide (wanted ∈ map McpServer.name icons).

Definition knownLoaded (loaded : list IconsLoader.Icon) (wanted : string) : bool :=
  bool_decide (wanted ∈ map IconsLoader.name loaded).

(** ** Stores *)

(** [σ'] has everything of [σ]: the same [this.icons], the same
    objects, and every array of [σ] with the same elements. *)
Definition extends {Obj} (σ σ' : Heap.store Obj) : Prop :=
  Heap.this_icons σ' = Heap.this_icons σ
  ∧ Heap.objects σ' = Heap.objects σ
  ∧ Heap.arrays σ ⊆ Heap.arrays σ'.

(** A store of the MCP server with two icons, and one of the loader
    with one. *)
Definition serverStore : Heap.store McpServer.Icon :=
  {| Heap.this_icons := 0%nat;
     Heap.arrays := {[ 0%nat := [1%nat; 2%nat] ]};
     Heap.objects :=
       {[ 1%nat := githubIcon;
          2%nat := {| McpServer.name := "figma";
                      McpServer.category := "design";
                      McpServer.filename := "figma.svg";
                      McpServer.path := "icons/figma.svg";
                      McpServer.displayName := "Figma";
                      McpServer.variations := ["default"] |} ]} |}.

Definition loaderStore : Heap.store IconsLoader.Icon :=
  {| Heap.this_icons := 0%nat;
     Heap.arrays := {[ 0%nat := [1%nat] ]};
     Heap.objects :=
       {[ 1%nat := {| IconsLoader.name := "react";
                      IconsLoader.displayName := "React";
                      IconsLoader.category := "other";
                      IconsLoader.tags := ["react"; "other"];
                      IconsLoader.variations := ["default"];
                      IconsLoader.path := "lobe-icons/packages/static-svg/icons/react.svg";
                      IconsLoader.paths :=
                        {[ "default" := "lobe-icons/packages/static-svg/icons/react.svg" ]};
                      IconsLoader.searchable := "react react other react other" |} ]} |}.

End Spec.

(** * More of the three programs *)

(** ** The scanner: manifest and HTTP handler *)

Module ScannerApi.

Import Scanner.

(** [stats[key] || 0] *)
Definition countOf (stats : gmap string nat) (key : string) : nat :=
  match stats !! key with
  | Some n => n
  | None => 0
  end.

(** [getCategoryStats] *)
Definition getCategoryStats (icons : list Entry) : gmap string nat :=
  fold_left (fun stats icon =>
               <[ category icon := countOf stats (category icon) + 1 ]> stats)
            icons ∅.

(** The manifest written by [generateManifest]. *)
Record Manifest := mkManifest {
  m_version : string;
  m_generated : string;
  m_total : nat;
  m_categories : gmap string nat;
  m_icons : list Entry
}.

(** [generateManifest]; [now] is [new Date().toISOString()]. *)
Definition generateManifest (now : string) (icons : list Entry) : Manifest :=
  {| m_version := "2.0.0";
     m_generated := now;
     m_total := length icons;
     m_categories := getCategoryStats icons;
     m_icons := icons |}.

(** The object sent by [handleIconsAPI]. *)
Record ApiResult := mkApiResult {
  r_total : nat;
  r_page : Z;
  r_limit : Z;
  r_hasMore : bool;
  r_icons : list Entry;
  r_categories : gmap string nat
}.

Inductive ApiResponse :=
| Ok200 (result : ApiResult)
| Error500 (error : string).

(** [handleIconsAPI].  [manifest] is what reading and parsing the
    manifest file gave, [None] when that raised; [category] and [search]
    are the query parameters, [page] and [limit] what [parseInt] made of
    theirs ([None] for [NaN]). *)
Definition handleIconsAPI (manifest : option Manifest)
    (category search : option string) (page limit : option Z) : ApiResponse :=
  match manifest with
  | None => Error500 "Failed to load icons"
  | Some manifest =>
      let icons := apiFilter (m_icons manifest) category search in
      let page := match page with Some p => p | None => 0%Z end in
      let limit := match limit with
                   | Some n => if (n =? 0)%Z then 24%Z else n
                   | None => 24%Z
                   end in
      let startIndex := (page * limit)%Z in
      let endIndex := (startIndex + limit)%Z in
      Ok200 {| r_total := length icons;
               r_page := page;
               r_limit := limit;
               r_hasMore := (endIndex <? Z.of_nat (length icons))%Z;
               r_icons := Js.slice icons startIndex endIndex;
               r_categories := m_categories manifest |}
  end.

End ScannerApi.

(** ** The MCP server: icon files, statistics and tools *)

Module McpTools.

Import McpServer.

(** What a rejected promise or a thrown [Error] carries: its message. *)
Definition Result (A : Type) : Type := A + string.

Section WithFiles.

Variable joinBase : string → string.

(** [fs.readFile(path, 'utf-8')]: the content, or the message of the
    error. *)
Variable readFile : string → string + string.

(** [getIconContent(iconName, variation = 'default')] *)
Definition getIconContent (icons : list Icon) (iconName : string)
    (variation : option string) : Result string :=
  let variation := default "default" variation in
  match findIcon icons iconName with
  | None => inr ("Icon '" +:+ iconName +:+ "' not found")
  | Some icon =>
      let filename :=
        if negb (String.eqb variation "default") &&
           Js.arr_includes (variations icon) variation
        then iconName +:+ "-" +:+ variation +:+ ".svg"
        else filename icon in
      match readFile (joinBase filename) with
      | inl content => inl content
      | inr message => inr ("Failed to read icon file: " +:+ message)
      end
  end.

End WithFiles.

(** The counts of [getStats], one for each key of [this.categories]. *)
Definition categoryStats (icons : list Icon) : list (string * nat) :=
  map (fun entry : string * list string =>
         (entry.1,
          length (List.filter (fun icon => String.eqb (category icon) entry.1) icons)))
      categories.

Record Stats := mkStats {
  s_total : nat;
  s_categories : list (string * nat);
  s_availableCategories : list string;
  s_lastUpdated : string
}.

(** [getStats]; [now] is [new Date().toISOString()]. *)
Definition getStats (now : string) (icons : list Icon) : Stats :=
  {| s_total := length icons;
     s_categories := categoryStats icons;
     s_availableCategories := map fst categories;
     s_lastUpdated := now |}.

(** The errors of the tools. *)
Inductive ErrorCode := InvalidParams | InternalError | MethodNotFound.

Record McpError := mkMcpError { code : ErrorCode; message : string }.

(** The list [popularNames] of the tool [get_popular_icons]. *)
Definition popularNames : list string :=
  [ "openai"; "github"; "figma"; "google"; "microsoft"; "aws";
    "azure"; "docker"; "react"; "nodejs"; "python"; "javascript";
    "typescript"; "vue"; "angular"; "mongodb"; "postgresql" ].

(** The tool [get_popular_icons]: [limit] defaults to 20. *)
Definition getPopularIconsTool (icons : list Icon) (limit : option Z) : list Icon :=
  Js.slice (iconObjects icons popularNames) 0 (default 20%Z limit).

(** The tool [search_icons]: the results and their count. *)
Definition searchIconsTool (icons : list Icon)
    (query category : option string) (limit : option Z) : list Icon * nat :=
  let results :=
    searchIcons icons (Some (default "" query)) (Some (default "all" category))
                (Some (default 50%Z limit)) in
  (results, length results).

(** The data of the tool [generate_linkedin_post]: the template, the
    icons found (name, display name, category) and the post. *)
Record PostData := mkPostData {
  p_template : string;
  p_selectedIcons : list (string * string * string);
  p_post : string
}.

(** The tool [generate_linkedin_post]; an argument that is not supplied
    is [None]. *)
Definition generatePostTool (icons : list Icon)
    (template : option string) (selected : option (list string)) : PostData + McpError :=
  let template := default "tools-spotlight" template in
  let selected := default [] selected in
  match selected with
  | [] => inr {| code := InvalidParams; message := "At least one icon must be selected" |}
  | _ =>
      inl {| p_template := template;
             p_selectedIcons :=
               map (fun icon => (name icon, displayName icon, category icon))
                   (iconObjects icons selected);
             p_post := generateLinkedInPost icons template selected |}
  end.

(** The data of the tool [get_icon]. *)
Record IconData := mkIconData {
  d_name : string;
  d_variation : string;
  d_displayName : string;
  d_category : string;
  d_availableVariations : list string;
  d_svgContent : string
}.

Section WithFilesTool.

Variable joinBase : string → string.
Variable readFile : string → string + string.

(** The tool [get_icon]. *)
Definition getIconTool (icons : list Icon)
    (iconName variation : option string) : IconData + McpError :=
  let variation' := default "default" variation in
  match iconName with
  | None => inr {| code := InvalidParams; message := "Icon name is required" |}
  | Some iconName =>
      if negb (Js.truthy iconName)
      then inr {| code := InvalidParams; message := "Icon name is required" |}
      else
        match getIconContent joinBase readFile icons iconName (Some variation') with
        | inr message => inr {| code := InternalError; message := message |}
        | inl content =>
            match findIcon icons iconName with
            | Some icon =>
                inl {| d_name := iconName;
                       d_variation := variation';
                       d_displayName := displayName icon;
                       d_category := category icon;
                       d_availableVariations := variations icon;
                       d_svgContent := content |}
            | None =>
                (* [icon.displayName] of [undefined] raises inside the [try] *)
                inr {| code := InternalError;
                       message := "Cannot read properties of undefined (reading 'displayName')" |}
            end
        end
  end.

End WithFilesTool.

End McpTools.

(** ** The loader: building the catalog *)

Module LoaderBuild.

Import IconsLoader.

(** [this.categories], in the order of [Object.entries]. *)
Definition categories : list (string * list string) :=
  [ ("ai", ["openai"; "claude"; "anthropic"; "gemini"; "chatglm"; "deepseek"; "cohere";
            "mistral"; "yi"; "baichuan"; "doubao"; "glm"; "qwen"]);
    ("cloud", ["aws"; "azure"; "google"; "googlecloud"; "microsoft"; "alibaba";
               "alibabacloud"; "baidu"; "baiducloud"; "tencent"; "huawei"]);
    ("database", ["mongodb"; "postgresql"; "mysql"; "redis"; "elasticsearch"; "cassandra";
                  "neo4j"; "sqlite"; "oracle"; "supabase"]);
    ("design", ["figma"; "adobe"; "sketch"; "canva"; "framer"; "principle"; "invision";
                "webflow"; "dribbble"; "behance"]);
    ("dev", ["github"; "gitlab"; "bitbucket"; "vscode"; "cursor"; "jetbrains"; "docker";
             "kubernetes"; "jenkins"; "circleci"; "travis"; "vercel"; "netlify"]);
    ("social", ["linkedin"; "twitter"; "facebook"; "instagram"; "youtube"; "tiktok";
                "discord"; "slack"; "telegram"; "whatsapp"]);
    ("analytics", ["google"; "adobe"; "mixpanel"; "amplitude"; "segment"; "hotjar";
                   "fullstory"; "logrocket"]);
    ("ecommerce", ["shopify"; "woocommerce"; "magento"; "stripe"; "paypal"; "square";
                   "klarna"]);
    ("productivity", ["notion"; "obsidian"; "todoist"; "trello"; "asana"; "monday";
                      "clickup"; "airtable"]);
    ("communication", ["zoom"; "teams"; "meet"; "webex"; "discord"; "slack"; "telegram";
                       "skype"]) ].

Definition iconPath : string := "lobe-icons/packages/static-svg/icons/".

(** The list [knownIcons] of [generateIconsList]. *)
Definition knownIcons : list string :=
  [
    "openai"; "claude"; "anthropic"; "gemini"; "chatglm"; "deepseek";
    "cohere"; "mistral"; "yi"; "baichuan"; "doubao"; "glm"; "qwen";
    "huggingface"; "replicate"; "runway"; "midjourney"; "dalle"; "stabilitai";
    "perplexity"; "character"; "aws"; "azure"; "google"; "googlecloud";
    "microsoft"; "alibaba"; "alibabacloud"; "baidu"; "baiducloud"; "tencent";
    "huawei"; "oracle"; "ibm"; "digitalocean"; "linode"; "vultr"; "hetzner";
    "cloudflare"; "mongodb"; "postgresql"; "mysql"; "redis"; "elasticsearch";
    "cassandra"; "neo4j"; "sqlite"; "oracle"; "supabase"; "planetscale";
    "cockroachdb"; "snowflake"; "databricks"; "clickhouse"; "figma"; "adobe";
    "sketch"; "canva"; "framer"; "principle"; "invision"; "webflow";
    "dribbble"; "behance"; "miro"; "whimsical"; "lucidchart"; "github";
    "gitlab"; "bitbucket"; "vscode"; "cursor"; "jetbrains"; "atom"; "sublime";
    "vim"; "docker"; "kubernetes"; "jenkins"; "circleci"; "travis"; "vercel";
    "netlify"; "heroku"; "railway"; "render"; "linkedin"; "twitter";
    "facebook"; "instagram"; "youtube"; "tiktok"; "discord"; "slack";
    "telegram"; "whatsapp"; "zoom"; "teams"; "meet"; "webex"; "skype";
    "react"; "vue"; "angular"; "svelte"; "nextjs"; "nuxt"; "gatsby"; "nodejs";
    "python"; "javascript"; "typescript"; "java"; "csharp"; "go"; "rust";
    "php"; "ruby"; "swift"; "kotlin"; "dart"; "flutter"; "analytics";
    "mixpanel"; "amplitude"; "segment"; "hotjar"; "fullstory"; "logrocket";
    "sentry"; "datadog"; "newrelic"; "shopify"; "woocommerce"; "magento";
    "stripe"; "paypal"; "square"; "klarna"; "razorpay"; "adyen"; "notion";
    "obsidian"; "todoist"; "trello"; "asana"; "monday"; "clickup"; "airtable";
    "sheets"; "excel"; "word"; "powerpoint"; "chrome"; "firefox"; "safari";
    "edge"; "opera"; "brave"; "windows"; "macos"; "linux"; "ubuntu"; "debian";
    "centos"; "redhat"; "unity"; "unreal"; "steam"; "epic"; "twitch";
    "spotify"; "netflix"; "nordvpn"; "expressvpn"; "1password"; "bitwarden";
    "lastpass"; "bitcoin"; "ethereum"; "binance"; "coinbase"; "metamask" ].

(** [name.match(/(a1|a2|...)/i)]: one of the alternatives, all in lower
    case, occurs in the name whatever its case. *)
Definition matchesOneOf (alternatives : list string) (name : string) : bool :=
  existsb (fun a => Js.includes (Js.toLowerCase name) a) alternatives.

(** The patterns tried by [getCategoryForIcon] after the keywords, in
    order, with the category of each. *)
Definition categoryPatterns : list (list string * string) :=
  [ (["ai"; "gpt"; "llm"; "neural"; "deep"; "machine"], "ai");
    (["cloud"; "server"; "hosting"; "deploy"], "cloud");
    (["db"; "data"; "sql"; "nosql"; "base"], "database");
    (["design"; "ui"; "ux"; "proto"; "wireframe"], "design");
    (["code"; "dev"; "git"; "ide"; "editor"], "dev");
    (["social"; "chat"; "message"; "communicate"], "social");
    (["analytics"; "track"; "measure"; "metrics"], "analytics");
    (["shop"; "commerce"; "pay"; "store"], "ecommerce");
    (["task"; "todo"; "project"; "organize"], "productivity") ].

Fixpoint firstPattern (patterns : list (list string * string)) (name : string) : string :=
  match patterns with
  | [] => "other"
  | (alternatives, category) :: rest =>
      if matchesOneOf alternatives name then category else firstPattern rest name
  end.

Fixpoint firstKeywordCategory (entries : list (string * list string)) (name : string)
  : option string :=
  match entries with
  | [] => None
  | (category, keywords) :: rest =>
      if existsb (fun keyword =>
                    Js.includes (Js.toLowerCase name) (Js.toLowerCase keyword)) keywords
      then Some category
      else firstKeywordCategory rest name
  end.

(** [getCategoryForIcon] *)
Definition getCategoryForIcon (name : string) : string :=
  match firstKeywordCategory categories name with
  | Some category => category
  | None => firstPattern categoryPatterns name
  end.

(** [getIconVariations] *)
Definition getIconVariations (name : string) : list string :=
  if Js.arr_includes
       ["openai"; "google"; "microsoft"; "aws"; "azure"; "github"; "figma"] name
  then ["default"; "color"; "text"]
  else ["default"].

Definition specialNames : gmap string string :=
  list_to_map
    [ ("openai", "OpenAI"); ("chatgpt", "ChatGPT"); ("github", "GitHub");
      ("gitlab", "GitLab"); ("vscode", "VS Code"); ("nodejs", "Node.js");
      ("nextjs", "Next.js"); ("typescript", "TypeScript");
      ("javascript", "JavaScript"); ("csharp", "C#"); ("cplusplus", "C++");
      ("postgresql", "PostgreSQL"); ("mongodb", "MongoDB"); ("mysql", "MySQL");
      ("redis", "Redis"); ("aws", "AWS"); ("gcp", "Google Cloud");
      ("azure", "Microsoft Azure") ].

(** [s.replace(/^./, str => str.toUpperCase())]: the dot is any
    character but a line terminator. *)
Definition upperFirst (s : string) : string :=
  match s with
  | "" => ""
  | String c s' =>
      let n := nat_of_ascii c in
      if (n =? 10)%nat || (n =? 13)%nat then s
      else Js.toUpperCase (String c "") +:+ s'
  end.

(** [formatDisplayName] *)
Definition formatDisplayName (name : string) : string :=
  McpServer.lookup_or specialNames (Js.toLowerCase name)
    (Js.trim (upperFirst (Js.space_before_capitals name))).

Definition tagMap : gmap string (list string) :=
  list_to_map
    [ ("openai", ["chatgpt"; "gpt"; "artificial intelligence"; "ai"]);
      ("github", ["git"; "version control"; "repository"; "code"]);
      ("figma", ["design"; "ui"; "ux"; "prototyping"]);
      ("aws", ["amazon"; "cloud"; "ec2"; "s3"]);
      ("azure", ["microsoft"; "cloud"; "windows"]);
      ("google", ["search"; "gmail"; "drive"; "chrome"]);
      ("docker", ["container"; "virtualization"; "devops"]);
      ("kubernetes", ["k8s"; "orchestration"; "container"]);
      ("react", ["facebook"; "frontend"; "javascript"; "jsx"]);
      ("vue", ["vuejs"; "frontend"; "javascript"]);
      ("angular", ["typescript"; "frontend"; "spa"]) ].

(** [[...new Set(l)]]: each value once, where it first stands. *)
Fixpoint setOf (seen l : list string) : list string :=
  match l with
  | [] => []
  | x :: l' =>
      if Js.arr_includes seen x then setOf seen l'
      else x :: setOf (seen ++ [x]) l'
  end.

(** [generateTags] *)
Definition generateTags (name category : string) : list string :=
  let baseTags := [name; category] in
  let additionalTags := default [] (tagMap !! name) in
  setOf [] (baseTags ++ additionalTags).

(** [generateSearchableText] *)
Definition generateSearchableText (name category : string) : string :=
  let tags := generateTags name category in
  let displayName := formatDisplayName name in
  Js.toLowerCase (Js.join " " ([name; displayName; category] ++ tags)).

(** The file of a variation, as the [reduce] of [createIconObject]
    writes it. *)
Definition variationPath (name variation : string) : string :=
  iconPath +:+ name +:+
  (if String.eqb variation "default" then "" else "-" +:+ variation) +:+ ".svg".

(** [createIconObject] *)
Definition createIconObject (name : string) : Icon :=
  let category := getCategoryForIcon name in
  let variations := getIconVariations name in
  {| IconsLoader.name := name;
     displayName := formatDisplayName name;
     IconsLoader.category := category;
     tags := generateTags name category;
     IconsLoader.variations := variations;
     path := iconPath +:+ name +:+ ".svg";
     paths := fold_left (fun acc variation =>
                           <[ variation := variationPath name variation ]> acc)
                        variations ∅;
     searchable := generateSearchableText name category |}.

(** [self.findIndex(i => i.name === wanted)] *)
Fixpoint findIndex (wanted : string) (l : list Icon) : option nat :=
  match l with
  | [] => None
  | icon :: l' =>
      if String.eqb (IconsLoader.name icon) wanted then Some 0
      else S <$> findIndex wanted l'
  end.

(** [icons.filter((icon, index, self) =>
       index === self.findIndex(i => i.name === icon.name))] *)
Fixpoint keepFirstFrom (self : list Icon) (index : nat) (l : list Icon) : list Icon :=
  match l with
  | [] => []
  | icon :: l' =>
      if bool_decide (findIndex (IconsLoader.name icon) self = Some index)
      then icon :: keepFirstFrom self (S index) l'
      else keepFirstFrom self (S index) l'
  end.

Definition removeDuplicates (icons : list Icon) : list Icon :=
  keepFirstFrom icons 0 icons.

(** [generateIconsList]: the value of [this.icons] when it returns. *)
Definition generateIconsList : list Icon :=
  removeDuplicates (map createIconObject knownIcons).

(** [loadFallbackIcons] *)
Definition loadFallbackIcons : list Icon :=
  map createIconObject
      [ "openai"; "claude"; "github"; "figma"; "google"; "microsoft";
        "aws"; "azure"; "docker"; "kubernetes"; "react"; "vue";
        "angular"; "nodejs"; "python"; "javascript"; "typescript" ].

Definition popularNames : list string :=
  [ "openai"; "github"; "figma"; "google"; "microsoft"; "aws";
    "azure"; "docker"; "react"; "nodejs"; "python"; "javascript";
    "typescript"; "vue"; "angular"; "mongodb"; "postgresql"; "redis";
    "kubernetes"; "vscode" ].

(** [getPopularIcons(limit = 20)] *)
Definition getPopularIcons (icons : list Icon) (limit : option Z) : list Icon :=
  Js.slice (getIconsByNames icons popularNames) 0 (default 20%Z limit).

Definition trendingNames : list string :=
  [ "claude"; "cursor"; "perplexity"; "midjourney"; "runway";
    "vercel"; "supabase"; "planetscale"; "railway"; "render" ].

(** [getTrendingIcons(limit = 10)] *)
Definition getTrendingIcons (icons : list Icon) (limit : option Z) : list Icon :=
  Js.slice (getIconsByNames icons trendingNames) 0 (default 10%Z limit).

(** [getCategories] *)
Definition getCategories : list string := map fst categories.

Record Stats := mkStats {
  s_total : nat;
  s_categories : list (string * nat);
  s_popular : nat;
  s_trending : nat
}.

(** [getStats] *)
Definition getStats (icons : list Icon) : Stats :=
  {| s_total := length icons;
     s_categories :=
       map (fun category => (category, length (filterByCategory icons (Some category))))
           getCategories;
     s_popular := length (getPopularIcons icons None);
     s_trending := length (getTrendingIcons icons None) |}.

(** [iconExists] *)
Definition iconExists (icons : list Icon) (wanted : string) : bool :=
  existsb (fun icon => String.eqb (IconsLoader.name icon) wanted) icons.

(** [getIcon] *)
Definition getIcon (icons : list Icon) (wanted : string) : option Icon :=
  List.find (fun icon => String.eqb (IconsLoader.name icon) wanted) icons.

(** What [fetch('./icons-manifest.json')] and [response.json()] give
    to [initialize]. *)
Inductive Fetched :=
| FetchFailed
| NotOk
| OkManifest (icons : list Scanner.Entry)
| OkNotJson.

(** An element of [this.icons]: an object of [createIconObject], or an
    entry of the manifest, as the scanner wrote it. *)
Inductive Loaded :=
| Created (icon : Icon)
| FromManifest (entry : Scanner.Entry).

(** [initialize]: the value of [this.icons] when it returns.  The icons
    of the manifest when there is one; those of [generateIconsList]
    when the file cannot be fetched; the fallback icons when it cannot
    be parsed. *)
Definition initialize (response : Fetched) : list Loaded :=
  match response with
  | OkManifest icons => map FromManifest icons
  | OkNotJson => map Created loadFallbackIcons
  | FetchFailed | NotOk => map Created generateIconsList
  end.

Definition loadedName (icon : Loaded) : string :=
  match icon with
  | Created icon => IconsLoader.name icon
  | FromManifest entry => Scanner.name entry
  end.

Definition loadedDisplayName (icon : Loaded) : string :=
  match icon with
  | Created icon => displayName icon
  | FromManifest entry => Scanner.displayName entry
  end.

(** [icon.searchable]: [undefined] for an entry of the manifest. *)
Definition loadedSearchable (icon : Loaded) : option string :=
  match icon with
  | Created icon => Some (searchable icon)
  | FromManifest _ => None
  end.

(** The callback of the [filter] of [search]; [None] when it raises:
    [icon.searchable.includes] is a [TypeError] where there is no
    [searchable]. *)
Definition searchHitLoaded (searchTerm : string) (icon : Loaded) : option bool :=
  match loadedSearchable icon with
  | None => None
  | Some text =>
      Some (Js.includes text searchTerm ||
            fuzzyMatch (loadedName icon) searchTerm ||
            fuzzyMatch (loadedDisplayName icon) searchTerm)
  end.

(** [Array.prototype.filter] with a callback that may raise. *)
Fixpoint filterRaising {A} (test : A → option bool) (l : list A) : option (list A) :=
  match l with
  | [] => Some []
  | x :: l' =>
      match test x with
      | None => None
      | Some keep =>
          match filterRaising test l' with
          | None => None
          | Some rest => Some (if keep then x :: rest else rest)
          end
      end
  end.

(** [search] over the catalog that [initialize] left; [None] when it
    raises. *)
Definition searchLoaded (icons : list Loaded) (query : option string)
  : option (list Loaded) :=
  if blankQuery query then Some icons
  else filterRaising
         (searchHitLoaded (Js.trim (Js.toLowerCase (default "" query)))) icons.

End LoaderBuild.

(** ** Vocabulary of the further properties *)

Module SpecMore.

(** The sum of the counts of a table. *)
Definition sumValues (m : gmap string nat) : nat :=
  sum_list (snd <$> map_to_list m).

(** The icons of one page of the HTTP handler. *)
Definition pageIcons (manifest : ScannerApi.Manifest)
    (category search : option string) (page limit : Z) : list Scanner.Entry :=
  match ScannerApi.handleIconsAPI (Some manifest) category search
                                  (Some page) (Some limit) with
  | ScannerApi.Ok200 r => ScannerApi.r_icons r
  | ScannerApi.Error500 _ => []
  end.

(** A word of lower-case letters and digits. *)
Definition is_digit (c : ascii) : bool :=
  let n := nat_of_ascii c in (48 <=? n)%nat && (n <=? 57)%nat.

Definition plainChar (c : ascii) : bool := Js.is_lower c || is_digit c.

Fixpoint plainWord (s : string) : bool :=
  match s with
  | "" => true
  | String c s' => plainChar c && plainWord s'
  end.

(** ** The catalog of the MCP server *)

(** The value stored under a key of the [Map] [uniqueIcons]. *)
Definition mcpAssoc (key : string) (m : list (string * McpServer.Icon))
  : option McpServer.Icon :=
  snd <$> List.find (fun kv => String.eqb kv.1 key) m.

(** The entry that [loadIcons] stores for a file. *)
Definition mcpEntryOf (joinBase : string → string) (svgFiles : list string)
    (file : string) : McpServer.Icon :=
  {| McpServer.name := McpServer.stripSuffix (Fs.parse_name file);
     McpServer.category := McpServer.categorizeIcon (Fs.parse_name file);
     McpServer.filename := file;
     McpServer.path := joinBase file;
     McpServer.displayName := McpServer.formatDisplayName (Fs.parse_name file);
     McpServer.variations :=
       McpServer.getVariations (McpServer.stripSuffix (Fs.parse_name file)) svgFiles |}.

(** The invariant of the loop that removes duplicates: the keys are
    distinct, every value is the entry of a file seen whose base name is
    its key, a file whose stem is that very base name when one was
    seen, and every file seen has its base name among the keys. *)
Definition deduped (joinBase : string → string) (svgFiles : list string)
    (m : list (string * McpServer.Icon)) (seen : list string) : Prop :=
  NoDup (map fst m)
  ∧ (∀ k v, (k, v) ∈ m →
       ∃ f, f ∈ seen ∧ v = mcpEntryOf joinBase svgFiles f
            ∧ McpServer.stripSuffix (Fs.parse_name f) = k
            ∧ ((∃ g, g ∈ seen ∧ Fs.parse_name g = k ∧ McpServer.stripSuffix k = k) →
               Fs.parse_name f = k))
  ∧ (∀ f, f ∈ seen → McpServer.stripSuffix (Fs.parse_name f) ∈ map fst m).

(** What [getIconContent] makes of what [readFile] gave. *)
Definition readResult (r : string + string) : string + string :=
  match r with
  | inl content => inl content
  | inr message => inr ("Failed to read icon file: " +:+ message)
  end.

(** ** The loader *)

(** The characters of a string, in order. *)
Definition chars (s : string) : list ascii := String.list_ascii_of_string s.

(** [p] is a subsequence of [t]: the characters of [p] stand in [t], in
    the same order, not necessarily side by side. *)
Definition subsequence (p t : string) : Prop := sublist (chars p) (chars t).

(** Every icon of the catalog is found by the search for its name, its
    display name, its category and each of its tags. *)
Definition foundByItsWords (catalog : list IconsLoader.Icon) : Prop :=
  Forall (fun icon =>
            ∀ q, q ∈ IconsLoader.name icon :: IconsLoader.displayName icon
                     :: IconsLoader.category icon :: IconsLoader.tags icon →
                 icon ∈ IconsLoader.search catalog (Some q))
         catalog.

(** The counts of the statistics and the icons of category ["other"]
    add up to the total. *)
Definition countedOnce (catalog : list IconsLoader.Icon) : Prop :=
  let stats := LoaderBuild.getStats catalog in
  sum_list (map snd (LoaderBuild.s_categories stats))
  + length (List.filter (fun icon => String.eqb (IconsLoader.category icon) "other") catalog)
  = LoaderBuild.s_total stats.

End SpecMore.

(** * Properties *)

(** ** Strings *)

Module StringFacts.

Import Spec.

Lemma str_app_nil_l (s : string) : "" +:+ s = s.
Proof. reflexivity. Qed.

Lemma str_app_cons (c : ascii) (s t : string) : String c s +:+ t = String c (s +:+ t).
Proof. reflexivity. Qed.

Lemma str_app_nil_r (s : string) : s +:+ "" = s.
Proof. induction s as [|c s IH]; [reflexivity|]. by rewrite str_app_cons, IH. Qed.

Lemma str_app_assoc (s t u : string) : (s +:+ t) +:+ u = s +:+ (t +:+ u).
Proof. induction s as [|c s IH]; [reflexivity|]. by rewrite !str_app_cons, IH. Qed.

Lemma ascii_eqb_true (a b : ascii) : Ascii.eqb a b = true ↔ a = b.
Proof. apply Ascii.eqb_eq. Qed.

Lemma string_eqb_true (s t : string) : String.eqb s t = true ↔ s = t.
Proof. apply String.eqb_eq. Qed.

Lemma startsWith_spec (s p : string) :
  Js.startsWith s p = true ↔ ∃ rest, s = p +:+ rest.
Proof.
  revert s. induction p as [|a p IH]; intros s; simpl.
  - split; [intros _; exists s; reflexivity | done].
  - destruct s as [|b s].
    + split; [done | intros [rest H]; discriminate H].
    + rewrite andb_true_iff, ascii_eqb_true, IH. split.
      * intros [-> [rest ->]]. by exists rest.
      * intros [rest H]. rewrite str_app_cons in H. injection H as -> ->. eauto.
Qed.

Lemma includes_spec (s k : string) :
  Js.includes s k = true ↔ substring k s.
Proof.
  induction s as [|c s IH]; cbn [Js.includes]; rewrite orb_true_iff, startsWith_spec.
  - split.
    + intros [[rest H] | H]; [|done]. exists "", rest. by rewrite str_app_nil_l.
    + intros [before [after H]]. left.
      destruct before; [|discriminate H]. eauto.
  - rewrite IH. split.
    + intros [[rest H] | [before [after H]]].
      * exists "", rest. by rewrite str_app_nil_l.
      * exists (String c before), after. by rewrite str_app_cons, H.
    + intros [before [after H]]. destruct before as [|b before].
      * left. eauto.
      * right. rewrite str_app_cons in H. injection H as _ ->. by exists before, after.
Qed.

Lemma includes_false (s k : string) :
  Js.includes s k = false ↔ ¬ substring k s.
Proof. rewrite <- includes_spec. by destruct (Js.includes s k). Qed.

Lemma endsWith_spec (s p : string) :
  Js.endsWith s p = true ↔ suffix_of p s.
Proof.
  induction s as [|c s IH]; cbn [Js.endsWith]; rewrite orb_true_iff, string_eqb_true.
  - split.
    + intros [<- | H]; [by exists "" | done].
    + intros [before H]. left. destruct before; [done | discriminate H].
  - rewrite IH. split.
    + intros [<- | [before ->]]; [by exists "" | by exists (String c before)].
    + intros [before H]. destruct before as [|b before].
      * by left.
      * right. rewrite str_app_cons in H. injection H as _ ->. by exists before.
Qed.

Lemma endsWith_false (s p : string) :
  Js.endsWith s p = false ↔ ¬ suffix_of p s.
Proof. rewrite <- endsWith_spec. by destruct (Js.endsWith s p). Qed.

Lemma last_char_app (s p : string) :
  p ≠ "" → last_char (s +:+ p) = last_char p.
Proof.
  intros Hp. induction s as [|c s IH]; [done|].
  rewrite str_app_cons. simpl. rewrite IH.
  destruct p as [|d p]; [done|]. simpl. by destruct (last_char p).
Qed.

Lemma suffix_last_char (p s : string) :
  p ≠ "" → suffix_of p s → last_char s = last_char p.
Proof. intros Hp [before ->]. by apply last_char_app. Qed.

(** Lower case is idempotent. *)
Lemma lower_char_idemp (c : ascii) : Js.lower_char (Js.lower_char c) = Js.lower_char c.
Proof.
  destruct c as [[] [] [] [] [] [] [] []]; reflexivity.
Qed.

Lemma toLowerCase_idemp (s : string) :
  Js.toLowerCase (Js.toLowerCase s) = Js.toLowerCase s.
Proof. induction s as [|c s IH]; simpl; [done|]. by rewrite lower_char_idemp, IH. Qed.

(** The match of [/-(?:a1|...)$/]. *)
Lemma match_dash_alt_end_eq (alts : list string) (s : string) :
  Js.match_dash_alt_end alts s =
  if existsb (fun a => String.eqb s ("-" +:+ a)) alts then Some ""
  else match s with
       | "" => None
       | String c s' => String c <$> Js.match_dash_alt_end alts s'
       end.
Proof. by destruct s. Qed.

Lemma existsb_dash_alt (alts : list string) (s : string) :
  existsb (fun a => String.eqb s ("-" +:+ a)) alts = true ↔
  ∃ a, a ∈ alts ∧ s = "-" +:+ a.
Proof.
  rewrite existsb_exists. split.
  - intros [a [Ha E]]. exists a. by rewrite list_elem_of_In, <- string_eqb_true.
  - intros [a [Ha E]]. exists a. by rewrite <- list_elem_of_In, string_eqb_true.
Qed.

Lemma match_dash_alt_end_sound (alts : list string) (s before : string) :
  Js.match_dash_alt_end alts s = Some before →
  ∃ a, a ∈ alts ∧ s = before +:+ "-" +:+ a.
Proof.
  revert before. induction s as [|c s IH]; intros before;
    rewrite match_dash_alt_end_eq;
    destruct (existsb _ alts) eqn:E.
  - intros [= <-]. by apply existsb_dash_alt in E.
  - done.
  - intros [= <-]. by apply existsb_dash_alt in E.
  - destruct (Js.match_dash_alt_end alts s) as [b|] eqn:M; [|done].
    intros [= <-]. destruct (IH b eq_refl) as [a [Ha ->]].
    exists a. split; [done | by rewrite str_app_cons].
Qed.

Lemma match_dash_alt_end_none (alts : list string) (s : string) :
  (∀ a before, a ∈ alts → s ≠ before +:+ "-" +:+ a) →
  Js.match_dash_alt_end alts s = None.
Proof.
  intros H. destruct (Js.match_dash_alt_end alts s) as [b|] eqn:M; [|done].
  apply match_dash_alt_end_sound in M as [a [Ha E]]. by destruct (H a b Ha).
Qed.

(** Without a dash inside the alternatives, the match is where the
    suffix starts. *)
Lemma match_dash_alt_end_complete (alts : list string) (base a : string) :
  a ∈ alts →
  (∀ a', a' ∈ alts → Js.includes a' "-" = false) →
  Js.match_dash_alt_end alts (base +:+ "-" +:+ a) = Some base.
Proof.
  intros Ha Hdash. induction base as [|c base IH];
    rewrite match_dash_alt_end_eq.
  - rewrite str_app_nil_l.
    replace (existsb _ alts) with true; [done|].
    symmetry. apply existsb_dash_alt. eauto.
  - rewrite str_app_cons, IH.
    destruct (existsb _ alts) eqn:E; [|done]. exfalso.
    apply existsb_dash_alt in E as [a' [Ha' E]].
    assert (Js.includes a' "-" = true) as Hin; [|by rewrite (Hdash a' Ha') in Hin].
    apply includes_spec.
    change ("-" +:+ a') with (String "-" a') in E. injection E as _ E.
    exists base, a. by rewrite <- E.
Qed.

End StringFacts.

(** ** Paths *)

Module FsFacts.

Import Spec StringFacts.

Lemma last_dot_app_svg (s : string) :
  Fs.last_dot (s +:+ ".svg") = Some (String.length s).
Proof.
  induction s as [|c s IH]; [reflexivity|].
  rewrite str_app_cons. cbn [Fs.last_dot String.length]. by rewrite IH.
Qed.

Lemma take_str_app (s t : string) : Fs.take_str (String.length s) (s +:+ t) = s.
Proof.
  induction s as [|c s IH]; [by destruct t|].
  rewrite str_app_cons. cbn [Fs.take_str String.length]. by rewrite IH.
Qed.

(** The stem of [s.svg] is [s], unless [s] is empty. *)
Lemma parse_name_svg (s : string) :
  s ≠ "" → Fs.parse_name (s +:+ ".svg") = s.
Proof.
  intros Hs. unfold Fs.parse_name. rewrite last_dot_app_svg.
  destruct s as [|c s]; [done|]. cbn [String.length].
  replace (String.eqb (String c s +:+ ".svg") "..") with false.
  - apply (take_str_app (String c s)).
  - symmetry. apply String.eqb_neq. intros H.
    apply (f_equal String.length) in H. rewrite str_app_cons in H.
    cbn [String.length] in H. destruct s as [|d s]; [discriminate H|].
    rewrite str_app_cons in H. cbn [String.length] in H.
    destruct s as [|e s]; discriminate H.
Qed.

End FsFacts.

(** ** Categorisation by keyword *)

Module CategorizeFacts.

Import Spec StringFacts Scanner.

(** The keyword table is written in lower case. *)
Lemma keywords_lower :
  Forall (fun entry => Forall (fun k => Js.toLowerCase k = k) entry.2) categoryKeywords.
Proof.
  assert (forallb (fun entry : string * list string =>
            forallb (fun k => String.eqb (Js.toLowerCase k) k) entry.2)
            categoryKeywords = true) as H by (by vm_compute).
  rewrite forallb_forall in H.
  apply List.Forall_forall. intros entry He. apply List.Forall_forall. intros k Hk.
  specialize (H entry He). rewrite forallb_forall in H.
  by apply string_eqb_true, H.
Qed.

Lemma keywordHit_spec (lb k : string) :
  Js.toLowerCase k = k →
  keywordHit lb k = true ↔ substring k lb ∨ substring lb k.
Proof.
  intros Hk. unfold keywordHit. by rewrite Hk, orb_true_iff, !includes_spec.
Qed.

Lemma some_keywordHit (lb : string) (keywords : list string) :
  Forall (fun k => Js.toLowerCase k = k) keywords →
  existsb (keywordHit lb) keywords = true ↔ matchesSome lb keywords.
Proof.
  intros Hlow. rewrite Forall_forall in Hlow. rewrite existsb_exists. split.
  - intros [k [Hin Hk]]. apply list_elem_of_In in Hin. exists k. split; [done|].
    by apply keywordHit_spec; [apply Hlow|].
  - intros [k [Hin Hk]]. exists k. split; [by apply list_elem_of_In|].
    by apply keywordHit_spec; [apply Hlow|].
Qed.

Lemma firstCategory_hit (entries : list (string * list string)) (lb : string)
    (i : nat) (c : string) (kws : list string) :
  entries !! i = Some (c, kws) →
  existsb (keywordHit lb) kws = true →
  (∀ j c' kws', j < i → entries !! j = Some (c', kws') →
                existsb (keywordHit lb) kws' = false) →
  firstCategory entries lb = c.
Proof.
  revert i. induction entries as [|[c0 kws0] entries IH]; intros i Hi Hhit Hbefore.
  - done.
  - destruct i as [|i]; simpl in Hi |- *.
    + injection Hi as -> ->. by rewrite Hhit.
    + rewrite (Hbefore 0 c0 kws0); [|lia|done].
      apply (IH i); [done..|].
      intros j c' kws' Hj Hl. apply (Hbefore (S j) c' kws'); [lia | done].
Qed.

Lemma firstCategory_miss (entries : list (string * list string)) (lb : string) :
  (∀ c kws, (c, kws) ∈ entries → existsb (keywordHit lb) kws = false) →
  firstCategory entries lb = "other".
Proof.
  induction entries as [|[c0 kws0] entries IH]; intros Hmiss; [done|].
  simpl. rewrite (Hmiss c0 kws0); [|by left].
  apply IH. intros c kws Hin. apply (Hmiss c kws). by right.
Qed.

Lemma table_entry_lower (i : nat) (c : string) (kws : list string) :
  categoryKeywords !! i = Some (c, kws) → Forall (fun k => Js.toLowerCase k = k) kws.
Proof.
  intros Hi. pose proof keywords_lower as H. rewrite Forall_lookup in H.
  apply (H i (c, kws) Hi).
Qed.

(** C1. [categorizeIcon] lowers its argument and answers the first
    category of the table, in the order of declaration, one of whose
    keywords occurs in the lowered name or contains it; when no keyword
    of any category does, it answers ["other"].  The case of the name
    does not matter.  So ["openai"] is in ["ai"] and ["unknownxyz123"]
    in ["other"]. *)
Theorem categorize_first_match (b : string) :
  let lb := Js.toLowerCase b in
  (∀ i c kws,
      categoryKeywords !! i = Some (c, kws) →
      matchesSome lb kws →
      (∀ j c' kws', j < i → categoryKeywords !! j = Some (c', kws') →
                    ¬ matchesSome lb kws') →
      categorizeIcon b = c)
  ∧ ((∀ c kws, (c, kws) ∈ categoryKeywords → ¬ matchesSome lb kws) →
     categorizeIcon b = "other")
  ∧ categorizeIcon lb = categorizeIcon b
  ∧ categorizeIcon "openai" = "ai"
  ∧ categorizeIcon "unknownxyz123" = "other".
Proof.
  intros lb. split; [|split; [|split; [|split; by vm_compute]]]; cycle 2.
  { unfold categorizeIcon, lb. by rewrite toLowerCase_idemp. }
  - intros i c kws Hi Hhit Hbefore. unfold categorizeIcon.
    apply (firstCategory_hit _ _ i c kws); [done| |].
    + apply some_keywordHit; [by apply (table_entry_lower i c)|done].
    + intros j c' kws' Hj Hl.
      destruct (existsb (keywordHit (Js.toLowerCase b)) kws') eqn:E; [|done].
      exfalso. apply (Hbefore j c' kws' Hj Hl).
      apply some_keywordHit; [by apply (table_entry_lower j c')|done].
  - intros Hmiss. unfold categorizeIcon. apply firstCategory_miss.
    intros c kws Hin.
    destruct (existsb (keywordHit (Js.toLowerCase b)) kws) eqn:E; [|done].
    exfalso. apply (Hmiss c kws Hin).
    apply list_elem_of_lookup in Hin as [i Hi].
    apply some_keywordHit; [by apply (table_entry_lower i c)|done].
Qed.

End CategorizeFacts.

(** ** Base name and variation of a file *)

Module IdentityFacts.

Import Spec StringFacts Scanner.

Lemma no_dash_in_alternatives (a : string) :
  a ∈ suffixAlternatives → Js.includes a "-" = false.
Proof.
  unfold suffixAlternatives. rewrite !elem_of_cons, elem_of_nil.
  intros [->|[->|[->|[->|[]]]]]; reflexivity.
Qed.

Lemma getBaseName_suffix (base suffix : string) :
  suffix ∈ suffixAlternatives →
  getBaseName (base +:+ "-" +:+ suffix) = base.
Proof.
  intros Hs. unfold getBaseName, Js.replace_dash_alt_end.
  rewrite match_dash_alt_end_complete; [done..|]. apply no_dash_in_alternatives.
Qed.

Lemma getBaseName_plain (stem : string) :
  (∀ suffix base, suffix ∈ suffixAlternatives → stem ≠ base +:+ "-" +:+ suffix) →
  getBaseName stem = stem.
Proof.
  intros H. unfold getBaseName, Js.replace_dash_alt_end.
  rewrite match_dash_alt_end_none; [done|]. intros a before Ha. by apply H.
Qed.

Lemma endsWith_app (base p : string) : Js.endsWith (base +:+ p) p = true.
Proof. apply endsWith_spec. by exists base. Qed.

Lemma endsWith_other (base p q : string) :
  p ≠ "" → q ≠ "" → last_char p ≠ last_char q →
  Js.endsWith (base +:+ p) q = false.
Proof.
  intros Hp Hq Hne. apply endsWith_false. intros Hsuf.
  apply suffix_last_char in Hsuf; [|done].
  rewrite last_char_app in Hsuf; done.
Qed.

Lemma getVariation_suffix (base suffix : string) :
  suffix ∈ suffixAlternatives →
  getVariation (base +:+ "-" +:+ suffix) = suffix.
Proof.
  unfold suffixAlternatives. rewrite !elem_of_cons, elem_of_nil.
  unfold getVariation.
  intros [->|[->|[->|[->|[]]]]].
  - change ("-" +:+ "color") with "-color".
    by rewrite (endsWith_app base "-color").
  - change ("-" +:+ "text") with "-text".
    rewrite (endsWith_other base "-text" "-color"); [|done..].
    by rewrite (endsWith_app base "-text").
  - change ("-" +:+ "brand") with "-brand".
    rewrite (endsWith_other base "-brand" "-color"); [|done..].
    rewrite (endsWith_other base "-brand" "-text"); [|done..].
    by rewrite (endsWith_app base "-brand").
  - change ("-" +:+ "mono") with "-mono".
    rewrite (endsWith_other base "-mono" "-color"); [|done..].
    rewrite (endsWith_other base "-mono" "-text"); [|done..].
    rewrite (endsWith_other base "-mono" "-brand"); [|done..].
    by rewrite (endsWith_app base "-mono").
Qed.

Lemma getVariation_plain (stem : string) :
  (∀ suffix base, suffix ∈ suffixAlternatives → stem ≠ base +:+ "-" +:+ suffix) →
  getVariation stem = "default".
Proof.
  intros H. unfold getVariation.
  assert (∀ suffix, suffix ∈ suffixAlternatives →
                    Js.endsWith stem ("-" +:+ suffix) = false) as Hno.
  { intros suffix Hs. apply endsWith_false. intros [before E].
    by apply (H suffix before Hs). }
  pose proof (Hno "color") as H1. pose proof (Hno "text") as H2.
  pose proof (Hno "brand") as H3. pose proof (Hno "mono") as H4.
  change ("-" +:+ "color") with "-color" in H1.
  change ("-" +:+ "text") with "-text" in H2.
  change ("-" +:+ "brand") with "-brand" in H3.
  change ("-" +:+ "mono") with "-mono" in H4.
  rewrite H1, H2, H3, H4; [done | unfold suffixAlternatives; set_solver..].
Qed.

(** C2. For a file whose stem ends in [-color], [-text], [-brand] or
    [-mono], the variation is that suffix and the base name is the stem
    without it; for every other file the variation is [default] and the
    base name is the stem.  The suffix is matched at the end of the
    stem only: [adobe-brandx] has variation [default].  The stem of
    [s.svg] is [s]. *)
Theorem parseIdentity_suffix (file : string) :
  let stem := Fs.parse_name file in
  let icon := makeIcon file in
  (∀ suffix base,
      suffix ∈ suffixAlternatives → stem = base +:+ "-" +:+ suffix →
      icon_variation icon = suffix ∧ icon_name icon = base)
  ∧ ((∀ suffix base,
         suffix ∈ suffixAlternatives → stem ≠ base +:+ "-" +:+ suffix) →
     icon_variation icon = "default" ∧ icon_name icon = stem)
  ∧ (∀ s, s ≠ "" → Fs.parse_name (s +:+ ".svg") = s)
  ∧ (icon_variation (makeIcon "adobe-brandx.svg") = "default"
     ∧ icon_name (makeIcon "adobe-brandx.svg") = "adobe-brandx").
Proof.
  intros stem icon. unfold icon, makeIcon. cbn [icon_variation icon_name].
  fold stem. split; [|split; [|split]].
  - intros suffix base Hs ->.
    by rewrite getVariation_suffix, getBaseName_suffix.
  - intros H. by rewrite getVariation_plain, getBaseName_plain.
  - apply FsFacts.parse_name_svg.
  - by vm_compute.
Qed.

End IdentityFacts.

(** ** Grouping the files by base name *)

Module GroupFacts.

Import Spec StringFacts Scanner.

Lemma folded_snoc (l : list Icon) (icon : Icon) :
  folded (l ++ [icon]) =
  Some (match folded l with
        | Some e => addVariation icon e
        | None => firstEntry icon
        end).
Proof.
  destruct l as [|first more]; [done|].
  simpl. by rewrite fold_left_app.
Qed.

Lemma members_snoc (key : string) (seen : list Icon) (icon : Icon) :
  members key (seen ++ [icon]) =
  members key seen ++ (if String.eqb (icon_name icon) key then [icon] else []).
Proof. unfold members. rewrite List.filter_app. simpl. by destruct (String.eqb _ _). Qed.

Lemma assoc_app (key : string) (m1 m2 : list (string * Entry)) :
  assoc key (m1 ++ m2) =
  match assoc key m1 with Some e => Some e | None => assoc key m2 end.
Proof.
  unfold assoc. induction m1 as [|[k v] m1 IH]; [done|].
  simpl. by destruct (String.eqb k key).
Qed.

Lemma map_has_assoc (m : list (string * Entry)) (key : string) :
  map_has m key = bool_decide (is_Some (assoc key m)).
Proof.
  unfold map_has, assoc. induction m as [|[k v] m IH]; [done|].
  simpl. destruct (String.eqb k key); [done|]. by rewrite IH.
Qed.

Lemma assoc_modify (f : Entry → Entry) (key key' : string) (m : list (string * Entry)) :
  assoc key' (map_modify f key m) =
  if String.eqb key key' then f <$> assoc key' m else assoc key' m.
Proof.
  unfold assoc. induction m as [|[k v] m IH]; simpl.
  - by destruct (String.eqb key key').
  - destruct (String.eqb k key) eqn:E1; simpl.
    + apply string_eqb_true in E1 as ->.
      by destruct (String.eqb key key').
    + destruct (String.eqb k key') eqn:E2; simpl.
      * apply string_eqb_true in E2 as ->.
        rewrite String.eqb_sym, E1. done.
      * apply IH.
Qed.

Lemma keys_modify (f : Entry → Entry) (key : string) (m : list (string * Entry)) :
  map fst (map_modify f key m) = map fst m.
Proof.
  induction m as [|[k v] m IH]; [done|].
  simpl. destruct (String.eqb k key); simpl; by rewrite ?IH.
Qed.

Lemma assoc_is_Some (key : string) (m : list (string * Entry)) :
  is_Some (assoc key m) ↔ key ∈ map fst m.
Proof.
  unfold assoc. induction m as [|[k v] m IH]; simpl.
  - split; [by intros [? ?] | by intros ?%elem_of_nil].
  - destruct (String.eqb k key) eqn:E; simpl.
    + apply string_eqb_true in E as ->. split; [intros _; by left | eauto].
    + rewrite IH. rewrite elem_of_cons. split; [by right|].
      intros [->|H]; [|done]. by rewrite String.eqb_refl in E.
Qed.

Lemma assoc_of_elem (key : string) (e : Entry) (m : list (string * Entry)) :
  NoDup (map fst m) → (key, e) ∈ m → assoc key m = Some e.
Proof.
  unfold assoc. induction m as [|[k v] m IH]; simpl; intros Hnd Hin.
  - by apply elem_of_nil in Hin.
  - apply NoDup_cons in Hnd as [Hk Hnd].
    apply elem_of_cons in Hin as [[= <- <-]|Hin].
    + by rewrite String.eqb_refl.
    + destruct (String.eqb k key) eqn:E; simpl; [|by apply IH].
      apply string_eqb_true in E as ->. destruct Hk.
      apply list_elem_of_fmap. by exists (key, e).
Qed.

Lemma grouped_nil : grouped [] [].
Proof. split; [constructor | done]. Qed.

Lemma grouped_step (m : list (string * Entry)) (seen : list Icon) (icon : Icon) :
  grouped m seen → grouped (groupStep m icon) (seen ++ [icon]).
Proof.
  intros [Hnd Hm]. unfold groupStep. rewrite map_has_assoc.
  destruct (bool_decide (is_Some (assoc (icon_name icon) m))) eqn:E; simpl.
  - apply bool_decide_eq_true in E. split.
    + by rewrite keys_modify.
    + intros key. rewrite assoc_modify, members_snoc.
      destruct (String.eqb (icon_name icon) key) eqn:Ek.
      * rewrite folded_snoc, <- Hm.
        apply string_eqb_true in Ek as <-. by destruct E as [e ->].
      * by rewrite app_nil_r.
  - apply bool_decide_eq_false in E. split.
    + rewrite map_app. simpl. apply NoDup_app. split; [done|]. split.
      * intros k Hk Hk'. apply list_elem_of_singleton in Hk' as ->.
        by apply E, assoc_is_Some.
      * apply NoDup_singleton.
    + intros key. rewrite assoc_app, members_snoc.
      destruct (String.eqb (icon_name icon) key) eqn:Ek.
      * apply string_eqb_true in Ek as <-.
        rewrite folded_snoc, <- Hm.
        destruct (assoc (icon_name icon) m) eqn:Ea; [by destruct E|].
        unfold assoc. simpl. by rewrite String.eqb_refl.
      * rewrite app_nil_r, <- Hm. destruct (assoc key m); [done|].
        unfold assoc. simpl. by rewrite Ek.
Qed.

Lemma grouped_fold (rest : list Icon) (m : list (string * Entry)) (seen : list Icon) :
  grouped m seen → grouped (fold_left groupStep rest m) (seen ++ rest).
Proof.
  revert m seen. induction rest as [|icon rest IH]; intros m seen H; simpl.
  - by rewrite app_nil_r.
  - replace (seen ++ icon :: rest) with ((seen ++ [icon]) ++ rest)
      by (by rewrite <- app_assoc).
    apply IH. by apply grouped_step.
Qed.

Lemma grouped_all (icons : list Icon) : grouped (fold_left groupStep icons []) icons.
Proof. apply (grouped_fold icons [] []), grouped_nil. Qed.

(** What a folded entry records. *)
Lemma fold_name (more : list Icon) (e : Entry) :
  name (fold_left (fun e icon => addVariation icon e) more e) = name e.
Proof. revert e. induction more as [|i more IH]; intros e; [done|]. simpl. by rewrite IH. Qed.

Lemma fold_variations (more : list Icon) (e : Entry) :
  variations (fold_left (fun e icon => addVariation icon e) more e) =
  variations e ++ map icon_variation more.
Proof.
  revert e. induction more as [|i more IH]; intros e; simpl.
  - by rewrite app_nil_r.
  - rewrite IH. simpl. by rewrite <- app_assoc.
Qed.

Lemma fold_paths_dom (more : list Icon) (e : Entry) (v : string) :
  is_Some (paths (fold_left (fun e icon => addVariation icon e) more e) !! v) ↔
  is_Some (paths e !! v) ∨ v ∈ map icon_variation more.
Proof.
  revert e. induction more as [|i more IH]; intros e; simpl.
  - split; [by left | intros [H|H%elem_of_nil]; done].
  - rewrite IH. simpl. rewrite lookup_insert_is_Some, elem_of_cons.
    destruct (decide (icon_variation i = v)) as [->|]; intuition congruence.
Qed.

Lemma fold_paths_from (more : list Icon) (e : Entry) (v p : string) :
  paths (fold_left (fun e icon => addVariation icon e) more e) !! v = Some p →
  paths e !! v = Some p ∨
  ∃ icon, icon ∈ more ∧ icon_variation icon = v ∧ icon_path icon = p.
Proof.
  revert e. induction more as [|i more IH]; intros e; simpl; [by left|].
  intros H. apply IH in H as [H|[icon [Hin [Hv Hp]]]].
  - simpl in H. apply lookup_insert_Some in H as [[Hv Hp]|[_ H]]; [|by left].
    right. exists i. split; [by left | done].
  - right. exists icon. split; [by right | done].
Qed.

Lemma elem_of_members (key : string) (seen : list Icon) (icon : Icon) :
  icon ∈ members key seen ↔ icon ∈ seen ∧ icon_name icon = key.
Proof.
  unfold members. rewrite list_elem_of_In, filter_In, <- list_elem_of_In.
  by rewrite string_eqb_true.
Qed.

(** An entry of the grouped catalog is the fold of its members. *)
Lemma groupIcons_entry (icons : list Icon) (e : Entry) :
  e ∈ groupIcons icons →
  ∃ first more,
    members (name e) icons = first :: more ∧
    e = fold_left (fun e icon => addVariation icon e) more (firstEntry first).
Proof.
  unfold groupIcons. intros Hin.
  apply list_elem_of_fmap in Hin as [[k e'] [-> Hin]]. simpl.
  destruct (grouped_all icons) as [Hnd Hm].
  pose proof (assoc_of_elem k e' _ Hnd Hin) as Ha. rewrite Hm in Ha.
  destruct (members k icons) as [|first more] eqn:Em; [done|].
  injection Ha as <-. rewrite fold_name. simpl.
  assert (first ∈ members k icons) as Hf by (rewrite Em; by left).
  apply elem_of_members in Hf as [_ ->]. eauto.
Qed.

Lemma groupIcons_names (icons : list Icon) :
  map name (groupIcons icons) = map fst (fold_left groupStep icons []).
Proof.
  unfold groupIcons. rewrite map_map.
  destruct (grouped_all icons) as [Hnd Hm].
  apply map_ext_in. intros [k e] Hin. simpl.
  apply list_elem_of_In in Hin.
  pose proof (assoc_of_elem k e _ Hnd Hin) as Ha. rewrite Hm in Ha.
  destruct (members k icons) as [|first more] eqn:Em; [done|].
  injection Ha as <-. rewrite fold_name. simpl.
  assert (first ∈ members k icons) as Hf by (rewrite Em; by left).
  by apply elem_of_members in Hf as [_ ->].
Qed.

Lemma groupIcons_NoDup (icons : list Icon) : NoDup (map name (groupIcons icons)).
Proof. rewrite groupIcons_names. apply (grouped_all icons). Qed.

Lemma groupIcons_covers (icons : list Icon) (b : string) :
  b ∈ map name (groupIcons icons) ↔ b ∈ map icon_name icons.
Proof.
  rewrite groupIcons_names, <- assoc_is_Some.
  destruct (grouped_all icons) as [_ Hm]. rewrite Hm.
  rewrite list_elem_of_fmap. split.
  - intros [e He]. destruct (members b icons) as [|first more] eqn:Em; [done|].
    assert (first ∈ members b icons) as Hf by (rewrite Em; by left).
    apply elem_of_members in Hf as [Hin Hn]. by exists first.
  - intros [icon [-> Hin]].
    assert (icon ∈ members (icon_name icon) icons) as Hf by (by apply elem_of_members).
    destruct (members (icon_name icon) icons); [by apply elem_of_nil in Hf | by eexists].
Qed.

End GroupFacts.

(** ** Sorting *)

Module SortFacts.

Section Stable.

Context {A : Type}.
Variable compare : A → A → Z.

Local Abbreviation le := (Spec.le compare).

Lemma insert_by_perm (x : A) (l : list A) : Scanner.insert_by compare x l ≡ₚ x :: l.
Proof.
  induction l as [|y l IH]; simpl; [done|].
  destruct (compare x y <=? 0)%Z; [done|].
  rewrite IH. apply Permutation_swap.
Qed.

Lemma sort_by_perm (l : list A) : Scanner.sort_by compare l ≡ₚ l.
Proof.
  induction l as [|x l IH]; simpl; [done|].
  by rewrite insert_by_perm, IH.
Qed.

(** Elements that the comparator never puts in the wrong order keep
    their places relative to each other. *)
Lemma insert_by_stable (same : A → bool) (x : A) (l : list A) :
  (∀ a b, same a = true → same b = true → le a b) →
  List.filter same (Scanner.insert_by compare x l) = List.filter same (x :: l).
Proof.
  intros Hsame. induction l as [|y l IH]; [done|].
  cbn [Scanner.insert_by]. destruct (compare x y <=? 0)%Z eqn:E; [done|].
  apply Z.leb_gt in E.
  cbn [List.filter] in IH |- *. rewrite IH.
  destruct (same x) eqn:Ex, (same y) eqn:Ey; try done.
  specialize (Hsame x y Ex Ey). unfold Spec.le in Hsame. lia.
Qed.

Lemma sort_by_stable (same : A → bool) (l : list A) :
  (∀ a b, same a = true → same b = true → le a b) →
  List.filter same (Scanner.sort_by compare l) = List.filter same l.
Proof.
  intros Hsame. induction l as [|x l IH]; [done|].
  cbn [Scanner.sort_by]. rewrite insert_by_stable; [|done].
  cbn [List.filter]. by rewrite IH.
Qed.

Hypothesis le_total : ∀ a b, le a b ∨ le b a.
Hypothesis le_trans : ∀ a b c, le a b → le b c → le a c.

Lemma insert_by_sorted (x : A) (l : list A) :
  StronglySorted le l → StronglySorted le (Scanner.insert_by compare x l).
Proof.
  induction l as [|y l IH]; intros Hl; simpl.
  - by repeat constructor.
  - apply StronglySorted_inv in Hl as [Hl Hy].
    destruct (compare x y <=? 0)%Z eqn:E.
    + apply Z.leb_le in E. constructor; [by constructor|].
      constructor; [done|].
      eapply Forall_impl; [exact Hy|]. intros z Hz. by apply (le_trans x y z).
    + apply Z.leb_gt in E. constructor; [by apply IH|].
      rewrite insert_by_perm. constructor; [|done].
      destruct (le_total y x) as [H|H]; [done|]. unfold Spec.le in H. lia.
Qed.

Lemma sort_by_sorted (l : list A) : StronglySorted le (Scanner.sort_by compare l).
Proof.
  induction l as [|x l IH]; simpl; [constructor|]. by apply insert_by_sorted.
Qed.

End Stable.

(** A comparator that puts the elements of one class first and orders
    each class by [inner]. *)
Section Partition.

Context {A : Type}.
Variable first : A → bool.
Variable inner : A → A → Z.

Local Abbreviation classThen := (Spec.classThen first inner).

Lemma classThen_same (a b : A) : first a = first b → classThen a b = inner a b.
Proof. unfold Spec.classThen. intros ->. by destruct (first b). Qed.

Lemma insert_same_class (x : A) (l : list A) :
  Forall (fun a => first a = first x) l →
  Scanner.insert_by classThen x l = Scanner.insert_by inner x l.
Proof.
  induction 1 as [|y l Hy Hl IH]; [done|]. simpl.
  rewrite classThen_same, IH; done.
Qed.

Lemma insert_first (x : A) (P N : list A) :
  first x = true →
  Forall (fun a => first a = true) P →
  Forall (fun a => first a = false) N →
  Scanner.insert_by classThen x (P ++ N) = Scanner.insert_by inner x P ++ N.
Proof.
  intros Hx HP HN. induction HP as [|y P Hy HP IH]; simpl.
  - destruct HN as [|z N Hz HN]; [done|]. simpl.
    unfold Spec.classThen. by rewrite Hx, Hz.
  - rewrite classThen_same by congruence.
    destruct (inner x y <=? 0)%Z; [done|]. by rewrite IH.
Qed.

Lemma insert_other (x : A) (P N : list A) :
  first x = false →
  Forall (fun a => first a = true) P →
  Forall (fun a => first a = false) N →
  Scanner.insert_by classThen x (P ++ N) = P ++ Scanner.insert_by inner x N.
Proof.
  intros Hx HP HN. induction HP as [|y P Hy HP IH]; simpl.
  - apply insert_same_class. eapply Forall_impl; [exact HN|]. simpl. congruence.
  - unfold Spec.classThen at 1. rewrite Hx, Hy. simpl. by rewrite IH.
Qed.

Lemma Forall_sort_filter (keep : A → bool) (l : list A) :
  Forall (fun a => keep a = true) (Scanner.sort_by inner (List.filter keep l)).
Proof.
  rewrite sort_by_perm. apply List.Forall_forall. intros a Ha.
  by apply filter_In in Ha as [_ Ha].
Qed.

(** Sorting by class and then by [inner] is sorting each class by
    [inner] and putting the first class in front. *)
Lemma sort_by_classes (l : list A) :
  Scanner.sort_by classThen l =
  Scanner.sort_by inner (List.filter first l) ++
  Scanner.sort_by inner (List.filter (fun a => negb (first a)) l).
Proof.
  induction l as [|x l IH]; [done|].
  cbn [Scanner.sort_by List.filter]. rewrite IH.
  assert (Forall (fun a => first a = false)
            (Scanner.sort_by inner (List.filter (fun a => negb (first a)) l))) as HN.
  { eapply Forall_impl; [apply (Forall_sort_filter (fun a => negb (first a)))|].
    simpl. intros a. by destruct (first a). }
  destruct (first x) eqn:Hx; simpl.
  - apply insert_first; [done | apply Forall_sort_filter | done].
  - apply insert_other; [done | apply Forall_sort_filter | done].
Qed.

End Partition.

End SortFacts.

(** ** The catalog built by the scanner *)

Module CatalogFacts.

Import Spec StringFacts Scanner GroupFacts.

Lemma scanIcons_listing (localeCompare : string → string → Z) (files : list string) :
  existsb makeIconRaises (List.filter isSvg files) = false →
  scanIcons localeCompare (Fs.DirListing files) =
  sortCatalog localeCompare (groupIcons (map makeIcon (List.filter isSvg files))).
Proof. intros H. unfold scanIcons. simpl. fold isSvg. by rewrite H. Qed.

Lemma scanIcons_raises (localeCompare : string → string → Z) (files : list string) :
  existsb makeIconRaises (List.filter isSvg files) = true →
  scanIcons localeCompare (Fs.DirListing files) = [].
Proof. intros H. unfold scanIcons. simpl. fold isSvg. by rewrite H. Qed.

Lemma scanIcons_perm (localeCompare : string → string → Z) (files : list string) :
  existsb makeIconRaises (List.filter isSvg files) = false →
  scanIcons localeCompare (Fs.DirListing files) ≡ₚ
  groupIcons (map makeIcon (List.filter isSvg files)).
Proof. intros H. rewrite scanIcons_listing by done. apply SortFacts.sort_by_perm. Qed.

(** [generateTags] raises for the inherited names that are not keys of
    its table, and for no other. *)
Lemma generateTags_raises (name : string) :
  generateTags name = None ↔ Js.inherited name = true.
Proof.
  unfold generateTags. split.
  - destruct (alternatives !! name); [done|]. by destruct (Js.inherited name).
  - intros H. destruct (alternatives !! name) as [more|] eqn:E; [|by rewrite H].
    exfalso. unfold Js.inherited in H.
    apply existsb_exists in H as (k & Hk & Ek). apply String.eqb_eq in Ek as <-.
    revert E. simpl in Hk.
    destruct Hk as [<-|[<-|[<-|[<-|[<-|[<-|[<-|[<-|[<-|[<-|[<-|[<-|[]]]]]]]]]]]]];
      by vm_compute.
Qed.

Lemma generateTags_own (name : string) :
  Js.inherited name = false →
  generateTags name =
  Some ([name; categorizeIcon name] ++ default [] (alternatives !! name)).
Proof.
  intros H. unfold generateTags. rewrite H.
  by destruct (alternatives !! name).
Qed.

Lemma ownStems_no_raise (files : list string) :
  ownStems files → existsb makeIconRaises (List.filter isSvg files) = false.
Proof.
  intros Hown. apply not_true_is_false. intros H.
  apply existsb_exists in H as (f & Hf & Hr).
  unfold ownStems, ownFiles in Hown. rewrite Forall_forall in Hown.
  apply list_elem_of_In, Hown in Hf. unfold ownName in Hf.
  apply andb_true_iff in Hf as [Hf _]. apply negb_true_iff in Hf.
  unfold makeIconRaises in Hr. by rewrite generateTags_own in Hr.
Qed.

(** Every entry of a scan was built by a callback that did not raise. *)
Lemma scanIcons_cases (localeCompare : string → string → Z) (files : list string) :
  (existsb makeIconRaises (List.filter isSvg files) = true
   ∧ scanIcons localeCompare (Fs.DirListing files) = [])
  ∨ (Forall (fun f => makeIconRaises f = false) (List.filter isSvg files)
     ∧ scanIcons localeCompare (Fs.DirListing files) ≡ₚ
       groupIcons (map makeIcon (List.filter isSvg files))).
Proof.
  destruct (existsb makeIconRaises (List.filter isSvg files)) eqn:E.
  - left. split; [done | by apply scanIcons_raises].
  - right. split; [|by apply scanIcons_perm].
    apply Forall_forall. intros f Hf. apply not_true_is_false. intros Hr.
    assert (existsb makeIconRaises (List.filter isSvg files) = true); [|congruence].
    apply existsb_exists. exists f. split; [by apply list_elem_of_In | done].
Qed.

Lemma entry_variations (icons : list Icon) (e : Entry) :
  e ∈ groupIcons icons →
  variations e = map icon_variation (members (name e) icons).
Proof.
  intros He. destruct (groupIcons_entry icons e He) as [first [more [Em Ee]]].
  rewrite Em. rewrite Ee at 1. by rewrite fold_variations.
Qed.

Lemma entry_paths_dom (icons : list Icon) (e : Entry) (v : string) :
  e ∈ groupIcons icons → is_Some (paths e !! v) ↔ v ∈ variations e.
Proof.
  intros He. destruct (groupIcons_entry icons e He) as [first [more [Em Ee]]].
  rewrite Ee, fold_paths_dom, fold_variations. simpl.
  rewrite elem_of_cons. split.
  - intros [[p Hp]|H]; [|by right].
    apply lookup_singleton_Some in Hp as [<- _]. by left.
  - intros [->|H]; [|by right]. left. rewrite lookup_singleton_eq. by eexists.
Qed.

Lemma entry_paths_from (icons : list Icon) (e : Entry) (v p : string) :
  e ∈ groupIcons icons → paths e !! v = Some p →
  ∃ icon, icon ∈ icons ∧ icon_name icon = name e ∧
          icon_variation icon = v ∧ icon_path icon = p.
Proof.
  intros He Hp. destruct (groupIcons_entry icons e He) as [first [more [Em Ee]]].
  assert (∀ icon, icon ∈ first :: more → icon ∈ icons ∧ icon_name icon = name e) as Hmem.
  { intros icon Hi. rewrite <- Em in Hi. by apply elem_of_members in Hi. }
  rewrite Ee in Hp. apply fold_paths_from in Hp as [Hp|[icon [Hi [Hv Hpath]]]].
  - simpl in Hp. apply lookup_singleton_Some in Hp as [Hv Hpath].
    exists first. destruct (Hmem first) as [? ?]; [by left | done].
  - exists icon. destruct (Hmem icon) as [? ?]; [by right | done].
Qed.

(** X23. The catalog has one entry for each base name among the files:
    the names of its entries are distinct, they are the base names of
    the files, and there are as many entries as distinct base names.
    The variations of an entry are those of the files of its base name,
    its paths are recorded under exactly these variations, and each
    path is that of one of these files; the scan of a directory that
    lists these files is this catalog for its [.svg] files, sorted.
    This holds for files of which no base name, as it is or in lower
    case, is a name inherited from [Object.prototype].  The files
    [aws.svg], [aws-color.svg] and [aws-text.svg] give the single entry
    [aws] with the variations default, color and text. *)
Theorem buildCatalog_one_entry_per_baseName (files : list string) :
  ownFiles files →
  let icons := map makeIcon files in
  let catalog := groupIcons icons in
  NoDup (map name catalog)
  ∧ (∀ b, b ∈ map name catalog ↔ ∃ f, f ∈ files ∧ icon_name (makeIcon f) = b)
  ∧ length catalog = length (remove_dups (map icon_name icons))
  ∧ (∀ e, e ∈ catalog →
       (∀ v, v ∈ variations e ↔
             ∃ f, f ∈ files ∧ icon_name (makeIcon f) = name e
                  ∧ icon_variation (makeIcon f) = v)
       ∧ (∀ v, is_Some (paths e !! v) ↔ v ∈ variations e)
       ∧ (∀ v p, paths e !! v = Some p →
                 ∃ f, f ∈ files ∧ icon_name (makeIcon f) = name e
                      ∧ icon_variation (makeIcon f) = v
                      ∧ icon_path (makeIcon f) = p))
  ∧ (∀ localeCompare,
       scanIcons localeCompare (Fs.DirListing files) ≡ₚ
       groupIcons (map makeIcon (List.filter isSvg files)))
  ∧ map (fun e => (name e, variations e))
        (groupIcons (map makeIcon ["aws.svg"; "aws-color.svg"; "aws-text.svg"]))
    = [("aws", ["default"; "color"; "text"])].
Proof.
  intros Hown icons catalog.
  assert (∀ b, b ∈ map name catalog ↔ ∃ f, f ∈ files ∧ icon_name (makeIcon f) = b)
    as Hcover.
  { intros b. unfold catalog. rewrite groupIcons_covers. unfold icons.
    rewrite map_map, list_elem_of_fmap.
    split; intros [f [H1 H2]]; exists f; by split. }
  split; [apply groupIcons_NoDup|]. split; [exact Hcover|]. split; [|split; [|split]].
  - rewrite <- (length_map name catalog). apply Permutation_length.
    apply NoDup_Permutation; [apply groupIcons_NoDup | apply NoDup_remove_dups |].
    intros b. unfold catalog. by rewrite groupIcons_covers, elem_of_remove_dups.
  - intros e He. split; [|split].
    + intros v. unfold catalog in He. rewrite (entry_variations icons e He).
      rewrite list_elem_of_fmap. split.
      * intros [icon [-> Hi]]. apply elem_of_members in Hi as [Hi Hn].
        unfold icons in Hi. apply list_elem_of_fmap in Hi as [f [-> Hf]]. eauto.
      * intros [f [Hf [Hn <-]]]. exists (makeIcon f). split; [done|].
        apply elem_of_members. split; [|done].
        unfold icons. apply list_elem_of_fmap. eauto.
    + intros v. by apply (entry_paths_dom icons).
    + intros v p Hp.
      destruct (entry_paths_from icons e v p He Hp) as [icon [Hi [Hn [Hv Hpath]]]].
      unfold icons in Hi. apply list_elem_of_fmap in Hi as [f [-> Hf]]. eauto.
  - intros localeCompare. apply scanIcons_perm, ownStems_no_raise.
    unfold ownStems, ownFiles in *. rewrite Forall_forall in Hown |- *.
    intros f [Hf _]%list_elem_of_In%filter_In. by apply Hown, list_elem_of_In.
  - by vm_compute.
Qed.

Lemma buildCatalog_one_entry_per_baseName_witness :
  ownFiles ["aws.svg"; "aws-color.svg"; "aws-text.svg"]
  ∧ NoDup (map name (groupIcons
                       (map makeIcon ["aws.svg"; "aws-color.svg"; "aws-text.svg"]))).
Proof.
  assert (ownFiles ["aws.svg"; "aws-color.svg"; "aws-text.svg"]) as Hown.
  { apply (bool_decide_unpack _). by vm_compute. }
  split; [exact Hown|].
  apply (buildCatalog_one_entry_per_baseName
           ["aws.svg"; "aws-color.svg"; "aws-text.svg"] Hown).
Defined.

(** C3, where the code departs from it.  A file whose base name is
    inherited from [Object.prototype] makes [generateTags] raise, and
    the scan answers the empty catalog: the files [constructor.svg] and
    [github.svg] have the two base names [constructor] and [github],
    and no entry is left of them; and so for every listing with such a
    file. *)
Theorem inherited_stem_empties_catalog (localeCompare : string → string → Z) :
  scanIcons localeCompare (Fs.DirListing ["constructor.svg"; "github.svg"]) = []
  ∧ map (fun file => getBaseName (Fs.parse_name file)) ["constructor.svg"; "github.svg"]
    = ["constructor"; "github"]
  ∧ generateTags "constructor" = None
  ∧ (∀ files file,
       file ∈ files → isSvg file = true →
       Js.inherited (getBaseName (Fs.parse_name file)) = true →
       scanIcons localeCompare (Fs.DirListing files) = []).
Proof.
  split; [by vm_compute|]. split; [by vm_compute|]. split; [by vm_compute|].
  intros files file Hin Hsvg Hinh. apply scanIcons_raises.
  apply existsb_exists. exists file. split.
  - apply filter_In. split; [by apply list_elem_of_In | done].
  - unfold makeIconRaises. apply generateTags_raises in Hinh. by rewrite Hinh.
Qed.

End CatalogFacts.

(** ** The order of the catalog *)

Module OrderFacts.

Import Spec Scanner.

Lemma codeUnitCompare_antisym (s t : string) :
  Z.sgn (codeUnitCompare t s) = (- Z.sgn (codeUnitCompare s t))%Z.
Proof.
  revert t. induction s as [|a s IH]; intros [|b t]; simpl; try done.
  destruct (nat_of_ascii a <? nat_of_ascii b)%nat eqn:E1,
           (nat_of_ascii b <? nat_of_ascii a)%nat eqn:E2; try done.
  apply Nat.ltb_lt in E1, E2. lia.
Qed.

Lemma codeUnitCompare_trans (s t u : string) :
  (codeUnitCompare s t ≤ 0)%Z → (codeUnitCompare t u ≤ 0)%Z →
  (codeUnitCompare s u ≤ 0)%Z.
Proof.
  revert t u. induction s as [|a s IH]; intros [|b t] [|c u]; simpl; try done.
  destruct (nat_of_ascii a <? nat_of_ascii b)%nat eqn:E1,
           (nat_of_ascii b <? nat_of_ascii a)%nat eqn:E2,
           (nat_of_ascii b <? nat_of_ascii c)%nat eqn:E3,
           (nat_of_ascii c <? nat_of_ascii b)%nat eqn:E4,
           (nat_of_ascii a <? nat_of_ascii c)%nat eqn:E5,
           (nat_of_ascii c <? nat_of_ascii a)%nat eqn:E6;
    try done;
    rewrite ?Nat.ltb_lt, ?Nat.ltb_ge in *; try lia.
  apply IH.
Qed.

Section Collation.

Variable localeCompare : string → string → Z.

Local Abbreviation byDisplayName := (Spec.byDisplayName localeCompare).

Lemma sortCatalog_classes (entries : list Entry) :
  sortCatalog localeCompare entries =
  sort_by byDisplayName (List.filter isPopular entries) ++
  sort_by byDisplayName (List.filter (fun e => negb (isPopular e)) entries).
Proof. apply (SortFacts.sort_by_classes isPopular byDisplayName). Qed.

(** A consistent comparator: exchanging the arguments changes the sign
    of the result, and the order is transitive. *)
Hypothesis lc_antisym :
  ∀ s t, Z.sgn (localeCompare t s) = (- Z.sgn (localeCompare s t))%Z.
Hypothesis lc_trans :
  ∀ s t u, (localeCompare s t ≤ 0)%Z → (localeCompare t u ≤ 0)%Z →
           (localeCompare s u ≤ 0)%Z.

Lemma lc_refl (s : string) : localeCompare s s = 0%Z.
Proof. pose proof (lc_antisym s s). lia. Qed.

Lemma lc_total (s t : string) : (localeCompare s t ≤ 0)%Z ∨ (localeCompare t s ≤ 0)%Z.
Proof. pose proof (lc_antisym s t). lia. Qed.

Lemma compareEntries_total (a b : Entry) :
  (compareEntries localeCompare a b ≤ 0)%Z ∨ (compareEntries localeCompare b a ≤ 0)%Z.
Proof.
  unfold compareEntries.
  destruct (isPopularIcon (name a)), (isPopularIcon (name b)); simpl;
    try apply lc_total; lia.
Qed.

Lemma byDisplayName_sorted (l : list Entry) :
  StronglySorted (fun a b => (byDisplayName a b ≤ 0)%Z) (sort_by byDisplayName l).
Proof.
  apply (SortFacts.sort_by_sorted byDisplayName).
  - intros a b. apply lc_total.
  - intros a b c. apply lc_trans.
Qed.

Lemma sortCatalog_stable (d : string) (p : bool) (entries : list Entry) :
  let same := fun e => String.eqb (displayName e) d && Bool.eqb (isPopular e) p in
  List.filter same (sortCatalog localeCompare entries) = List.filter same entries.
Proof.
  intros same. apply SortFacts.sort_by_stable.
  intros a b Ha Hb. unfold same in Ha, Hb.
  apply andb_true_iff in Ha as [Ha1 Ha2], Hb as [Hb1 Hb2].
  apply String.eqb_eq in Ha1, Hb1. apply Bool.eqb_prop in Ha2, Hb2.
  unfold Spec.le, compareEntries. unfold isPopular in Ha2, Hb2.
  rewrite Ha2, Hb2, Ha1, Hb1, lc_refl. by destruct p.
Qed.

End Collation.

(** C6, amended.  [sortCatalog] puts the entries whose name, in lower
    case, is on the list of popular icons before all the others; each
    of the two parts is in the order that [localeCompare] gives to the
    display names, which is the collation of the host and not the
    order of the character codes; the comparator is total, the result
    is a permutation of the entries, and entries of the same part with
    the same display name keep the order they had. *)
Theorem sortCatalog_popular_then_displayName
    (localeCompare : string → string → Z)
    (lc_antisym : ∀ s t, Z.sgn (localeCompare t s) = (- Z.sgn (localeCompare s t))%Z)
    (lc_trans : ∀ s t u, (localeCompare s t ≤ 0)%Z → (localeCompare t u ≤ 0)%Z →
                         (localeCompare s u ≤ 0)%Z)
    (entries : list Entry) :
  let sorted := sortCatalog localeCompare entries in
  let inOrder := fun a b => (localeCompare (displayName a) (displayName b) ≤ 0)%Z in
  let popularPart :=
    sort_by (byDisplayName localeCompare) (List.filter isPopular entries) in
  let otherPart :=
    sort_by (byDisplayName localeCompare)
            (List.filter (fun e => negb (isPopular e)) entries) in
  sorted = popularPart ++ otherPart
  ∧ Forall (fun e => isPopular e = true) popularPart
  ∧ Forall (fun e => isPopular e = false) otherPart
  ∧ popularPart ≡ₚ List.filter isPopular entries
  ∧ otherPart ≡ₚ List.filter (fun e => negb (isPopular e)) entries
  ∧ StronglySorted inOrder popularPart
  ∧ StronglySorted inOrder otherPart
  ∧ sorted ≡ₚ entries
  ∧ (∀ a b, (compareEntries localeCompare a b ≤ 0)%Z
            ∨ (compareEntries localeCompare b a ≤ 0)%Z)
  ∧ (∀ d p,
       let same := fun e => String.eqb (displayName e) d && Bool.eqb (isPopular e) p in
       List.filter same sorted = List.filter same entries).
Proof.
  intros sorted inOrder popularPart otherPart.
  split; [apply sortCatalog_classes|].
  split; [apply (SortFacts.Forall_sort_filter _ isPopular)|].
  split.
  { eapply Forall_impl;
      [apply (SortFacts.Forall_sort_filter _ (fun e => negb (isPopular e)))|].
    simpl. intros e. by destruct (isPopular e). }
  split; [apply SortFacts.sort_by_perm|].
  split; [apply SortFacts.sort_by_perm|].
  split; [by apply byDisplayName_sorted|].
  split; [by apply byDisplayName_sorted|].
  split; [apply SortFacts.sort_by_perm|].
  split; [intros a b; by apply compareEntries_total|].
  intros d p. by apply sortCatalog_stable.
Qed.

End OrderFacts.

(** ** Scenarios of the scanner and of the loaders *)

Module ScenarioFacts.

Import Spec Scanner CatalogFacts OrderFacts.

Lemma sortCatalog_popular_then_displayName_witness :
  (∀ s t, Z.sgn (codeUnitCompare t s) = (- Z.sgn (codeUnitCompare s t))%Z)
  ∧ (∀ s t u, (codeUnitCompare s t ≤ 0)%Z → (codeUnitCompare t u ≤ 0)%Z →
              (codeUnitCompare s u ≤ 0)%Z)
  ∧ sortCatalog codeUnitCompare sampleEntries =
    sort_by (byDisplayName codeUnitCompare) (List.filter isPopular sampleEntries) ++
    sort_by (byDisplayName codeUnitCompare)
            (List.filter (fun e => negb (isPopular e)) sampleEntries).
Proof.
  split; [exact codeUnitCompare_antisym|].
  split; [exact codeUnitCompare_trans|].
  exact (proj1 (sortCatalog_popular_then_displayName codeUnitCompare
                  codeUnitCompare_antisym codeUnitCompare_trans sampleEntries)).
Defined.

Lemma two_entries (catalog : list Entry) (s1 s2 : string * list string * string * string) :
  map summary catalog = [s1; s2] →
  ∃ a b, catalog = [a; b] ∧ summary a = s1 ∧ summary b = s2.
Proof.
  destruct catalog as [|a [|b [|c catalog]]]; try done.
  intros [= H1 H2]. by exists a, b.
Qed.

Ltac scenario_case :=
  match goal with
  | |- context [scanIcons ?lc (Fs.DirListing ?files)] =>
      let H := fresh "H" in
      let a := fresh "a" in
      let b := fresh "b" in
      let E := fresh "E" in
      let Ha := fresh "Ha" in
      let Hb := fresh "Hb" in
      pose proof (scanIcons_perm lc files ltac:(by vm_compute)) as H;
      first
        [ assert (map summary (groupIcons (map makeIcon (List.filter isSvg files)))
                  = [("github", ["default"; "color"], "dev", "GitHub");
                     ("figma", ["default"], "design", "Figma")]) as E
            by (by vm_compute);
          apply two_entries in E as [a [b [E [Ha Hb]]]];
          rewrite E in H; exists a, b
        | assert (map summary (groupIcons (map makeIcon (List.filter isSvg files)))
                  = [("github", ["color"; "default"], "dev", "GitHub");
                     ("figma", ["default"], "design", "Figma")]) as E
            by (by vm_compute);
          apply two_entries in E as [a [b [E [Ha Hb]]]];
          rewrite E in H; exists a, b
        | assert (map summary (groupIcons (map makeIcon (List.filter isSvg files)))
                  = [("figma", ["default"], "design", "Figma");
                     ("github", ["default"; "color"], "dev", "GitHub")]) as E
            by (by vm_compute);
          apply two_entries in E as [b [a [E [Hb Ha]]]];
          rewrite E, (Permutation_swap a b []) in H; exists a, b
        | assert (map summary (groupIcons (map makeIcon (List.filter isSvg files)))
                  = [("figma", ["default"], "design", "Figma");
                     ("github", ["color"; "default"], "dev", "GitHub")]) as E
            by (by vm_compute);
          apply two_entries in E as [b [a [E [Hb Ha]]]];
          rewrite E, (Permutation_swap a b []) in H; exists a, b ];
      unfold summary in Ha, Hb;
      injection Ha; injection Hb; intros;
      repeat split; try done;
      match goal with
      | Hv : variations ?e = _ |- variations ?e ≡ₚ _ =>
          rewrite Hv; first [done | apply Permutation_swap]
      end
  end.

(** C8. A directory that holds exactly [github.svg], [github-color.svg]
    and [figma.svg], listed in any order, gives a catalog of exactly two
    entries: [github], with the variations default and color, the
    category [dev] and the display name [GitHub]; and [figma], with the
    variation default, the category [design] and the display name
    [Figma]. *)
Theorem scan_github_figma (localeCompare : string → string → Z) (files : list string) :
  files ≡ₚ ["github.svg"; "github-color.svg"; "figma.svg"] →
  ∃ github figma,
    scanIcons localeCompare (Fs.DirListing files) ≡ₚ [github; figma]
    ∧ name github = "github"
    ∧ variations github ≡ₚ ["default"; "color"]
    ∧ category github = "dev"
    ∧ displayName github = "GitHub"
    ∧ name figma = "figma"
    ∧ variations figma = ["default"]
    ∧ category figma = "design"
    ∧ displayName figma = "Figma".
Proof.
  intros Hperm. symmetry in Hperm. apply permutations_Permutation in Hperm.
  cbv [permutations interleave fmap list_fmap mbind list_bind app] in Hperm.
  rewrite !elem_of_cons, elem_of_nil in Hperm.
  destruct Hperm as [->|[->|[->|[->|[->|[->|[]]]]]]]; scenario_case.
Qed.

Lemma scan_github_figma_witness :
  ["github.svg"; "github-color.svg"; "figma.svg"]
    ≡ₚ ["github.svg"; "github-color.svg"; "figma.svg"]
  ∧ ∃ github figma,
      scanIcons codeUnitCompare
        (Fs.DirListing ["github.svg"; "github-color.svg"; "figma.svg"])
        ≡ₚ [github; figma]
      ∧ name github = "github"
      ∧ variations github ≡ₚ ["default"; "color"]
      ∧ category github = "dev"
      ∧ displayName github = "GitHub"
      ∧ name figma = "figma"
      ∧ variations figma = ["default"]
      ∧ category figma = "design"
      ∧ displayName figma = "Figma".
Proof.
  split; [reflexivity|].
  apply (scan_github_figma codeUnitCompare
           ["github.svg"; "github-color.svg"; "figma.svg"]).
  reflexivity.
Defined.

(** C7, as stated, fails on the scanner: for a missing directory
    [scanIcons] returns the empty catalog. *)
Lemma scanner_does_not_fall_back : ¬ scanner_falls_back.
Proof.
  intros H. specialize (H codeUnitCompare Fs.DirMissing eq_refl). discriminate H.
Qed.

(** C6, as stated, fails when the order of the characters is that of
    their codes: [localeCompare] compares letters without regard to
    case first, so that of [gitlab.svg] and [gitea.svg] the entry
    [Gitea] comes before [GitLab], whose [L] has the smaller code. *)
Lemma order_is_not_by_code_units : ¬ sorted_lexicographically.
Proof.
  intros H. specialize (H ["gitlab.svg"; "gitea.svg"] 0%nat).
  assert (map (fun e => (displayName e, isPopular e))
              (scanIcons Js.localeCompare (Fs.DirListing ["gitlab.svg"; "gitea.svg"]))
          = [("Gitea", false); ("GitLab", false)]) as E by (by vm_compute).
  destruct (scanIcons Js.localeCompare (Fs.DirListing ["gitlab.svg"; "gitea.svg"]))
    as [|a [|b [|c rest]]]; try discriminate E.
  injection E as Ha Hpa Hb Hpb.
  specialize (H a b eq_refl eq_refl). rewrite Ha, Hb, Hpa, Hpb in H.
  specialize (H eq_refl). by vm_compute in H.
Qed.

Lemma no_svg_filter (files : list string) :
  Forall (fun file => Js.endsWith file ".svg" = false) files →
  List.filter (fun file => Js.endsWith file ".svg") files = [].
Proof.
  induction 1 as [|file files Hf _ IH]; [done|]. simpl. by rewrite Hf.
Qed.

(** C7, amended.  The scanner answers the empty catalog for a directory
    that is missing or cannot be listed, and for one without [.svg]
    files.  The MCP server answers its fallback catalog of twelve icons
    for a directory that is missing or cannot be listed, and the empty
    catalog for one without [.svg] files.  Neither raises an error. *)
Theorem scan_failure_catalogs
    (localeCompare : string → string → Z) (joinBase : string → string) :
  scanIcons localeCompare Fs.DirMissing = []
  ∧ scanIcons localeCompare Fs.DirUnreadable = []
  ∧ (∀ files, Forall (fun file => Js.endsWith file ".svg" = false) files →
              scanIcons localeCompare (Fs.DirListing files) = [])
  ∧ McpServer.loadIcons joinBase Fs.DirMissing = McpServer.getFallbackIcons joinBase
  ∧ McpServer.loadIcons joinBase Fs.DirUnreadable = McpServer.getFallbackIcons joinBase
  ∧ map McpServer.name (McpServer.getFallbackIcons joinBase) = McpServer.fallbackList
  ∧ length (McpServer.getFallbackIcons joinBase) = 12
  ∧ (∀ files, Forall (fun file => Js.endsWith file ".svg" = false) files →
              McpServer.loadIcons joinBase (Fs.DirListing files) = []).
Proof.
  repeat split; try reflexivity.
  - intros files Hno. rewrite scanIcons_listing; unfold isSvg;
      by rewrite no_svg_filter.
  - intros files Hno. unfold McpServer.loadIcons. simpl.
    by rewrite no_svg_filter.
Qed.

End ScenarioFacts.

(** ** Search *)

Module SearchFacts.

Import Spec StringFacts.

Lemma sublist_filter_bool {A} (f : A → bool) (l : list A) : sublist (List.filter f l) l.
Proof.
  induction l as [|x l IH]; simpl; [constructor|].
  destruct (f x); by constructor.
Qed.

Lemma sublist_slice {A} (l : list A) (start stop : Z) : sublist (Js.slice l start stop) l.
Proof.
  unfold Js.slice. etrans; [apply sublist_take | apply sublist_drop].
Qed.

Lemma slice_from_0 {A} (l : list A) (n : Z) :
  (0 ≤ n)%Z → Js.slice l 0 n = take (Z.to_nat n) l.
Proof.
  intros Hn. unfold Js.slice, Js.clamp_index.
  replace (0 <? 0)%Z with false by done.
  replace (n <? 0)%Z with false by (symmetry; apply Z.ltb_ge; lia).
  rewrite (Z.min_l 0) by lia. rewrite Z.sub_0_r.
  change (Z.to_nat 0) with 0%nat. rewrite drop_0.
  destruct (Z.min_spec n (Z.of_nat (length l))) as [[H ->]|[H ->]]; [done|].
  rewrite Nat2Z.id. rewrite !take_ge; [done | lia | lia].
Qed.

Lemma filter_filter_bool {A} (f g : A → bool) (l : list A) :
  List.filter g (List.filter f l) = List.filter (fun x => f x && g x) l.
Proof.
  induction l as [|x l IH]; [done|]. simpl.
  destruct (f x) eqn:Ef; simpl; [|done]. destruct (g x); by rewrite IH.
Qed.

Lemma filter_true {A} (l : list A) : List.filter (fun _ => true) l = l.
Proof. induction l as [|x l IH]; [done|]. simpl. by rewrite IH. Qed.





Section Mcp.

Import McpServer.



Lemma searchIcons_eq (icons : list Icon) (query category : option string)
    (limit : option Z) :
  searchIcons icons query category limit =
  Js.slice (List.filter (fun icon => categoryTest category icon && queryTest query icon)
                        icons) 0 (default 50%Z limit).
Proof.
  unfold searchIcons. f_equal. rewrite <- filter_filter_bool.
  assert (∀ l, match query with
               | Some q =>
                   if Js.truthy q && Js.truthy (Js.trim q)
                   then List.filter
                          (fun icon =>
                             Js.includes (Js.toLowerCase (name icon)) (Js.toLowerCase q) ||
                             Js.includes (Js.toLowerCase (displayName icon)) (Js.toLowerCase q) ||
                             Js.includes (Js.toLowerCase (McpServer.category icon))
                                         (Js.toLowerCase q)) l
                   else l
               | None => l
               end = List.filter (queryTest query) l) as Hq.
  { intros l. unfold queryTest. destruct query as [q|]; [|by rewrite filter_true].
    destruct (Js.truthy q && Js.truthy (Js.trim q)); [done | by rewrite filter_true]. }
  rewrite Hq. f_equal.
  unfold categoryTest. destruct category as [c|]; [|by rewrite filter_true].
  destruct (Js.truthy c && negb (String.eqb c "all")); [done | by rewrite filter_true].
Qed.

End Mcp.

End SearchFacts.

(** ** What search keeps, and in which order *)

Module SearchClaims.

Import Spec StringFacts SearchFacts.



Lemma apiFilter_eq (entries : list Scanner.Entry) (category search : option string) :
  Scanner.apiFilter entries category search =
  List.filter (fun e => apiCategoryTest category e && apiSearchTest search e) entries.
Proof.
  unfold Scanner.apiFilter. rewrite <- filter_filter_bool.
  assert (match category with
          | Some c =>
              if Js.truthy c && negb (String.eqb c "all")
              then List.filter (fun icon => String.eqb (Scanner.category icon) c) entries
              else entries
          | None => entries
          end = List.filter (apiCategoryTest category) entries) as ->.
  { unfold apiCategoryTest. destruct category as [c|]; [|by rewrite filter_true].
    destruct (Js.truthy c && negb (String.eqb c "all")); [done | by rewrite filter_true]. }
  unfold apiSearchTest. destruct search as [s|]; [|by rewrite filter_true].
  destruct (Js.truthy s); [done | by rewrite filter_true].
Qed.



(** C5. What [searchIcons] returns is a subsequence of the catalog: the
    entries that remain stand in the order of the catalog.  With an
    empty query and the category ["all"] nothing is filtered: the result
    is the first [limit] entries, the whole catalog when it has no more
    than [limit].  The search of the loader is a subsequence too, and
    the whole catalog for an empty query. *)
Theorem search_is_subsequence
    (icons : list McpServer.Icon) (query category : option string) (limit : option Z) :
  sublist (McpServer.searchIcons icons query category limit) icons
  ∧ (∀ n, (0 ≤ n)%Z →
          McpServer.searchIcons icons (Some "") (Some "all") (Some n) =
          take (Z.to_nat n) icons)
  ∧ McpServer.searchIcons icons (Some "") (Some "all") (Some 50%Z) = take 50%nat icons
  ∧ ((length icons ≤ 50)%nat →
     McpServer.searchIcons icons (Some "") (Some "all") (Some 50%Z) = icons)
  ∧ (∀ (loaded : list IconsLoader.Icon) (q : option string),
       sublist (IconsLoader.search loaded q) loaded)
  ∧ (∀ loaded : list IconsLoader.Icon, IconsLoader.search loaded (Some "") = loaded).
Proof.
  assert (∀ n, (0 ≤ n)%Z →
               McpServer.searchIcons icons (Some "") (Some "all") (Some n) =
               take (Z.to_nat n) icons) as Hall.
  { intros n Hn. unfold McpServer.searchIcons. simpl. by apply slice_from_0. }
  split; [|split; [exact Hall|split; [|split; [|split]]]].
  - rewrite searchIcons_eq. etrans; [apply sublist_slice | apply sublist_filter_bool].
  - by rewrite Hall.
  - intros Hlen. rewrite Hall by done. by apply take_ge.
  - intros loaded q. unfold IconsLoader.search.
    destruct (IconsLoader.blankQuery q); [done | apply sublist_filter_bool].
  - done.
Qed.

End SearchClaims.

(** ** Posts from icon names *)

Module PostFacts.

Import Spec McpServer.

Lemma findIcon_Some (icons : list Icon) (wanted : string) (icon : Icon) :
  findIcon icons wanted = Some icon → icon ∈ icons ∧ name icon = wanted.
Proof.
  unfold findIcon. intros H. apply find_some in H as [Hin Hn].
  split; [by apply list_elem_of_In | by apply String.eqb_eq].
Qed.

Lemma findIcon_None (icons : list Icon) (wanted : string) :
  findIcon icons wanted = None ↔ wanted ∉ map name icons.
Proof.
  unfold findIcon. split.
  - intros H Hin. apply list_elem_of_fmap in Hin as [icon [-> Hin]].
    apply list_elem_of_In in Hin.
    pose proof (find_none _ _ H icon Hin) as Hn. simpl in Hn.
    by rewrite String.eqb_refl in Hn.
  - intros Hnot. destruct (List.find _ icons) as [icon|] eqn:E; [|done].
    apply find_some in E as [Hin Hn]. apply String.eqb_eq in Hn.
    destruct Hnot. apply list_elem_of_fmap. exists icon.
    split; [done | by apply list_elem_of_In].
Qed.

Lemma iconObjects_cons (icons : list Icon) (wanted : string) (rest : list string) :
  iconObjects icons (wanted :: rest) =
  match findIcon icons wanted with
  | Some icon => icon :: iconObjects icons rest
  | None => iconObjects icons rest
  end.
Proof. unfold iconObjects. simpl. by destruct (findIcon icons wanted). Qed.

Lemma iconObjects_known (icons : list Icon) (selected : list string) :
  iconObjects icons selected = iconObjects icons (List.filter (known icons) selected).
Proof.
  induction selected as [|n rest IH]; [done|].
  rewrite iconObjects_cons. simpl. unfold known at 1.
  destruct (findIcon icons n) as [icon|] eqn:E.
  - rewrite bool_decide_eq_true_2.
    + by rewrite iconObjects_cons, E, IH.
    + apply findIcon_Some in E as [Hin <-]. apply list_elem_of_fmap. eauto.
  - rewrite bool_decide_eq_false_2; [done|]. by apply findIcon_None.
Qed.

Lemma iconObjects_names (icons : list Icon) (selected : list string) :
  map name (iconObjects icons selected) = List.filter (known icons) selected.
Proof.
  induction selected as [|n rest IH]; [done|].
  rewrite iconObjects_cons. simpl. unfold known at 1.
  destruct (findIcon icons n) as [icon|] eqn:E.
  - rewrite bool_decide_eq_true_2.
    + simpl. rewrite IH. by apply findIcon_Some in E as [_ ->].
    + apply findIcon_Some in E as [Hin <-]. apply list_elem_of_fmap. eauto.
  - rewrite bool_decide_eq_false_2; [done|]. by apply findIcon_None.
Qed.

Lemma iconObjects_elem (icons : list Icon) (selected : list string) (icon : Icon) :
  icon ∈ iconObjects icons selected → icon ∈ icons ∧ name icon ∈ selected.
Proof.
  unfold iconObjects. rewrite list_elem_of_omap.
  intros [n [Hn E]]. apply findIcon_Some in E as [Hin <-]. done.
Qed.

Lemma iconObjects_skip (icons : list Icon) (before after : list string) (missing : string) :
  missing ∉ map name icons →
  iconObjects icons (before ++ missing :: after) = iconObjects icons (before ++ after).
Proof.
  intros H. apply findIcon_None in H. unfold iconObjects.
  rewrite !omap_app. simpl. by rewrite H.
Qed.

Lemma post_of_found (icons : list Icon) (template : string) (s1 s2 : list string) :
  iconObjects icons s1 = iconObjects icons s2 →
  generateLinkedInPost icons template s1 = generateLinkedInPost icons template s2.
Proof. unfold generateLinkedInPost. by intros ->. Qed.

Lemma getIconsByNames_elem (loaded : list IconsLoader.Icon) (names : list string)
    (icon : IconsLoader.Icon) :
  icon ∈ IconsLoader.getIconsByNames loaded names ↔
  icon ∈ loaded ∧ IconsLoader.name icon ∈ names.
Proof.
  unfold IconsLoader.getIconsByNames, Js.arr_includes.
  rewrite list_elem_of_In, filter_In, existsb_exists, <- list_elem_of_In. split.
  - intros [Hin [n [Hn E]]]. apply String.eqb_eq in E as <-.
    split; [done | by apply list_elem_of_In].
  - intros [Hin Hn]. split; [done|]. exists (IconsLoader.name icon).
    split; [by apply list_elem_of_In | apply String.eqb_refl].
Qed.

Lemma getIconsByNames_known (loaded : list IconsLoader.Icon) (names : list string) :
  IconsLoader.getIconsByNames loaded names =
  IconsLoader.getIconsByNames loaded (List.filter (knownLoaded loaded) names).
Proof.
  unfold IconsLoader.getIconsByNames. apply filter_ext_in. intros icon Hin.
  unfold Js.arr_includes. apply eq_true_iff_eq.
  rewrite !existsb_exists. split.
  - intros [n [Hn E]]. exists n. split; [|done].
    apply filter_In. split; [done|]. unfold knownLoaded.
    apply bool_decide_eq_true_2. apply String.eqb_eq in E as <-.
    apply list_elem_of_fmap. exists icon. by rewrite list_elem_of_In.
  - intros [n [Hn E]]. exists n. split; [|done]. by apply filter_In in Hn as [Hn _].
Qed.

(** C9. The post is made of the icons found for the selected names.  A
    name that the catalog does not know is left out: the icons found
    are those of the known names, in the order of the selection, and
    the post is the post of the known names alone; taking a missing
    name out of the selection changes nothing.  [getIconsByNames] of the
    loader likewise answers the icons of the catalog whose name is
    selected.  Both are total: a missing name is not an error. *)
Theorem missing_names_are_dropped
    (icons : list Icon) (template : string) (selected : list string) :
  map name (iconObjects icons selected) = List.filter (known icons) selected
  ∧ (∀ icon, icon ∈ iconObjects icons selected → icon ∈ icons ∧ name icon ∈ selected)
  ∧ generateLinkedInPost icons template selected =
    generateLinkedInPost icons template (List.filter (known icons) selected)
  ∧ (∀ before missing after,
       missing ∉ map name icons →
       generateLinkedInPost icons template (before ++ missing :: after) =
       generateLinkedInPost icons template (before ++ after))
  ∧ (∀ (loaded : list IconsLoader.Icon) (names : list string),
       IconsLoader.getIconsByNames loaded names =
       IconsLoader.getIconsByNames loaded (List.filter (knownLoaded loaded) names)
       ∧ ∀ icon, icon ∈ IconsLoader.getIconsByNames loaded names ↔
                 icon ∈ loaded ∧ IconsLoader.name icon ∈ names)
  ∧ generateLinkedInPost (getFallbackIcons (fun file => file)) "plain"
                         ["github"; "no-such-icon"; "aws"]
    = "Check out these amazing tools: GitHub, Aws!".
Proof.
  split; [apply iconObjects_names|].
  split; [apply iconObjects_elem|].
  split; [apply post_of_found, iconObjects_known|].
  split; [|split; [|by vm_compute]].
  - intros before missing after H. by apply post_of_found, iconObjects_skip.
  - intros loaded names. split; [apply getIconsByNames_known|].
    intros icon. apply getIconsByNames_elem.
Qed.

End PostFacts.

(** ** Reading the catalog leaves it as it was *)

Module HeapFacts.

Import Spec Heap.

Section Frame.

Context {Obj : Type}.
Implicit Types (σ : store Obj) (l : list loc) (xs : list Obj).

Lemma extends_refl σ : extends σ σ.
Proof. by repeat split. Qed.

Lemma extends_trans σ1 σ2 σ3 : extends σ1 σ2 → extends σ2 σ3 → extends σ1 σ3.
Proof.
  intros (H1 & H2 & H3) (H4 & H5 & H6). repeat split; [congruence..|].
  by etrans.
Qed.

Lemma contents_extends σ σ' (a : loc) xs :
  extends σ σ' → contents σ a = Some xs → contents σ' a = Some xs.
Proof.
  intros (_ & Hobj & Harr). unfold contents.
  destruct (arrays σ !! a) as [l|] eqn:E; [|done].
  rewrite (lookup_weaken _ _ _ _ E Harr). by rewrite Hobj.
Qed.

Lemma catalog_extends σ σ' xs :
  extends σ σ' → catalog σ = Some xs → catalog σ' = Some xs.
Proof.
  intros H. unfold catalog. rewrite (proj1 H). by apply contents_extends.
Qed.

Lemma bind_Some {A B} (m : M Obj A) (k : A → M Obj B) σ (x : A) σ1 :
  m σ = Some (x, σ1) → bind m k σ = k x σ1.
Proof. unfold bind. by intros ->. Qed.

Lemma new_array_spec σ l xs :
  mapM (fun o => objects σ !! o) l = Some xs →
  ∃ r σ', new_array l σ = Some (r, σ') ∧ extends σ σ' ∧ contents σ' r = Some xs.
Proof.
  intros Hl. eexists _, _. split; [reflexivity|].
  assert (arrays σ !! fresh (dom (arrays σ)) = None) as Hfresh.
  { apply not_elem_of_dom, is_fresh. }
  split.
  - repeat split. simpl. by apply insert_subseteq.
  - unfold contents. simpl. by rewrite lookup_insert_eq.
Qed.

Lemma filter_loop_spec (p : Obj → bool) σ l xs :
  mapM (fun o => objects σ !! o) l = Some xs →
  ∃ kept, filter_loop p l σ = Some (kept, σ)
          ∧ mapM (fun o => objects σ !! o) kept = Some (List.filter p xs).
Proof.
  rewrite mapM_Some. induction 1 as [|o x l xs Ho Hl IH]; simpl.
  - by exists [].
  - destruct IH as [kept [Hk Hc]].
    unfold bind at 1, read_object. rewrite Ho.
    unfold bind at 1. rewrite Hk. unfold ret.
    eexists. split; [reflexivity|].
    destruct (p x); [|done].
    apply mapM_Some. constructor; [done | by apply mapM_Some].
Qed.

Lemma array_filter_spec (p : Obj → bool) σ (a : loc) xs :
  contents σ a = Some xs →
  ∃ r σ', array_filter p a σ = Some (r, σ') ∧ extends σ σ'
          ∧ contents σ' r = Some (List.filter p xs).
Proof.
  unfold contents. destruct (arrays σ !! a) as [l|] eqn:E; [|done]. intros Hl.
  destruct (filter_loop_spec p σ l xs Hl) as [kept [Hk Hc]].
  destruct (new_array_spec σ kept _ Hc) as (r & σ' & Hn & Hext & Hr).
  exists r, σ'. split; [|done].
  unfold array_filter, bind, read_array. by rewrite E, Hk.
Qed.

Lemma mapM_slice σ l xs (start stop : Z) :
  mapM (fun o => objects σ !! o) l = Some xs →
  mapM (fun o => objects σ !! o) (Js.slice l start stop) = Some (Js.slice xs start stop).
Proof.
  rewrite !mapM_Some. intros H. unfold Js.slice.
  rewrite (Forall2_length _ _ _ H). by apply Forall2_take, Forall2_drop.
Qed.

Lemma array_slice_spec σ (a : loc) xs (start stop : Z) :
  contents σ a = Some xs →
  ∃ r σ', array_slice a start stop σ = Some (r, σ') ∧ extends σ σ'
          ∧ contents σ' r = Some (Js.slice xs start stop).
Proof.
  unfold contents. destruct (arrays σ !! a) as [l|] eqn:E; [|done]. intros Hl.
  destruct (new_array_spec σ _ _ (mapM_slice σ l xs start stop Hl))
    as (r & σ' & Hn & Hext & Hr).
  exists r, σ'. split; [|done].
  unfold array_slice, bind, read_array. by rewrite E.
Qed.

(** A filter that may be skipped. *)
Lemma optional_filter_spec (on : bool) (p : Obj → bool) σ (a : loc) xs :
  contents σ a = Some xs →
  ∃ r σ', (if on then array_filter p a else ret a) σ = Some (r, σ') ∧ extends σ σ'
          ∧ contents σ' r = Some (if on then List.filter p xs else xs).
Proof.
  intros H. destruct on; [by apply array_filter_spec|].
  exists a, σ. split; [done|]. split; [apply extends_refl | done].
Qed.

End Frame.

End HeapFacts.

Module SnapshotFacts.

Import Spec Heap HeapFacts.

Lemma searchIcons_frame (σ : store McpServer.Icon) (entries : list McpServer.Icon)
    (query category : option string) (limit : option Z) :
  catalog σ = Some entries →
  ∃ r σ', Snapshot.searchIcons query category limit σ = Some (r, σ')
          ∧ extends σ σ'
          ∧ contents σ' r = Some (McpServer.searchIcons entries query category limit).
Proof.
  intros Hcat. unfold Snapshot.searchIcons, McpServer.searchIcons. cbv zeta.
  rewrite (bind_Some get_icons _ σ (this_icons σ) σ eq_refl).
  assert (∃ r1 σ1,
    match category with
    | Some c =>
        if Js.truthy c && negb (String.eqb c "all")
        then array_filter (fun icon => String.eqb (McpServer.category icon) c)
                          (this_icons σ)
        else ret (this_icons σ)
    | None => ret (this_icons σ)
    end σ = Some (r1, σ1)
    ∧ extends σ σ1
    ∧ contents σ1 r1 =
      Some match category with
           | Some c =>
               if Js.truthy c && negb (String.eqb c "all")
               then List.filter (fun icon => String.eqb (McpServer.category icon) c) entries
               else entries
           | None => entries
           end) as (r1 & σ1 & E1 & X1 & C1).
  { destruct category as [c|]; [by apply optional_filter_spec|].
    exists (this_icons σ), σ. split; [done|]. split; [apply extends_refl | done]. }
  rewrite (bind_Some _ _ σ r1 σ1 E1).
  match type of C1 with _ = Some ?xs => set (xs1 := xs) in * end.
  assert (∃ r2 σ2,
    match query with
    | Some q =>
        if Js.truthy q && Js.truthy (Js.trim q)
        then array_filter
               (fun icon =>
                  Js.includes (Js.toLowerCase (McpServer.name icon)) (Js.toLowerCase q) ||
                  Js.includes (Js.toLowerCase (McpServer.displayName icon)) (Js.toLowerCase q) ||
                  Js.includes (Js.toLowerCase (McpServer.category icon)) (Js.toLowerCase q))
               r1
        else ret r1
    | None => ret r1
    end σ1 = Some (r2, σ2)
    ∧ extends σ1 σ2
    ∧ contents σ2 r2 =
      Some match query with
           | Some q =>
               if Js.truthy q && Js.truthy (Js.trim q)
               then List.filter
                      (fun icon =>
                         Js.includes (Js.toLowerCase (McpServer.name icon)) (Js.toLowerCase q) ||
                         Js.includes (Js.toLowerCase (McpServer.displayName icon)) (Js.toLowerCase q) ||
                         Js.includes (Js.toLowerCase (McpServer.category icon)) (Js.toLowerCase q))
                      xs1
               else xs1
           | None => xs1
           end) as (r2 & σ2 & E2 & X2 & C2).
  { destruct query as [q|]; [by apply optional_filter_spec|].
    exists r1, σ1. split; [done|]. split; [apply extends_refl | done]. }
  rewrite (bind_Some _ _ σ1 r2 σ2 E2).
  destruct (array_slice_spec σ2 r2 _ 0 (default 50%Z limit) C2) as (r & σ' & E & X & C).
  exists r, σ'. split; [exact E|]. split; [|exact C].
  eapply extends_trans; [exact X1|]. eapply extends_trans; [exact X2 | exact X].
Qed.

Lemma filterByCategory_frame (τ : store IconsLoader.Icon) (loaded : list IconsLoader.Icon)
    (category : option string) :
  catalog τ = Some loaded →
  ∃ r τ', Snapshot.filterByCategory category τ = Some (r, τ')
          ∧ extends τ τ'
          ∧ contents τ' r = Some (IconsLoader.filterByCategory loaded category).
Proof.
  intros Hcat. unfold Snapshot.filterByCategory, IconsLoader.filterByCategory.
  destruct (IconsLoader.allCategories category).
  - exists (this_icons τ), τ. split; [done|]. split; [apply extends_refl | done].
  - rewrite (bind_Some get_icons _ τ (this_icons τ) τ eq_refl).
    by apply array_filter_spec.
Qed.

Lemma search_frame (τ : store IconsLoader.Icon) (loaded : list IconsLoader.Icon)
    (query : option string) :
  catalog τ = Some loaded →
  ∃ r τ', Snapshot.search query τ = Some (r, τ')
          ∧ extends τ τ'
          ∧ contents τ' r = Some (IconsLoader.search loaded query).
Proof.
  intros Hcat. unfold Snapshot.search, IconsLoader.search.
  destruct (IconsLoader.blankQuery query).
  - exists (this_icons τ), τ. split; [done|]. split; [apply extends_refl | done].
  - cbv zeta. rewrite (bind_Some get_icons _ τ (this_icons τ) τ eq_refl).
    by apply array_filter_spec.
Qed.

(** C10. [searchIcons], [filterByCategory] and [search] read the
    catalog and change nothing of it.  From a store in which
    [this.icons] is an array of icon objects, each of them returns, and
    afterwards [this.icons] is the same reference, every object is as it
    was (name, display name, category and the rest), every array that
    existed has the same elements in the same order, and so the catalog
    reads as before.  The array returned holds the entries that the
    function over values computes. *)
Theorem reads_leave_catalog_unchanged
    (σ : store McpServer.Icon) (entries : list McpServer.Icon)
    (τ : store IconsLoader.Icon) (loaded : list IconsLoader.Icon) :
  catalog σ = Some entries →
  catalog τ = Some loaded →
  (∀ query category limit,
     ∃ r σ', Snapshot.searchIcons query category limit σ = Some (r, σ')
             ∧ this_icons σ' = this_icons σ
             ∧ objects σ' = objects σ
             ∧ arrays σ ⊆ arrays σ'
             ∧ catalog σ' = Some entries
             ∧ contents σ' r = Some (McpServer.searchIcons entries query category limit))
  ∧ (∀ category,
       ∃ r τ', Snapshot.filterByCategory category τ = Some (r, τ')
               ∧ this_icons τ' = this_icons τ
               ∧ objects τ' = objects τ
               ∧ arrays τ ⊆ arrays τ'
               ∧ catalog τ' = Some loaded
               ∧ contents τ' r = Some (IconsLoader.filterByCategory loaded category))
  ∧ (∀ query,
       ∃ r τ', Snapshot.search query τ = Some (r, τ')
               ∧ this_icons τ' = this_icons τ
               ∧ objects τ' = objects τ
               ∧ arrays τ ⊆ arrays τ'
               ∧ catalog τ' = Some loaded
               ∧ contents τ' r = Some (IconsLoader.search loaded query)).
Proof.
  intros Hσ Hτ. split; [|split].
  - intros query category limit.
    destruct (searchIcons_frame σ entries query category limit Hσ)
      as (r & σ' & E & X & C).
    exists r, σ'. pose proof (catalog_extends _ _ _ X Hσ).
    destruct X as (? & ? & ?). done.
  - intros category.
    destruct (filterByCategory_frame τ loaded category Hτ) as (r & τ' & E & X & C).
    exists r, τ'. pose proof (catalog_extends _ _ _ X Hτ).
    destruct X as (? & ? & ?). done.
  - intros query.
    destruct (search_frame τ loaded query Hτ) as (r & τ' & E & X & C).
    exists r, τ'. pose proof (catalog_extends _ _ _ X Hτ).
    destruct X as (? & ? & ?). done.
Qed.

Lemma reads_leave_catalog_unchanged_witness :
  ∃ entries loaded,
    catalog serverStore = Some entries
    ∧ catalog loaderStore = Some loaded
    ∧ ∃ r σ', Snapshot.searchIcons (Some "git") (Some "dev") (Some 10%Z) serverStore
              = Some (r, σ')
              ∧ catalog σ' = Some entries.
Proof.
  eexists _, _. split; [reflexivity|]. split; [reflexivity|].
  destruct (proj1 (reads_leave_catalog_unchanged serverStore _ loaderStore _
                     eq_refl eq_refl) (Some "git") (Some "dev") (Some 10%Z))
    as (r & σ' & E & _ & _ & _ & C & _).
  by exists r, σ'.
Defined.

End SnapshotFacts.

(** ** The copies kept by the MCP server *)

Module SiblingFacts.

(** The categoriser of the MCP server looks for a keyword inside the
    name, not for the name inside a keyword, and does not lower the
    name. *)
Remark mcp_categorize_one_way :
  McpServer.categorizeIcon "git" = "other"
  ∧ Scanner.categorizeIcon "git" = "ai"
  ∧ McpServer.categorizeIcon "OpenAI" = "other"
  ∧ Scanner.categorizeIcon "OpenAI" = "ai".
Proof. by vm_compute. Qed.

(** The MCP server does not take [-mono] for a variation. *)
Remark mcp_keeps_mono :
  McpServer.stripSuffix "x-mono" = "x-mono" ∧ Scanner.getBaseName "x-mono" = "x".
Proof. by vm_compute. Qed.

(** The MCP server lists [default] among the variations of every icon,
    the scanner only the variations of the files it saw. *)
Remark mcp_lists_default (localeCompare : string → string → Z) (joinBase : string → string) :
  map McpServer.variations
      (McpServer.loadIcons joinBase (Fs.DirListing ["aws-color.svg"]))
  = [["default"; "color"]]
  ∧ map Scanner.variations
        (Scanner.scanIcons localeCompare (Fs.DirListing ["aws-color.svg"]))
    = [["color"]].
Proof. by vm_compute. Qed.

End SiblingFacts.

(** * Further properties *)

(** ** White space at the ends of a string *)

Module TrimFacts.

Import Spec StringFacts.

Lemma trimStart_ws1 (a : ascii) (s : string) :
  Js.is_ws a = true → Js.trimStart (String a s) = Js.trimStart s.
Proof. intros H. cbn [Js.trimStart]. by rewrite H. Qed.

Lemma trimStart_ws2 (a b : ascii) (s : string) :
  Js.is_ws a = false → Js.is_ws2 a b = true →
  Js.trimStart (String a (String b s)) = Js.trimStart s.
Proof. intros H1 H2. cbn [Js.trimStart]. by rewrite H1, H2. Qed.

Lemma trimStart_ws3 (a b c : ascii) (s : string) :
  Js.is_ws a = false → Js.is_ws2 a b = false → Js.is_ws3 a b c = true →
  Js.trimStart (String a (String b (String c s))) = Js.trimStart s.
Proof. intros H1 H2 H3. cbn [Js.trimStart]. by rewrite H1, H2, H3. Qed.

Lemma trimStart_one (a : ascii) :
  Js.is_ws a = false → Js.trimStart (String a "") = String a "".
Proof. intros H. cbn [Js.trimStart]. by rewrite H. Qed.

Lemma trimStart_two (a b : ascii) :
  Js.is_ws a = false → Js.is_ws2 a b = false →
  Js.trimStart (String a (String b "")) = String a (String b "").
Proof. intros H1 H2. cbn [Js.trimStart]. by rewrite H1, H2. Qed.

Lemma trimStart_three (a b c : ascii) (s : string) :
  Js.is_ws a = false → Js.is_ws2 a b = false → Js.is_ws3 a b c = false →
  Js.trimStart (String a (String b (String c s))) = String a (String b (String c s)).
Proof. intros H1 H2 H3. cbn [Js.trimStart]. by rewrite H1, H2, H3. Qed.

(** The cases of [trimStart]: a white space of one, two or three bytes
    at the start, or none. *)
Lemma trimStart_cases (P : string → Prop) :
  P "" →
  (∀ a s, Js.is_ws a = true → P s → P (String a s)) →
  (∀ a b s, Js.is_ws a = false → Js.is_ws2 a b = true → P s →
            P (String a (String b s))) →
  (∀ a b c s, Js.is_ws a = false → Js.is_ws2 a b = false → Js.is_ws3 a b c = true →
              P s → P (String a (String b (String c s)))) →
  (∀ a, Js.is_ws a = false → P (String a "")) →
  (∀ a b, Js.is_ws a = false → Js.is_ws2 a b = false → P (String a (String b ""))) →
  (∀ a b c s, Js.is_ws a = false → Js.is_ws2 a b = false → Js.is_ws3 a b c = false →
              P (String a (String b (String c s)))) →
  ∀ s, P s.
Proof.
  intros H0 H1 H2 H3 H4 H5 H6.
  assert (∀ s, P s ∧ (∀ a, P (String a s)) ∧ (∀ a b, P (String a (String b s))))
    as Hall; [|intros s; by destruct (Hall s)].
  induction s as [|c s (IH0 & IH1 & IH2)].
  - split; [done|]. split.
    + intros a. destruct (Js.is_ws a) eqn:E; [by apply H1 | by apply H4].
    + intros a b. destruct (Js.is_ws a) eqn:E1.
      * apply H1; [done|]. destruct (Js.is_ws b) eqn:E; [by apply H1 | by apply H4].
      * destruct (Js.is_ws2 a b) eqn:E2; [by apply H2 | by apply H5].
  - split; [apply IH1|]. split; [intros a; apply IH2|].
    intros a b. destruct (Js.is_ws a) eqn:E1; [apply H1; [done | apply IH2]|].
    destruct (Js.is_ws2 a b) eqn:E2; [apply H2; [done | done | apply IH1]|].
    destruct (Js.is_ws3 a b c) eqn:E3; [by apply H3 | by apply H6].
Qed.

Lemma trimStart_tail (s : string) : ∃ before, s = before +:+ Js.trimStart s.
Proof.
  induction s as [|a s Ha [before IH]|a b s Ha Hb [before IH]
                 |a b c s Ha Hb Hc [before IH]|a Ha|a b Ha Hb|a b c s Ha Hb Hc]
    using trimStart_cases.
  - by exists "".
  - exists (String a before). by rewrite trimStart_ws1, str_app_cons, <- IH.
  - exists (String a (String b before)).
    by rewrite trimStart_ws2, !str_app_cons, <- IH.
  - exists (String a (String b (String c before))).
    by rewrite trimStart_ws3, !str_app_cons, <- IH.
  - exists "". by rewrite trimStart_one.
  - exists "". by rewrite trimStart_two.
  - exists "". by rewrite trimStart_three.
Qed.

Lemma trimEnd_cons (c : ascii) (s : string) :
  Js.trimEnd (String c s) =
  if Js.blank (String c s) then "" else String c (Js.trimEnd s).
Proof. reflexivity. Qed.

Lemma trimEnd_head (s : string) : ∃ after, s = Js.trimEnd s +:+ after.
Proof.
  induction s as [|c s [after IH]]; [by exists ""|]. rewrite trimEnd_cons.
  destruct (Js.blank (String c s)).
  - exists (String c s). by rewrite str_app_nil_l.
  - exists after. by rewrite str_app_cons, <- IH.
Qed.

Lemma trim_substring (s : string) : substring (Js.trim s) s.
Proof.
  destruct (trimStart_tail s) as [before Hs].
  destruct (trimEnd_head (Js.trimStart s)) as [after Ht].
  exists before, after. unfold Js.trim. by rewrite <- Ht.
Qed.

(** *** Lower case keeps white space *)

Lemma lower_char_nat (c : ascii) :
  Js.lower_char c = c
  ∨ ((nat_of_ascii c ≤ 90)%nat ∧ (nat_of_ascii (Js.lower_char c) ≤ 122)%nat).
Proof.
  destruct c as [[] [] [] [] [] [] [] []];
    first [by left | right; vm_compute; lia].
Qed.

Lemma is_ws_lower (c : ascii) : Js.is_ws (Js.lower_char c) = Js.is_ws c.
Proof. by destruct c as [[] [] [] [] [] [] [] []]. Qed.

Lemma byte_is_lower (n : nat) (c : ascii) :
  (128 ≤ n)%nat → Js.byte_is n (Js.lower_char c) = Js.byte_is n c.
Proof.
  intros Hn. destruct (lower_char_nat c) as [->|[H1 H2]]; [done|].
  unfold Js.byte_is.
  rewrite (proj2 (Nat.eqb_neq _ _)) by lia.
  by rewrite (proj2 (Nat.eqb_neq _ _)) by lia.
Qed.

Lemma high_range_lower (c : ascii) :
  (128 <=? nat_of_ascii (Js.lower_char c))%nat = (128 <=? nat_of_ascii c)%nat.
Proof.
  destruct (lower_char_nat c) as [->|[H1 H2]]; [done|].
  rewrite (proj2 (Nat.leb_gt _ _)) by lia.
  by rewrite (proj2 (Nat.leb_gt _ _)) by lia.
Qed.

Lemma is_ws2_lower (a b : ascii) :
  Js.is_ws2 (Js.lower_char a) (Js.lower_char b) = Js.is_ws2 a b.
Proof. unfold Js.is_ws2. by rewrite !byte_is_lower by lia. Qed.

Lemma is_ws3_lower (a b c : ascii) :
  Js.is_ws3 (Js.lower_char a) (Js.lower_char b) (Js.lower_char c) = Js.is_ws3 a b c.
Proof.
  unfold Js.is_ws3. rewrite !byte_is_lower by lia. rewrite high_range_lower.
  destruct (lower_char_nat c) as [->|[H1 H2]]; [done|].
  rewrite (proj2 (Nat.leb_gt 128 (nat_of_ascii c))) by lia. done.
Qed.

Lemma trimStart_lower (s : string) :
  Js.trimStart (Js.toLowerCase s) = Js.toLowerCase (Js.trimStart s).
Proof.
  induction s as [|a s Ha IH|a b s Ha Hb IH|a b c s Ha Hb Hc IH|a Ha|a b Ha Hb
                 |a b c s Ha Hb Hc] using trimStart_cases;
    cbn [Js.toLowerCase].
  - done.
  - by rewrite !trimStart_ws1 by by rewrite ?is_ws_lower.
  - by rewrite !trimStart_ws2 by by rewrite ?is_ws_lower, ?is_ws2_lower.
  - by rewrite !trimStart_ws3
      by by rewrite ?is_ws_lower, ?is_ws2_lower, ?is_ws3_lower.
  - by rewrite !trimStart_one by by rewrite ?is_ws_lower.
  - by rewrite !trimStart_two by by rewrite ?is_ws_lower, ?is_ws2_lower.
  - by rewrite !trimStart_three
      by by rewrite ?is_ws_lower, ?is_ws2_lower, ?is_ws3_lower.
Qed.

Lemma lower_nil (s : string) : Js.toLowerCase s = "" ↔ s = "".
Proof. by destruct s. Qed.

Lemma blank_lower (s : string) : Js.blank (Js.toLowerCase s) = Js.blank s.
Proof.
  unfold Js.blank. rewrite trimStart_lower.
  by destruct (Js.trimStart s).
Qed.

Lemma trimEnd_lower (s : string) :
  Js.trimEnd (Js.toLowerCase s) = Js.toLowerCase (Js.trimEnd s).
Proof.
  induction s as [|c s IH]; [done|].
  change (Js.toLowerCase (String c s))
    with (String (Js.lower_char c) (Js.toLowerCase s)) at 1.
  rewrite !trimEnd_cons.
  change (String (Js.lower_char c) (Js.toLowerCase s))
    with (Js.toLowerCase (String c s)).
  rewrite blank_lower. destruct (Js.blank (String c s)); [done|].
  cbn [Js.toLowerCase]. by rewrite IH.
Qed.

Lemma trim_lower (s : string) : Js.trim (Js.toLowerCase s) = Js.toLowerCase (Js.trim s).
Proof. unfold Js.trim. by rewrite trimStart_lower, trimEnd_lower. Qed.

(** *** Strings that end with a character of ASCII *)

Lemma byte_is_low (n : nat) (c : ascii) :
  (nat_of_ascii c < 128)%nat → (128 ≤ n)%nat → Js.byte_is n c = false.
Proof. intros Hc Hn. unfold Js.byte_is. apply Nat.eqb_neq. lia. Qed.

Lemma is_ws2_low_l (a b : ascii) : (nat_of_ascii a < 128)%nat → Js.is_ws2 a b = false.
Proof. intros H. unfold Js.is_ws2. by rewrite (byte_is_low 194) by lia. Qed.

Lemma is_ws2_low_r (a b : ascii) : (nat_of_ascii b < 128)%nat → Js.is_ws2 a b = false.
Proof.
  intros H. unfold Js.is_ws2. rewrite (byte_is_low 160 b) by lia. apply andb_false_r.
Qed.

Lemma is_ws3_low_l (a b c : ascii) :
  (nat_of_ascii a < 128)%nat → Js.is_ws3 a b c = false.
Proof.
  intros H. unfold Js.is_ws3.
  by rewrite (byte_is_low 225), (byte_is_low 226), (byte_is_low 227),
    (byte_is_low 239) by lia.
Qed.

Lemma is_ws3_low_r (a b c : ascii) :
  (nat_of_ascii c < 128)%nat → Js.is_ws3 a b c = false.
Proof.
  intros H. unfold Js.is_ws3.
  rewrite (byte_is_low 128 c), (byte_is_low 168 c), (byte_is_low 169 c),
    (byte_is_low 175 c), (byte_is_low 159 c), (byte_is_low 191 c) by lia.
  rewrite (proj2 (Nat.leb_gt 128 (nat_of_ascii c))) by lia.
  rewrite !andb_false_r. done.
Qed.

Lemma trimStart_ascii (c : ascii) (s : string) :
  Js.is_ws c = false → (nat_of_ascii c < 128)%nat →
  Js.trimStart (String c s) = String c s.
Proof.
  intros Hws Hc. destruct s as [|b [|d s]].
  - by apply trimStart_one.
  - apply trimStart_two; [done | by apply is_ws2_low_l].
  - apply trimStart_three; [done | by apply is_ws2_low_l | by apply is_ws3_low_l].
Qed.

Lemma last_char_tail (c : ascii) (s : string) (d : ascii) :
  s ≠ "" → last_char (String c s) = Some d → last_char s = Some d.
Proof.
  destruct s as [|c' s]; [done|]. intros _. cbn [last_char].
  by destruct (last_char s).
Qed.

Lemma last_char_one (c d : ascii) : last_char (String c "") = Some d → c = d.
Proof. by intros [= ->]. Qed.

(** A string that ends with a character of ASCII that is not white
    space is not blank. *)
Lemma trimStart_last (s : string) (d : ascii) :
  last_char s = Some d → Js.is_ws d = false → (nat_of_ascii d < 128)%nat →
  Js.trimStart s ≠ "".
Proof.
  intros Hlast Hd Hlow. revert Hlast.
  induction s as [|a s Ha IH|a b s Ha Hb IH|a b c s Ha Hb Hc IH|a Ha|a b Ha Hb
                 |a b c s Ha Hb Hc] using trimStart_cases; intros Hlast.
  - done.
  - rewrite trimStart_ws1 by done. apply IH.
    destruct s as [|x s]; [|by apply (last_char_tail a)].
    apply last_char_one in Hlast as ->. congruence.
  - rewrite trimStart_ws2 by done. apply IH.
    destruct s as [|x s]; [|by apply (last_char_tail b), (last_char_tail a)].
    apply (last_char_tail a) in Hlast; [|done]. apply last_char_one in Hlast as ->.
    rewrite is_ws2_low_r in Hb; done.
  - rewrite trimStart_ws3 by done. apply IH.
    destruct s as [|x s];
      [|by apply (last_char_tail c), (last_char_tail b), (last_char_tail a)].
    apply (last_char_tail a), (last_char_tail b) in Hlast; [|done..].
    apply last_char_one in Hlast as ->. rewrite is_ws3_low_r in Hc; done.
  - by rewrite trimStart_one.
  - by rewrite trimStart_two.
  - by rewrite trimStart_three.
Qed.

Lemma trimEnd_id (s : string) (d : ascii) :
  last_char s = Some d → Js.is_ws d = false → (nat_of_ascii d < 128)%nat →
  Js.trimEnd s = s.
Proof.
  intros Hlast Hd Hlow. induction s as [|c s IH]; [done|].
  rewrite trimEnd_cons. unfold Js.blank.
  pose proof (trimStart_last _ d Hlast Hd Hlow) as Hne.
  destruct (Js.trimStart (String c s)) eqn:E; [done|]. simpl.
  destruct s as [|c' s]; [done|].
  rewrite IH; [done|]. by apply (last_char_tail c).
Qed.

(** A string that starts and ends with characters of ASCII that are not
    white space is left as it is. *)
Lemma trim_id (c : ascii) (s : string) (d : ascii) :
  Js.is_ws c = false → (nat_of_ascii c < 128)%nat →
  last_char (String c s) = Some d → Js.is_ws d = false → (nat_of_ascii d < 128)%nat →
  Js.trim (String c s) = String c s.
Proof.
  intros Hc Hclow Hlast Hd Hdlow. unfold Js.trim.
  rewrite trimStart_ascii by done. by apply (trimEnd_id _ d).
Qed.

End TrimFacts.


(** ** The entries of the scanned catalog *)

Module ScannerEntryFacts.

Import Spec SpecMore StringFacts Scanner GroupFacts CatalogFacts.

Lemma fold_static (more : list Icon) (e : Entry) :
  let e' := fold_left (fun e icon => addVariation icon e) more e in
  fileName e' = fileName e ∧ variation e' = variation e
  ∧ displayName e' = displayName e ∧ category e' = category e
  ∧ path e' = path e ∧ tags e' = tags e.
Proof.
  revert e. induction more as [|i more IH]; intros e; simpl; [done|].
  destruct (IH (addVariation i e)) as (H1 & H2 & H3 & H4 & H5 & H6).
  by rewrite H1, H2, H3, H4, H5, H6.
Qed.

Lemma grouped_entry_metadata (files : list string) (e : Entry) :
  e ∈ groupIcons (map makeIcon files) →
  ∃ f, f ∈ files
       ∧ fileName e = f
       ∧ name e = getBaseName (Fs.parse_name f)
       ∧ variation e = getVariation (Fs.parse_name f)
       ∧ path e = "lobe-icons/packages/static-svg/icons/" +:+ f
       ∧ category e = categorizeIcon (name e)
       ∧ displayName e = formatDisplayName (name e)
       ∧ tags e = default [] (generateTags (name e))
       ∧ makeIconRaises f = match generateTags (name e) with
                            | Some _ => false
                            | None => true
                            end
       ∧ ∃ rest, variations e = variation e :: rest.
Proof.
  intros He. destruct (groupIcons_entry _ e He) as [first [more [Em Ee]]].
  assert (first ∈ members (name e) (map makeIcon files)) as Hf by (rewrite Em; by left).
  apply elem_of_members in Hf as [Hin Hn].
  apply list_elem_of_fmap in Hin as [f [-> Hf]].
  destruct (fold_static more (firstEntry (makeIcon f))) as (H1 & H2 & H3 & H4 & H5 & H6).
  rewrite <- Ee in H1, H2, H3, H4, H5, H6.
  exists f. rewrite H1, H2, H3, H4, H5, H6, <- Hn.
  repeat split; try done.
  exists (map icon_variation more). rewrite Ee at 1. by rewrite fold_variations.
Qed.

Lemma scanned_entry_from_file (localeCompare : string → string → Z)
    (files : list string) (e : Entry) :
  e ∈ scanIcons localeCompare (Fs.DirListing files) →
  ∃ f, f ∈ files ∧ Js.endsWith f ".svg" = true
       ∧ fileName e = f
       ∧ name e = getBaseName (Fs.parse_name f)
       ∧ variation e = getVariation (Fs.parse_name f)
       ∧ path e = "lobe-icons/packages/static-svg/icons/" +:+ f
       ∧ category e = categorizeIcon (name e)
       ∧ displayName e = formatDisplayName (name e)
       ∧ generateTags (name e) = Some (tags e)
       ∧ ∃ rest, variations e = variation e :: rest.
Proof.
  destruct (scanIcons_cases localeCompare files) as [[_ ->]|[Hok ->]];
    [by intros H%elem_of_nil|].
  intros He.
  destruct (grouped_entry_metadata _ e He)
    as (f & Hf & H1 & H2 & H3 & H4 & H5 & H6 & H7 & H8 & H9).
  rewrite Forall_forall in Hok. rewrite (Hok f Hf) in H8.
  exists f. apply list_elem_of_In, filter_In in Hf as [Hf Hsvg].
  split; [by apply list_elem_of_In|]. split; [done|].
  repeat (split; [done|]). split; [|done].
  destruct (generateTags (name e)) as [t|]; [|done]. by rewrite H7.
Qed.

(** X1. Every entry of the scanned catalog comes from one [.svg] file
    of the directory: its file name and path are those of that file,
    its name and first variation are parsed from it, and its category,
    display name and tags are those computed from its name alone, for
    which [generateTags] did not raise. *)
Theorem scanned_entry_metadata (localeCompare : string → string → Z) (files : list string) :
  Forall (fun e =>
            ∃ f, f ∈ files ∧ Js.endsWith f ".svg" = true
                 ∧ fileName e = f
                 ∧ name e = getBaseName (Fs.parse_name f)
                 ∧ variation e = getVariation (Fs.parse_name f)
                 ∧ path e = "lobe-icons/packages/static-svg/icons/" +:+ f
                 ∧ category e = categorizeIcon (name e)
                 ∧ displayName e = formatDisplayName (name e)
                 ∧ generateTags (name e) = Some (tags e)
                 ∧ ∃ rest, variations e = variation e :: rest)
         (scanIcons localeCompare (Fs.DirListing files)).
Proof.
  apply List.Forall_forall. intros e He.
  by apply (scanned_entry_from_file localeCompare), list_elem_of_In.
Qed.

Lemma includes_refl (s : string) : Js.includes s s = true.
Proof. apply includes_spec. exists "", "". by rewrite str_app_nil_r. Qed.

Lemma generateTags_head (n : string) (t : list string) :
  generateTags n = Some t → ∃ more, t = n :: categorizeIcon n :: more.
Proof.
  unfold generateTags. destruct (alternatives !! n) as [more|].
  - intros [= <-]. by exists more.
  - destruct (Js.inherited n); [done|]. intros [= <-]. by exists [].
Qed.

(** X2. When no base name of the directory, as it is or in lower case,
    is a name inherited from [Object.prototype], the HTTP search finds
    every entry of the scanned catalog by any of its tags, among them
    its own name and its category; and the filter on the category of
    an entry keeps that entry. *)
Theorem scanned_entry_is_searchable (localeCompare : string → string → Z)
    (files : list string) :
  ownStems files →
  let catalog := scanIcons localeCompare (Fs.DirListing files) in
  Forall (fun e =>
            name e ∈ tags e ∧ category e ∈ tags e
            ∧ (∀ s, s ∈ tags e → e ∈ apiFilter catalog None (Some s))
            ∧ e ∈ apiFilter catalog (Some (category e)) None)
         catalog.
Proof.
  intros _ catalog. apply List.Forall_forall. intros e He.
  destruct (scanned_entry_from_file localeCompare files e)
    as (f & _ & _ & _ & _ & _ & _ & Hcat & _ & Htags & _);
    [by apply list_elem_of_In|].
  destruct (generateTags_head (name e) (tags e) Htags) as [more Hhead].
  rewrite Hhead, Hcat.
  split; [by left|]. split; [right; by left|]. split.
  - intros s Hs. rewrite SearchClaims.apiFilter_eq.
    apply list_elem_of_In, filter_In. split; [done|]. simpl.
    unfold apiSearchTest. destruct (Js.truthy s); [|done].
    rewrite Hhead. apply orb_true_iff. right.
    apply existsb_exists. exists s. split; [by apply list_elem_of_In|].
    apply includes_refl.
  - rewrite SearchClaims.apiFilter_eq.
    apply list_elem_of_In, filter_In. split; [done|].
    rewrite andb_true_r. unfold apiCategoryTest.
    destruct (_ && _); [|done]. rewrite Hcat. apply String.eqb_refl.
Qed.

Lemma scanned_entry_is_searchable_witness :
  ownStems ["github.svg"; "figma-color.svg"; "notes.txt"]
  ∧ Forall (fun e => name e ∈ tags e ∧ category e ∈ tags e)
           (scanIcons codeUnitCompare
              (Fs.DirListing ["github.svg"; "figma-color.svg"; "notes.txt"])).
Proof.
  assert (ownStems ["github.svg"; "figma-color.svg"; "notes.txt"]) as Hown.
  { apply (bool_decide_unpack _). by vm_compute. }
  split; [exact Hown|].
  eapply Forall_impl;
    [apply (scanned_entry_is_searchable codeUnitCompare
              ["github.svg"; "figma-color.svg"; "notes.txt"] Hown)|].
  simpl. intros e (H1 & H2 & _). by split.
Defined.

End ScannerEntryFacts.

(** ** The manifest and the pages of the HTTP handler *)

Module ScannerApiFacts.

Import Spec SpecMore StringFacts SearchFacts Scanner ScannerApi.

Lemma sum_list_perm (l1 l2 : list nat) : l1 ≡ₚ l2 → sum_list l1 = sum_list l2.
Proof. induction 1; simpl; lia. Qed.

Lemma sumValues_empty : sumValues ∅ = 0.
Proof. unfold sumValues. by rewrite map_to_list_empty. Qed.

Lemma sumValues_insert_new (m : gmap string nat) (k : string) (n : nat) :
  m !! k = None → sumValues (<[k := n]> m) = n + sumValues m.
Proof.
  intros H. unfold sumValues.
  by rewrite (sum_list_perm _ _ (fmap_Permutation snd _ _ (map_to_list_insert m k n H))).
Qed.

Lemma sumValues_bump (m : gmap string nat) (k : string) :
  sumValues (<[k := countOf m k + 1]> m) = sumValues m + 1.
Proof.
  unfold countOf. destruct (m !! k) as [n|] eqn:E.
  - assert (sumValues m = n + sumValues (delete k m)) as Hm.
    { unfold sumValues.
      by rewrite <- (sum_list_perm _ _
                       (fmap_Permutation snd _ _ (map_to_list_delete m k n E))). }
    rewrite <- (insert_delete_eq m k (n + 1)).
    rewrite sumValues_insert_new by apply lookup_delete_eq. lia.
  - rewrite sumValues_insert_new by done. lia.
Qed.

Lemma countOf_bump (m : gmap string nat) (k c : string) :
  countOf (<[k := countOf m k + 1]> m) c =
  countOf m c + (if String.eqb k c then 1 else 0).
Proof.
  unfold countOf at 1. destruct (String.eqb k c) eqn:E.
  - apply String.eqb_eq in E as ->. by rewrite lookup_insert_eq.
  - apply String.eqb_neq in E. rewrite lookup_insert_ne by done.
    unfold countOf. lia.
Qed.

Lemma stats_fold (icons : list Entry) (m : gmap string nat) :
  let stats := fold_left (fun stats icon =>
                            <[ category icon := countOf stats (category icon) + 1 ]> stats)
                         icons m in
  sumValues stats = sumValues m + length icons
  ∧ ∀ c, countOf stats c =
         countOf m c + length (List.filter (fun e => String.eqb (category e) c) icons).
Proof.
  revert m. induction icons as [|e icons IH]; intros m; simpl.
  - split; [lia | intros c; lia].
  - destruct (IH (<[category e := countOf m (category e) + 1]> m)) as [H1 H2].
    split.
    + rewrite H1, sumValues_bump. lia.
    + intros c. rewrite H2, countOf_bump.
      destruct (String.eqb (category e) c); simpl; lia.
Qed.

Lemma stats_positive (icons : list Entry) (m : gmap string nat) (c : string) (n : nat) :
  (∀ c n, m !! c = Some n → 0 < n) →
  fold_left (fun stats icon =>
               <[ category icon := countOf stats (category icon) + 1 ]> stats)
            icons m !! c = Some n →
  0 < n.
Proof.
  revert m. induction icons as [|e icons IH]; intros m Hm; simpl.
  - apply Hm.
  - apply IH. intros c' n' H.
    apply lookup_insert_Some in H as [[_ <-]|[_ H]]; [lia | by apply (Hm c')].
Qed.

(** X3. [getCategoryStats] counts the entries of each category: the
    count of a category is the number of entries that have it, a
    category of no entry has no count, and the counts add up to the
    number of entries, which is the [total] of the manifest. *)
Theorem category_stats_count (now : string) (icons : list Entry) :
  let stats := getCategoryStats icons in
  (∀ c, stats !! c =
        match length (List.filter (fun e => String.eqb (category e) c) icons) with
        | O => None
        | S n => Some (S n)
        end)
  ∧ sumValues stats = length icons
  ∧ sumValues (m_categories (generateManifest now icons))
    = m_total (generateManifest now icons).
Proof.
  intros stats. destruct (stats_fold icons ∅) as [Hsum Hcount].
  fold (getCategoryStats icons) in Hsum, Hcount. fold stats in Hsum, Hcount.
  rewrite sumValues_empty in Hsum. simpl in Hsum.
  split; [|by split].
  intros c. specialize (Hcount c). unfold countOf in Hcount.
  rewrite lookup_empty in Hcount. simpl in Hcount.
  destruct (stats !! c) as [n|] eqn:E.
  - assert (0 < n) as Hpos.
    { apply (stats_positive icons ∅ c n); [|done]. intros ? ? H.
      by rewrite lookup_empty in H. }
    rewrite <- Hcount. destruct n; [lia | done].
  - by rewrite <- Hcount.
Qed.

Lemma slice_window {A} (l : list A) (start count : Z) :
  (0 ≤ start)%Z → (0 ≤ count)%Z →
  Js.slice l start (start + count) =
  take (Z.to_nat count) (drop (Z.to_nat start) l).
Proof.
  intros Hs Hc. unfold Js.slice, Js.clamp_index.
  replace (start <? 0)%Z with false by (symmetry; apply Z.ltb_ge; lia).
  replace (start + count <? 0)%Z with false by (symmetry; apply Z.ltb_ge; lia).
  destruct (decide (Z.of_nat (length l) ≤ start)%Z) as [Hbig|Hsmall].
  - rewrite !drop_ge by lia. by rewrite !take_nil.
  - rewrite (Z.min_l start) by lia.
    destruct (Z.min_spec (start + count) (Z.of_nat (length l))) as [[H ->]|[H ->]].
    + f_equal. lia.
    + rewrite !take_ge; [done | rewrite length_drop; lia | rewrite length_drop; lia].
Qed.

Lemma pages_concat {A} (l : list A) (size n : nat) :
  0 < size →
  concat (map (fun k => take size (drop (k * size) l)) (seq 0 n)) = take (n * size) l.
Proof.
  intros Hsize. induction n as [|n IH]; [done|].
  rewrite seq_S, map_app, concat_app, IH. simpl. rewrite app_nil_r.
  rewrite take_take_drop. f_equal. lia.
Qed.

Lemma pageIcons_eq (manifest : Manifest) (category search : option string) (page limit : Z) :
  (0 ≤ page)%Z → (0 < limit)%Z →
  pageIcons manifest category search page limit =
  take (Z.to_nat limit)
       (drop (Z.to_nat page * Z.to_nat limit)
             (apiFilter (m_icons manifest) category search)).
Proof.
  intros Hp Hl. unfold pageIcons, handleIconsAPI. cbn [r_icons].
  replace (limit =? 0)%Z with false by (symmetry; apply Z.eqb_neq; lia).
  rewrite slice_window by lia. do 2 f_equal. lia.
Qed.

(** X4. The pages of the HTTP handler, for a page size that is positive,
    cut the filtered list into consecutive pieces: the first [n] pages
    put end to end are its first [n * limit] entries, [total] is its
    length whatever the page, and [hasMore] says exactly that the next
    page is not empty.  A limit of 0 or one that is not a number gives
    the page size 24, and a manifest that cannot be read the answer
    500. *)
Theorem api_pages_partition (manifest : Manifest) (category search : option string)
    (limit : Z) :
  (0 < limit)%Z →
  let filtered := apiFilter (m_icons manifest) category search in
  (∀ n : nat,
     concat (map (fun k => pageIcons manifest category search (Z.of_nat k) limit)
                 (seq 0 n))
     = take (n * Z.to_nat limit) filtered)
  ∧ (∀ page : nat,
       ∃ r, handleIconsAPI (Some manifest) category search
                           (Some (Z.of_nat page)) (Some limit) = Ok200 r
            ∧ r_total r = length filtered
            ∧ r_icons r = pageIcons manifest category search (Z.of_nat page) limit
            ∧ (length (r_icons r) ≤ Z.to_nat limit)%nat
            ∧ (r_hasMore r = true ↔
               pageIcons manifest category search (Z.of_nat (S page)) limit ≠ []))
  ∧ handleIconsAPI (Some manifest) category search None (Some 0%Z)
    = handleIconsAPI (Some manifest) category search None (Some 24%Z)
  ∧ handleIconsAPI (Some manifest) category search None None
    = handleIconsAPI (Some manifest) category search None (Some 24%Z)
  ∧ handleIconsAPI None category search None (Some limit)
    = Error500 "Failed to load icons".
Proof.
  intros Hl filtered. split; [|split; [|done]].
  - intros n. rewrite <- (pages_concat filtered (Z.to_nat limit) n) by lia.
    f_equal. apply map_ext. intros k. rewrite pageIcons_eq by lia.
    by rewrite Nat2Z.id.
  - intros page. eexists. split; [reflexivity|]. cbn [r_total r_icons r_hasMore].
    replace (limit =? 0)%Z with false by (symmetry; apply Z.eqb_neq; lia).
    fold filtered. split; [done|]. split.
    { unfold pageIcons, handleIconsAPI. cbn [r_icons].
      by replace (limit =? 0)%Z with false by (symmetry; apply Z.eqb_neq; lia). }
    split.
    { rewrite slice_window by lia. rewrite length_take. lia. }
    rewrite pageIcons_eq by lia. fold filtered.
    rewrite Z.ltb_lt. split.
    + intros H Hnil. apply (f_equal length) in Hnil.
      rewrite length_take, length_drop in Hnil. simpl in Hnil. nia.
    + intros Hne. destruct (decide (Z.of_nat page * limit + limit
                                    < Z.of_nat (length filtered))%Z); [done|].
      destruct Hne. rewrite drop_ge; [by rewrite take_nil|]. nia.
Qed.

Lemma api_pages_partition_witness :
  (0 < 2)%Z
  ∧ ∀ n : nat,
      concat (map (fun k => pageIcons (generateManifest "2024-01-01T00:00:00.000Z"
                                                        Spec.sampleEntries)
                                      None None (Z.of_nat k) 2)
                  (seq 0 n))
      = take (n * Z.to_nat 2)
             (apiFilter (m_icons (generateManifest "2024-01-01T00:00:00.000Z"
                                                   Spec.sampleEntries)) None None).
Proof.
  split; [lia|].
  apply (api_pages_partition
           (generateManifest "2024-01-01T00:00:00.000Z" Spec.sampleEntries)
           None None 2).
  lia.
Defined.

End ScannerApiFacts.

(** ** Display names *)

Module DisplayNameFacts.

Import Spec SpecMore StringFacts Scanner.

Lemma plainChar_facts (c : ascii) :
  plainChar c = true →
  Js.is_upper c = false ∧ Js.is_ws c = false ∧ Js.lower_char c = c
  ∧ Js.is_ws (Js.upper_char c) = false
  ∧ Ascii.eqb c "-" = false ∧ Ascii.eqb c "_" = false ∧ Ascii.eqb c " " = false.
Proof.
  destruct c as [[] [] [] [] [] [] [] []]; vm_compute; intros H;
    first [discriminate H | done].
Qed.

Lemma plainChar_low (c : ascii) :
  plainChar c = true →
  (nat_of_ascii c < 128)%nat ∧ (nat_of_ascii (Js.upper_char c) < 128)%nat.
Proof.
  destruct c as [[] [] [] [] [] [] [] []]; intros H;
    first [discriminate H | vm_compute; lia].
Qed.

Lemma plainWord_cons (c : ascii) (s : string) :
  plainWord (String c s) = true ↔ plainChar c = true ∧ plainWord s = true.
Proof. simpl. apply andb_true_iff. Qed.

Lemma replace_app (a b : string) :
  Js.replace_dash_underscore (a +:+ b) =
  Js.replace_dash_underscore a +:+ Js.replace_dash_underscore b.
Proof.
  induction a as [|c a IH]; [done|]. rewrite str_app_cons. simpl.
  by rewrite IH, str_app_cons.
Qed.

Lemma replace_plain (w : string) :
  plainWord w = true → Js.replace_dash_underscore w = w.
Proof.
  induction w as [|c w IH]; [done|]. intros [Hc Hw]%plainWord_cons. simpl.
  destruct (plainChar_facts c Hc) as (_ & _ & _ & _ & -> & -> & _). simpl.
  by rewrite IH.
Qed.

Lemma join_cons2 (sep w w' : string) (ws : list string) :
  Js.join sep (w :: w' :: ws) = w +:+ sep +:+ Js.join sep (w' :: ws).
Proof. reflexivity. Qed.

Lemma replace_join (sep : string) (words : list string) :
  sep = "-" ∨ sep = "_" →
  Forall (fun w => plainWord w = true) words →
  Js.replace_dash_underscore (Js.join sep words) = Js.join " " words.
Proof.
  intros Hsep. induction 1 as [|w ws Hw Hws IH]; [done|].
  destruct ws as [|w' ws]; [by apply replace_plain|].
  rewrite !join_cons2, !replace_app, IH, replace_plain by done.
  by destruct Hsep as [-> | ->].
Qed.

Lemma capitals_app (a b : string) :
  Js.space_before_capitals (a +:+ b) =
  Js.space_before_capitals a +:+ Js.space_before_capitals b.
Proof.
  induction a as [|c a IH]; [done|]. rewrite str_app_cons. simpl.
  destruct (Js.is_upper c); by rewrite IH, !str_app_cons.
Qed.

Lemma capitals_plain (w : string) :
  plainWord w = true → Js.space_before_capitals w = w.
Proof.
  induction w as [|c w IH]; [done|]. intros [Hc Hw]%plainWord_cons. simpl.
  destruct (plainChar_facts c Hc) as (-> & _). by rewrite IH.
Qed.

Lemma capitals_join (words : list string) :
  Forall (fun w => plainWord w = true) words →
  Js.space_before_capitals (Js.join " " words) = Js.join " " words.
Proof.
  induction 1 as [|w ws Hw Hws IH]; [done|].
  destruct ws as [|w' ws]; [by apply capitals_plain|].
  by rewrite !join_cons2, !capitals_app, IH, capitals_plain.
Qed.

Lemma split_plain_then (w rest : string) :
  plainWord w = true →
  Js.split_space (w +:+ " " +:+ rest) = w :: Js.split_space rest.
Proof.
  induction w as [|c w IH]; [done|]. intros [Hc Hw]%plainWord_cons.
  rewrite str_app_cons. cbn [Js.split_space].
  destruct (plainChar_facts c Hc) as (_ & _ & _ & _ & _ & _ & ->).
  by rewrite IH.
Qed.

Lemma split_plain (w : string) :
  plainWord w = true → Js.split_space w = [w].
Proof.
  induction w as [|c w IH]; [done|]. intros [Hc Hw]%plainWord_cons.
  cbn [Js.split_space].
  destruct (plainChar_facts c Hc) as (_ & _ & _ & _ & _ & _ & ->).
  by rewrite IH.
Qed.

Lemma split_join (words : list string) :
  words ≠ [] →
  Forall (fun w => plainWord w = true) words →
  Js.split_space (Js.join " " words) = words.
Proof.
  intros Hne. induction 1 as [|w ws Hw Hws IH]; [done|].
  destruct ws as [|w' ws]; [by apply split_plain|].
  rewrite join_cons2, split_plain_then, IH; done.
Qed.

Lemma capitalize_plain (c : ascii) (w : string) :
  plainWord (String c w) = true →
  capitalize (String c w) = String (Js.upper_char c) w.
Proof.
  intros [Hc Hw]%plainWord_cons. unfold capitalize. simpl. f_equal.
  clear c Hc. induction w as [|c w IH]; [done|].
  apply plainWord_cons in Hw as [Hc Hw]. simpl.
  destruct (plainChar_facts c Hc) as (_ & _ & -> & _). by rewrite IH.
Qed.

Lemma last_char_capitalize (w : string) :
  w ≠ "" → plainWord w = true →
  ∃ d, last_char (capitalize w) = Some d ∧ Js.is_ws d = false
       ∧ (nat_of_ascii d < 128)%nat.
Proof.
  destruct w as [|c w]; [done|]. intros _ Hw.
  rewrite capitalize_plain by done.
  apply plainWord_cons in Hw as [Hc Hw].
  destruct (plainChar_facts c Hc) as (_ & _ & _ & Hup & _).
  destruct (plainChar_low c Hc) as [_ Hlow].
  revert c Hc Hup Hlow. induction w as [|c' w IH]; intros c Hc Hup Hlow.
  - by exists (Js.upper_char c).
  - apply plainWord_cons in Hw as [Hc' Hw].
    destruct (plainChar_facts c' Hc') as (_ & Hws & _ & Hup' & _).
    destruct (plainChar_low c' Hc') as [Hlow1 Hlow2].
    destruct w as [|c'' w].
    + by exists c'.
    + destruct (IH Hw c' Hc' Hup' Hlow2) as [d [Hd Hdws]].
      exists d. split; [|done].
      cbn [last_char] in Hd |- *.
      by destruct (last_char w).
Qed.

Lemma last_char_cons_ne (c : ascii) (s : string) :
  s ≠ "" → last_char (String c s) = last_char s.
Proof.
  destruct s as [|c' s]; [done|]. intros _. cbn [last_char].
  by destruct (last_char s).
Qed.

Lemma last_char_sep (a rest : string) :
  rest ≠ "" → last_char (a +:+ " " +:+ rest) = last_char rest.
Proof.
  intros H. rewrite last_char_app.
  - change (" " +:+ rest) with (String " " rest). by apply last_char_cons_ne.
  - done.
Qed.

Lemma join_snoc_ne (words : list string) (w : string) :
  w ≠ "" → Js.join " " (words ++ [w]) ≠ "".
Proof.
  intros Hw. destruct words as [|a words]; [done|].
  destruct words as [|b words]; simpl.
  - destruct a; [|done]. done.
  - destruct a; done.
Qed.

Lemma last_char_join (words : list string) (w : string) :
  w ≠ "" → last_char (Js.join " " (words ++ [w])) = last_char w.
Proof.
  intros Hw. induction words as [|a words IH]; [done|].
  destruct words as [|b words].
  - simpl. by apply last_char_sep.
  - change ((a :: b :: words) ++ [w]) with (a :: b :: (words ++ [w])).
    rewrite join_cons2.
    change (b :: words ++ [w]) with ((b :: words) ++ [w]).
    rewrite last_char_sep; [done | by apply join_snoc_ne].
Qed.

(** X5. A name made of words of lower-case letters and digits joined
    by dashes (or by underscores), when it is not in the table of
    special names and is not a name inherited from [Object.prototype],
    is displayed as its words, each with a capital first letter,
    separated by single spaces. *)
Theorem display_name_of_words (sep : string) (words : list string) :
  sep = "-" ∨ sep = "_" →
  words ≠ [] →
  Forall (fun w => w ≠ "" ∧ plainWord w = true) words →
  specialNames !! Js.toLowerCase (Js.join sep words) = None →
  Js.inherited (Js.toLowerCase (Js.join sep words)) = false →
  formatDisplayName (Js.join sep words) = Js.join " " (map capitalize words).
Proof.
  intros Hsep Hne Hwords Hspecial _.
  assert (Forall (fun w => plainWord w = true) words) as Hplain.
  { eapply Forall_impl; [exact Hwords|]. by intros w [_ H]. }
  unfold formatDisplayName. rewrite Hspecial.
  rewrite replace_join, capitals_join, split_join by done.
  (* the joined capitalised words have no white space at either end *)
  destruct words as [|w ws]; [done|].
  apply Forall_cons in Hwords as [[Hw1 Hw2] Hws].
  destruct w as [|c w]; [done|].
  pose proof Hw2 as Hw2'. apply plainWord_cons in Hw2' as [Hc _].
  destruct (plainChar_facts c Hc) as (_ & _ & _ & Hup & _).
  destruct (plainChar_low c Hc) as [_ Huplow].
  assert (∃ rest, Js.join " " (map capitalize (String c w :: ws))
                  = String (Js.upper_char c) rest) as [rest Hrest].
  { simpl. rewrite capitalize_plain by done.
    destruct (map capitalize ws); [by eexists | by eexists]. }
  assert (∃ d, last_char (Js.join " " (map capitalize (String c w :: ws))) = Some d
               ∧ Js.is_ws d = false ∧ (nat_of_ascii d < 128)%nat)
    as (d & Hd & Hdws & Hdlow).
  { destruct (exists_last (l := String c w :: ws)) as [init [lastw Hl]]; [done|].
    rewrite Hl, map_app. simpl map at 2.
    assert (lastw ≠ "" ∧ plainWord lastw = true) as [Hl1 Hl2].
    { assert (Forall (fun w => w ≠ "" ∧ plainWord w = true) (String c w :: ws)) as Hall
        by (by constructor).
      rewrite Hl in Hall. apply Forall_app in Hall as [_ Hall].
      apply List.Forall_inv in Hall. exact Hall. }
    rewrite last_char_join.
    - by apply last_char_capitalize.
    - destruct lastw as [|x lastw]; [done|]. by rewrite capitalize_plain. }
  rewrite Hrest in Hd |- *. by apply (TrimFacts.trim_id _ _ d).
Qed.

Lemma display_name_of_words_witness :
  ("-" = "-" ∨ "-" = "_")
  ∧ ["my"; "icon"; "2"] ≠ []
  ∧ Forall (fun w => w ≠ "" ∧ plainWord w = true) ["my"; "icon"; "2"]
  ∧ specialNames !! Js.toLowerCase (Js.join "-" ["my"; "icon"; "2"]) = None
  ∧ Js.inherited (Js.toLowerCase (Js.join "-" ["my"; "icon"; "2"])) = false
  ∧ formatDisplayName (Js.join "-" ["my"; "icon"; "2"])
    = Js.join " " (map capitalize ["my"; "icon"; "2"]).
Proof.
  assert (Forall (fun w => w ≠ "" ∧ plainWord w = true) ["my"; "icon"; "2"]) as H.
  { repeat constructor; done. }
  split; [by left|]. split; [done|]. split; [exact H|]. split; [by vm_compute|].
  split; [by vm_compute|].
  apply (display_name_of_words "-" ["my"; "icon"; "2"]);
    [by left | done | exact H | by vm_compute | by vm_compute].
Defined.

End DisplayNameFacts.

(** ** The catalog of the MCP server *)

Module McpCatalogFacts.

Import Spec SpecMore StringFacts McpServer.

Lemma map_has_keys (m : list (string * Icon)) (key : string) :
  map_has m key = true ↔ key ∈ map fst m.
Proof.
  unfold map_has. rewrite existsb_exists, list_elem_of_fmap. split.
  - intros [[k v] [Hin E]]. apply String.eqb_eq in E. simpl in E. subst.
    exists (key, v). by rewrite list_elem_of_In.
  - intros [[k v] [-> Hin]]. exists (k, v).
    split; [by apply list_elem_of_In | apply String.eqb_refl].
Qed.

Lemma map_set_keys (key : string) (v : Icon) (m : list (string * Icon)) :
  map fst (map_set key v m) =
  if map_has m key then map fst m else map fst m ++ [key].
Proof.
  induction m as [|[k w] m IH]; [done|]. unfold map_has in *. simpl.
  destruct (String.eqb k key) eqn:E; simpl; [done|].
  rewrite IH. by destruct (existsb _ m).
Qed.

Lemma map_set_elem (key : string) (v : Icon) (m : list (string * Icon))
    (k : string) (w : Icon) :
  NoDup (map fst m) →
  (k, w) ∈ map_set key v m → (k = key ∧ w = v) ∨ ((k, w) ∈ m ∧ k ≠ key).
Proof.
  induction m as [|[k0 w0] m IH]; simpl; intros Hnd H.
  - apply list_elem_of_singleton in H. injection H as -> ->. by left.
  - apply NoDup_cons in Hnd as [Hnotin Hnd].
    destruct (String.eqb k0 key) eqn:E.
    + apply String.eqb_eq in E as ->.
      apply elem_of_cons in H as [H|H].
      * injection H as -> ->. by left.
      * right. split; [by right|]. intros ->. apply Hnotin.
        apply list_elem_of_fmap. by exists (key, w).
    + apply String.eqb_neq in E.
      apply elem_of_cons in H as [H|H].
      * injection H as -> ->. right. split; [by left | done].
      * destruct (IH Hnd H) as [?|[? ?]]; [by left|]. right. split; [by right | done].
Qed.

Lemma map_set_NoDup (key : string) (v : Icon) (m : list (string * Icon)) :
  NoDup (map fst m) → NoDup (map fst (map_set key v m)).
Proof.
  intros Hnd. rewrite map_set_keys. destruct (map_has m key) eqn:E; [done|].
  apply NoDup_app. split; [done|]. split; [|apply NoDup_singleton].
  intros x Hx ->%list_elem_of_singleton.
  apply map_has_keys in Hx. congruence.
Qed.

Section WithBasePath.

Variable joinBase : string → string.

Lemma dedupStep_makeIcon (svgFiles : list string) (m : list (string * Icon)) (f : string) :
  dedupStep svgFiles m (makeIcon joinBase svgFiles f) =
  if negb (map_has m (stripSuffix (Fs.parse_name f)))
     || String.eqb (Fs.parse_name f) (stripSuffix (Fs.parse_name f))
  then map_set (stripSuffix (Fs.parse_name f)) (mcpEntryOf joinBase svgFiles f) m
  else m.
Proof. reflexivity. Qed.

Lemma deduped_step (svgFiles : list string) (m : list (string * Icon))
    (seen : list string) (f : string) :
  deduped joinBase svgFiles m seen →
  deduped joinBase svgFiles
          (dedupStep svgFiles m (makeIcon joinBase svgFiles f)) (seen ++ [f]).
Proof.
  intros (Hnd & Hval & Hcov). rewrite dedupStep_makeIcon.
  set (b := stripSuffix (Fs.parse_name f)).
  destruct (negb (map_has m b) || String.eqb (Fs.parse_name f) b) eqn:Hcase.
  - split; [by apply map_set_NoDup|]. split.
    + intros k v Hin. apply map_set_elem in Hin as [[-> ->]|[Hin Hne]]; [| |done].
      * exists f. split; [apply elem_of_app; right; by left|].
        split; [done|]. split; [done|].
        intros (g & Hg & Hstem & Hfix).
        apply orb_true_iff in Hcase as [Hnew|Heq];
          [|by apply String.eqb_eq in Heq].
        apply negb_true_iff in Hnew.
        apply elem_of_app in Hg as [Hg|Hg].
        -- apply Hcov in Hg. rewrite Hstem, Hfix in Hg.
           apply map_has_keys in Hg. congruence.
        -- apply list_elem_of_singleton in Hg as ->. done.
      * destruct (Hval k v Hin) as (f0 & Hf0 & -> & Hk & Hbase).
        exists f0. split; [apply elem_of_app; by left|].
        split; [done|]. split; [done|].
        intros (g & Hg & Hstem & Hfix).
        apply elem_of_app in Hg as [Hg|Hg]; [apply Hbase; by exists g|].
        apply list_elem_of_singleton in Hg as ->.
        exfalso. apply Hne. unfold b. by rewrite Hstem, Hfix.
    + intros g Hg. rewrite map_set_keys.
      apply elem_of_app in Hg as [Hg|Hg].
      * apply Hcov in Hg. destruct (map_has m b); [done|].
        apply elem_of_app. by left.
      * apply list_elem_of_singleton in Hg as ->. fold b.
        destruct (map_has m b) eqn:E; [by apply map_has_keys|].
        apply elem_of_app. right. by left.
  - apply orb_false_iff in Hcase as [Hhas Hne].
    apply negb_false_iff in Hhas. apply String.eqb_neq in Hne.
    split; [done|]. split.
    + intros k v Hin. destruct (Hval k v Hin) as (f0 & Hf0 & -> & Hk & Hbase).
      exists f0. split; [apply elem_of_app; by left|].
      split; [done|]. split; [done|].
      intros (g & Hg & Hstem & Hfix).
      apply elem_of_app in Hg as [Hg|Hg]; [apply Hbase; by exists g|].
      apply list_elem_of_singleton in Hg as ->.
      exfalso. apply Hne. unfold b. by rewrite Hstem, Hfix.
    + intros g Hg. apply elem_of_app in Hg as [Hg|Hg]; [by apply Hcov|].
      apply list_elem_of_singleton in Hg as ->. by apply map_has_keys.
Qed.

Lemma deduped_fold (svgFiles : list string) (fs : list string)
    (m : list (string * Icon)) (seen : list string) :
  deduped joinBase svgFiles m seen →
  deduped joinBase svgFiles
          (fold_left (dedupStep svgFiles) (map (makeIcon joinBase svgFiles) fs) m)
          (seen ++ fs).
Proof.
  revert m seen. induction fs as [|f fs IH]; intros m seen H; simpl.
  - by rewrite app_nil_r.
  - replace (seen ++ f :: fs) with ((seen ++ [f]) ++ fs) by by rewrite <- app_assoc.
    apply IH. by apply deduped_step.
Qed.

Lemma deduped_loadIcons (files : list string) :
  let svgFiles := List.filter (fun file => Js.endsWith file ".svg") files in
  ∃ m, loadIcons joinBase (Fs.DirListing files) = map snd m
       ∧ deduped joinBase svgFiles m svgFiles.
Proof.
  intros svgFiles.
  exists (fold_left (dedupStep svgFiles) (map (makeIcon joinBase svgFiles) svgFiles) []).
  split; [done|].
  apply (deduped_fold svgFiles svgFiles [] []).
  split; [constructor|]. split; [by intros k v H%elem_of_nil | by intros f H%elem_of_nil].
Qed.

Lemma deduped_names (svgFiles : list string) (m : list (string * Icon)) (seen : list string) :
  deduped joinBase svgFiles m seen → map name (map snd m) = map fst m.
Proof.
  intros (_ & Hval & _). rewrite map_map. apply map_ext_in.
  intros [k v] Hin. apply list_elem_of_In in Hin.
  destruct (Hval k v Hin) as (f & _ & -> & Hk & _). done.
Qed.

Lemma loadIcons_NoDup (files : list string) :
  NoDup (map name (loadIcons joinBase (Fs.DirListing files))).
Proof.
  destruct (deduped_loadIcons files) as (m & -> & Hd).
  rewrite (deduped_names _ _ _ Hd). by destruct Hd.
Qed.

Lemma loadIcons_entry (files : list string) (e : Icon) :
  let svgFiles := List.filter (fun file => Js.endsWith file ".svg") files in
  e ∈ loadIcons joinBase (Fs.DirListing files) →
  ∃ f, f ∈ svgFiles ∧ e = mcpEntryOf joinBase svgFiles f.
Proof.
  intros svgFiles. destruct (deduped_loadIcons files) as (m & -> & (_ & Hval & _)).
  intros ((k & w) & -> & Hin)%list_elem_of_fmap.
  destruct (Hval k w Hin) as (f & Hf & -> & _). by exists f.
Qed.

Lemma find_NoDup (icons : list Icon) (e : Icon) :
  NoDup (map name icons) → e ∈ icons → findIcon icons (name e) = Some e.
Proof.
  unfold findIcon. induction icons as [|i icons IH]; simpl; intros Hnd Hin.
  - by apply elem_of_nil in Hin.
  - apply NoDup_cons in Hnd as [Hnotin Hnd].
    apply elem_of_cons in Hin as [->|Hin]; [by rewrite String.eqb_refl|].
    destruct (String.eqb (name i) (name e)) eqn:E; [|by apply IH].
    apply String.eqb_eq in E. exfalso. apply Hnotin. rewrite E.
    apply list_elem_of_fmap. by exists e.
Qed.

Lemma getVariations_elem (baseName : string) (allFiles : list string) (v : string) :
  v ∈ getVariations baseName allFiles ↔
  v = "default"
  ∨ (v ∈ ["color"; "text"; "brand"] ∧ baseName +:+ "-" +:+ v +:+ ".svg" ∈ allFiles).
Proof.
  unfold getVariations. rewrite elem_of_cons.
  rewrite list_elem_of_In, filter_In, <- !list_elem_of_In.
  unfold Js.arr_includes. rewrite existsb_exists.
  split; (intros [?|[Hv Hf]]; [by left | right; split; [done|]]).
  - destruct Hf as (x & Hx & ->%String.eqb_eq). by apply list_elem_of_In.
  - exists (baseName +:+ "-" +:+ v +:+ ".svg").
    split; [by apply list_elem_of_In | apply String.eqb_refl].
Qed.

Lemma firstCategory_range (entries : list (string * list string)) (baseName : string) :
  firstCategory entries baseName ∈ map fst entries
  ∨ firstCategory entries baseName = "other".
Proof.
  induction entries as [|[c ks] entries IH]; simpl; [by right|].
  destruct (existsb _ ks); [left; by left|].
  destruct IH as [?|?]; [left; by right | by right].
Qed.

End WithBasePath.

(** X6. The catalog that [loadIcons] builds from a directory that can
    be read holds every base name of the [.svg] files once and no other
    name; each entry is built from one of those files, whose name,
    path, category and variations it carries, and from the file whose
    stem is the base name itself whenever there is one (the plain file
    wins over its [-color], [-text] and [-brand] versions, whatever the
    order of the directory).  The display name of an entry whose name
    is not inherited from [Object.prototype] is the special name of
    its name, or else the name with its first letter in upper case. *)
Theorem mcp_catalog_entries (joinBase : string → string) (files : list string) :
  let svgFiles := List.filter (fun file => Js.endsWith file ".svg") files in
  let catalog := loadIcons joinBase (Fs.DirListing files) in
  NoDup (map name catalog)
  ∧ (∀ n, n ∈ map name catalog ↔
          ∃ f, f ∈ svgFiles ∧ stripSuffix (Fs.parse_name f) = n)
  ∧ Forall (fun e =>
              ∃ f, f ∈ svgFiles
                   ∧ filename e = f
                   ∧ path e = joinBase f
                   ∧ name e = stripSuffix (Fs.parse_name f)
                   ∧ category e = firstCategory categories (name e)
                   ∧ (Js.inherited (name e) = false →
                      displayName e =
                        lookup_or specialNames (name e)
                          (Js.toUpperCase (Js.charAt0 (name e)) +:+ Js.slice1 (name e)))
                   ∧ variations e = getVariations (name e) svgFiles
                   ∧ ((∃ g, g ∈ svgFiles ∧ Fs.parse_name g = name e
                            ∧ stripSuffix (name e) = name e) →
                      Fs.parse_name f = name e))
           catalog.
Proof.
  intros svgFiles catalog.
  destruct (deduped_loadIcons joinBase files) as (m & Hm & Hd).
  fold svgFiles in Hd. fold catalog in Hm.
  pose proof (deduped_names _ _ _ _ Hd) as Hnames.
  destruct Hd as (Hnd & Hval & Hcov).
  rewrite Hm, Hnames. split; [done|]. split.
  - intros n. split.
    + intros ((k & v) & -> & Hin)%list_elem_of_fmap.
      destruct (Hval k v Hin) as (f & Hf & _ & Hk & _). by exists f.
    + intros (f & Hf & <-). by apply Hcov.
  - apply Forall_forall. intros e ((k & v) & -> & Hin)%list_elem_of_fmap.
    destruct (Hval k v Hin) as (f & Hf & -> & Hk & Hbase). simpl.
    exists f. repeat split; try done.
    intros (g & Hg & Hstem & Hfix). rewrite Hk in *. apply Hbase. by exists g.
Qed.

(** X7. In the catalog of a directory that can be read, an entry lists
    the variation [default] and, of [color], [text] and [brand], exactly
    those for which the directory holds the file [<name>-<variation>.svg]. *)
Theorem mcp_variations_are_files (joinBase : string → string) (files : list string) :
  Forall (fun e =>
            ∀ v, v ∈ variations e ↔
                 v = "default"
                 ∨ (v ∈ ["color"; "text"; "brand"]
                    ∧ name e +:+ "-" +:+ v +:+ ".svg" ∈ files))
         (loadIcons joinBase (Fs.DirListing files)).
Proof.
  destruct (deduped_loadIcons joinBase files) as (m & -> & (_ & Hval & _)).
  apply Forall_forall. intros e ((k & w) & -> & Hin)%list_elem_of_fmap.
  destruct (Hval k w Hin) as (f & Hf & -> & Hk & _). simpl. intros v.
  rewrite getVariations_elem. split; (intros [?|[Hv Hfile]]; [by left | right; split; [done|]]).
  - apply list_elem_of_In, filter_In in Hfile as [Hfile _]. by apply list_elem_of_In.
  - apply list_elem_of_In, filter_In. split; [by apply list_elem_of_In|].
    apply endsWith_spec. exists (name (mcpEntryOf joinBase
      (List.filter (fun file => Js.endsWith file ".svg") files) f) +:+ "-" +:+ v).
    by rewrite !str_app_assoc.
Qed.

End McpCatalogFacts.

(** ** The tools of the MCP server *)

Module McpToolFacts.

Import Spec SpecMore StringFacts McpServer McpTools.

Lemma count_once (keys : list string) (c : string) :
  NoDup keys →
  sum_list (map (fun k => if String.eqb c k then 1 else 0) keys) =
  if bool_decide (c ∈ keys) then 1 else 0.
Proof.
  induction keys as [|k keys IH]; intros Hnd; [done|].
  apply NoDup_cons in Hnd as [Hnotin Hnd]. simpl. rewrite (IH Hnd).
  destruct (String.eqb c k) eqn:E.
  - apply String.eqb_eq in E as ->.
    rewrite (bool_decide_eq_true_2 (k ∈ k :: keys)) by by left.
    by rewrite (bool_decide_eq_false_2 (k ∈ keys)).
  - apply String.eqb_neq in E. destruct (bool_decide (c ∈ keys)) eqn:B.
    + apply bool_decide_eq_true in B.
      by rewrite (bool_decide_eq_true_2 (c ∈ k :: keys)) by by right.
    + apply bool_decide_eq_false in B.
      rewrite (bool_decide_eq_false_2 (c ∈ k :: keys)); [done|].
      by intros [?|?]%elem_of_cons.
Qed.

Lemma counts_cons {A} (cat : A → string) (keys : list string) (i : A) (l : list A) :
  sum_list (map (fun k => length (List.filter (fun x => String.eqb (cat x) k) (i :: l))) keys) =
  sum_list (map (fun k => if String.eqb (cat i) k then 1 else 0) keys)
  + sum_list (map (fun k => length (List.filter (fun x => String.eqb (cat x) k) l)) keys).
Proof.
  induction keys as [|k keys IH]; [done|].
  cbn [map sum_list sum_list_with]. rewrite IH. cbn [List.filter].
  destruct (String.eqb (cat i) k); simpl; lia.
Qed.

(** Counting by key counts each element once when the keys are distinct
    and every element has one of them or the key ["other"]. *)
Lemma counts_sum {A} (cat : A → string) (keys : list string) (l : list A) :
  NoDup keys → "other" ∉ keys →
  Forall (fun x => cat x ∈ keys ∨ cat x = "other") l →
  sum_list (map (fun k => length (List.filter (fun x => String.eqb (cat x) k) l)) keys)
  + length (List.filter (fun x => String.eqb (cat x) "other") l)
  = length l.
Proof.
  intros Hnd Hother. induction 1 as [|i l Hi _ IH].
  - simpl. clear. induction keys as [|k keys IHk]; [done|]. simpl. lia.
  - rewrite counts_cons, count_once by done. cbn [List.filter length].
    destruct Hi as [Hi|Hi].
    + rewrite bool_decide_eq_true_2 by done.
      replace (String.eqb (cat i) "other") with false; [lia|].
      symmetry. apply String.eqb_neq. intros E. by rewrite E in Hi.
    + rewrite Hi. rewrite bool_decide_eq_false_2 by done.
      rewrite String.eqb_refl. cbn [length]. lia.
Qed.

Lemma categories_NoDup : NoDup (map fst categories).
Proof. apply (bool_decide_unpack _). by vm_compute. Qed.

Lemma other_not_category : "other" ∉ map fst categories.
Proof. apply (bool_decide_unpack _). by vm_compute. Qed.

Lemma stats_sum (icons : list Icon) :
  Forall (fun i => category i ∈ map fst categories ∨ category i = "other") icons →
  sum_list (map snd (categoryStats icons))
  + length (List.filter (fun i => String.eqb (category i) "other") icons)
  = length icons.
Proof.
  intros H. rewrite <- (counts_sum category (map fst categories) icons
                         categories_NoDup other_not_category H).
  unfold categoryStats. by rewrite !map_map.
Qed.

Lemma loadIcons_categories (joinBase : string → string) (dir : Fs.Dir) :
  Forall (fun i => category i ∈ map fst categories ∨ category i = "other")
         (loadIcons joinBase dir).
Proof.
  apply Forall_forall. intros e He.
  assert (∃ n, category e = firstCategory categories n) as [n ->];
    [|apply McpCatalogFacts.firstCategory_range].
  destruct dir as [| |files].
  1,2: apply list_elem_of_fmap in He as (n & -> & _); by eexists.
  apply McpCatalogFacts.loadIcons_entry in He as (f & _ & ->). by eexists.
Qed.

(** X8. [getIconContent] on the catalog of a directory that can be
    read asks only for files that the directory lists: for a variation
    that the entry has, the file is one of the [.svg] files of the
    directory; for any other variation, and when none is given, it is
    the entry's own file.  What it answers is what reading that file
    gives, a failure being reported with the reader's message.  A name
    that no entry bears is an error whatever the files hold. *)
Theorem icon_content_reads_listed_file
    (joinBase : string → string) (readFile : string → string + string)
    (files : list string) :
  let svgFiles := List.filter (fun file => Js.endsWith file ".svg") files in
  let catalog := loadIcons joinBase (Fs.DirListing files) in
  (∀ icons n v,
     n ∉ map name icons →
     getIconContent joinBase readFile icons n v = inr ("Icon '" +:+ n +:+ "' not found"))
  ∧ Forall (fun e =>
              (∀ v, v ∈ variations e →
                    ∃ f, f ∈ svgFiles
                         ∧ getIconContent joinBase readFile catalog (name e) (Some v)
                           = readResult (readFile (joinBase f)))
              ∧ (∀ v, v ∉ variations e →
                      getIconContent joinBase readFile catalog (name e) (Some v)
                      = readResult (readFile (joinBase (filename e))))
              ∧ filename e ∈ svgFiles
              ∧ getIconContent joinBase readFile catalog (name e) None
                = readResult (readFile (joinBase (filename e))))
           catalog.
Proof.
  intros svgFiles catalog. split.
  - intros icons n v Hn. apply PostFacts.findIcon_None in Hn.
    unfold getIconContent. by rewrite Hn.
  - apply Forall_forall. intros e He.
    pose proof (McpCatalogFacts.find_NoDup catalog e
                  (McpCatalogFacts.loadIcons_NoDup joinBase files) He) as Hfind.
    destruct (McpCatalogFacts.loadIcons_entry joinBase files e He) as (f & Hf & Hentry).
    fold svgFiles in Hf, Hentry.
    assert (filename e ∈ svgFiles) as Hown by by rewrite Hentry.
    assert (∀ v, getIconContent joinBase readFile catalog (name e) (Some v) =
                 readResult (readFile (joinBase
                   (if negb (String.eqb v "default") && Js.arr_includes (variations e) v
                    then name e +:+ "-" +:+ v +:+ ".svg" else filename e)))) as Hget.
    { intros v. unfold getIconContent. by rewrite Hfind. }
    split; [|split; [|split; [done|]]].
    + intros v Hv. rewrite Hget.
      destruct (negb (String.eqb v "default") && Js.arr_includes (variations e) v) eqn:E;
        [|by exists (filename e)].
      apply andb_true_iff in E as [Hne _]. apply negb_true_iff, String.eqb_neq in Hne.
      exists (name e +:+ "-" +:+ v +:+ ".svg"). split; [|done].
      rewrite Hentry in Hv. simpl in Hv.
      apply McpCatalogFacts.getVariations_elem in Hv as [?|[_ Hfile]]; [done|].
      by rewrite Hentry.
    + intros v Hv. rewrite Hget.
      replace (Js.arr_includes (variations e) v) with false; [by rewrite andb_false_r|].
      symmetry. apply not_true_is_false. intros Hinc. apply Hv.
      unfold Js.arr_includes in Hinc. apply existsb_exists in Hinc as (x & Hx & E).
      apply String.eqb_eq in E as ->. by apply list_elem_of_In.
    + unfold getIconContent. by rewrite Hfind.
Qed.

(** X9. In the statistics of the MCP server every icon of its catalog
    is counted once: the counts of the categories and the number of
    icons of category [other], which has no count of its own, add up to
    the total.  The counts are those of the available categories, in
    their order. *)
Theorem mcp_stats_total (now : string) (joinBase : string → string) (dir : Fs.Dir) :
  let icons := loadIcons joinBase dir in
  let stats := getStats now icons in
  sum_list (map snd (s_categories stats))
  + length (List.filter (fun i => String.eqb (category i) "other") icons)
  = s_total stats
  ∧ map fst (s_categories stats) = s_availableCategories stats
  ∧ "other" ∉ s_availableCategories stats.
Proof.
  intros icons stats. split; [apply stats_sum, loadIcons_categories|].
  split.
  - unfold stats, getStats, categoryStats.
    cbn [s_categories s_availableCategories]. by rewrite map_map.
  - apply other_not_category.
Qed.

(** X10. The tool [generate_linkedin_post] refuses a selection that is
    absent or empty, with [InvalidParams], and nothing else: every
    selection that names something is answered, with the template
    asked for ([tools-spotlight] when none is), the known names of the
    selection in its order, and the post of those names.  A selection
    of unknown names only is answered too, with no icon at all. *)
Theorem post_tool_outcomes
    (icons : list Icon) (template : option string) (selected : option (list string)) :
  match generatePostTool icons template selected with
  | inr err =>
      (selected = None ∨ selected = Some [])
      ∧ err = {| code := InvalidParams; message := "At least one icon must be selected" |}
  | inl d =>
      ∃ names,
        selected = Some names ∧ names ≠ []
        ∧ p_template d = default "tools-spotlight" template
        ∧ map (fun x => x.1.1) (p_selectedIcons d) = List.filter (known icons) names
        ∧ Forall (fun x => ∃ icon, icon ∈ icons
                                   ∧ x = (name icon, displayName icon, category icon))
                 (p_selectedIcons d)
        ∧ p_post d =
          generateLinkedInPost icons (p_template d) (List.filter (known icons) names)
        ∧ ((∀ n, n ∈ names → n ∉ map name icons) →
           p_selectedIcons d = []
           ∧ p_post d = generateLinkedInPost icons (p_template d) [])
  end.
Proof.
  destruct selected as [[|n names]|]; [by split; [right|] | | by split; [left|]].
  unfold generatePostTool. cbn [default from_option id].
  exists (n :: names). cbn [p_template p_selectedIcons p_post].
  split; [done|]. split; [done|]. split; [done|].
  split; [|split; [|split]].
  - rewrite map_map. cbn [fst]. apply (PostFacts.iconObjects_names icons (n :: names)).
  - apply Forall_forall. intros x (icon & -> & Hin)%list_elem_of_fmap.
    apply PostFacts.iconObjects_elem in Hin as [Hin _]. by exists icon.
  - apply PostFacts.post_of_found, PostFacts.iconObjects_known.
  - intros Hnone.
    assert (iconObjects icons (n :: names) = []) as Hempty.
    { unfold iconObjects. generalize (n :: names) Hnone. clear.
      induction l as [|x l IH]; intros Hnone; [done|]. simpl.
      replace (findIcon icons x) with (@None Icon).
      - apply IH. intros y Hy. apply Hnone. by right.
      - symmetry. apply PostFacts.findIcon_None, Hnone. by left. }
    split; [by rewrite Hempty|].
    by apply PostFacts.post_of_found.
Qed.

(** X11. The tool [get_icon] answers when, and only when, the name is
    given, an entry of the catalog bears it and the file can be read:
    the data are those of that entry, with the content read.  A name
    that is absent or empty is [InvalidParams]; an unknown name and a
    file that cannot be read are [InternalError], with the message of
    [getIconContent]; no other error comes out of it. *)
Theorem get_icon_tool_outcomes
    (joinBase : string → string) (readFile : string → string + string)
    (icons : list Icon) (iconName variation : option string) :
  match getIconTool joinBase readFile icons iconName variation with
  | inl d =>
      ∃ n icon,
        iconName = Some n ∧ n ≠ ""
        ∧ findIcon icons n = Some icon ∧ icon ∈ icons ∧ name icon = n
        ∧ d = {| d_name := n;
                 d_variation := default "default" variation;
                 d_displayName := displayName icon;
                 d_category := category icon;
                 d_availableVariations := variations icon;
                 d_svgContent := d_svgContent d |}
        ∧ getIconContent joinBase readFile icons n variation = inl (d_svgContent d)
  | inr err =>
      (code err = InvalidParams ∧ message err = "Icon name is required"
       ∧ (iconName = None ∨ iconName = Some ""))
      ∨ (code err = InternalError
         ∧ ∃ n, iconName = Some n ∧ n ≠ ""
                ∧ getIconContent joinBase readFile icons n variation = inr (message err)
                ∧ (((n ∉ map name icons)
                    ∧ message err = "Icon '" +:+ n +:+ "' not found")
                   ∨ ((n ∈ map name icons)
                      ∧ ∃ reason, message err = "Failed to read icon file: " +:+ reason)))
  end.
Proof.
  assert (∀ n, getIconContent joinBase readFile icons n (Some (default "default" variation))
               = getIconContent joinBase readFile icons n variation) as Hdef.
  { intros n. by destruct variation. }
  unfold getIconTool. destruct iconName as [n|]; [|left; by split; [|split; [|left]]].
  destruct n as [|c n]; [left; by split; [|split; [|right]]|].
  cbn [Js.truthy negb]. rewrite Hdef.
  set (n' := String c n).
  destruct (getIconContent joinBase readFile icons n' variation) as [content|msg] eqn:Hget.
  - pose proof Hget as Hcontent. unfold getIconContent in Hget.
    destruct (findIcon icons n') as [icon|] eqn:Hfind; [|done].
    destruct (PostFacts.findIcon_Some _ _ _ Hfind) as [Hin Hname].
    exists n', icon. cbv beta iota. cbn [d_svgContent].
    split; [done|]. split; [by unfold n'|]. by repeat split.
  - right. split; [done|]. exists n'. split; [done|]. split; [by unfold n'|]. split; [done|].
    cbn [message]. pose proof Hget as Hcontent. unfold getIconContent in Hget.
    destruct (findIcon icons n') as [icon|] eqn:Hfind.
    + right. destruct (PostFacts.findIcon_Some _ _ _ Hfind) as [Hin Hname].
      split; [apply list_elem_of_fmap; by exists icon|].
      destruct (readFile _) as [content|reason]; [done|].
      exists reason. by injection Hget as <-.
    + left. apply PostFacts.findIcon_None in Hfind. split; [done|].
      by injection Hget as <-.
Qed.

(** X12. The tool [get_popular_icons] answers icons of the catalog in
    the order of its list of popular names, not in the order of the
    catalog: the names of the answer are the popular names that the
    catalog knows, cut at the limit, 20 when none is given. *)
Theorem popular_tool_order (icons : list Icon) :
  (∀ limit,
     sublist (map name (getPopularIconsTool icons limit)) popularNames
     ∧ Forall (fun icon => icon ∈ icons) (getPopularIconsTool icons limit))
  ∧ (∀ limit, (0 ≤ limit)%Z →
       map name (getPopularIconsTool icons (Some limit)) =
       take (Z.to_nat limit) (List.filter (known icons) popularNames))
  ∧ map name (getPopularIconsTool icons None) =
    take 20%nat (List.filter (known icons) popularNames).
Proof.
  assert (∀ limit, (0 ≤ limit)%Z →
       map name (getPopularIconsTool icons (Some limit)) =
       take (Z.to_nat limit) (List.filter (known icons) popularNames)) as Hcut.
  { intros limit Hl. unfold getPopularIconsTool. cbn [default from_option id].
    rewrite SearchFacts.slice_from_0 by done.
    rewrite <- PostFacts.iconObjects_names. apply fmap_take. }
  split; [|split; [exact Hcut | by apply (Hcut 20%Z)]].
  intros limit. unfold getPopularIconsTool. split.
  - etrans; [apply (fmap_sublist name), SearchFacts.sublist_slice|].
    change (name <$> ?l) with (map name l).
    rewrite PostFacts.iconObjects_names. apply SearchFacts.sublist_filter_bool.
  - apply Forall_forall. intros icon Hin.
    eapply elem_of_sublist in Hin; [|apply SearchFacts.sublist_slice].
    by apply PostFacts.iconObjects_elem in Hin as [Hin _].
Qed.

End McpToolFacts.

(** ** The search of the loader *)

Module LoaderSearchFacts.

Import Spec SpecMore StringFacts IconsLoader LoaderBuild.

Lemma chars_app (s t : string) : chars (s +:+ t) = chars s ++ chars t.
Proof.
  induction s as [|c s IH]; [by rewrite str_app_nil_l|].
  rewrite str_app_cons. unfold chars in *. simpl. by rewrite IH.
Qed.

Lemma chars_length (s : string) : length (chars s) = String.length s.
Proof. induction s as [|c s IH]; [done|]. unfold chars in *. simpl. by rewrite IH. Qed.

Lemma substring_subsequence (k s : string) : substring k s → subsequence k s.
Proof.
  intros (before & after & ->). unfold subsequence. rewrite !chars_app.
  by apply sublist_inserts_l, sublist_inserts_r.
Qed.

Lemma fuzzyLoop_spec (text pattern : string) :
  fuzzyLoop text pattern = true ↔ subsequence pattern text.
Proof.
  unfold subsequence, chars. revert pattern.
  induction text as [|t text IH]; intros [|p pattern]; simpl.
  - split; [constructor | done].
  - split; [done|]. by intros H%sublist_nil_r.
  - split; [intros _; apply sublist_nil_l | done].
  - destruct (Ascii.eqb t p) eqn:E.
    + apply Ascii.eqb_eq in E as ->. rewrite IH. split; [by constructor|].
      intros [H|(l' & [= <-] & H)]%sublist_cons_r; [|done].
      etrans; [|exact H]. by apply sublist_cons.
    + apply Ascii.eqb_neq in E. rewrite IH. simpl. split; [by constructor|].
      intros [H|(l' & [= Heq _] & _)]%sublist_cons_r; [done | congruence].
Qed.

Lemma search_elem (icons : list Icon) (q : string) (icon : Icon) :
  icon ∈ search icons (Some q) ↔
  icon ∈ icons
  ∧ (blankQuery (Some q) = true
     ∨ searchHit (Js.trim (Js.toLowerCase q)) icon = true).
Proof.
  unfold search. destruct (blankQuery (Some q)).
  - split; [intros H; split; [done | by left] | by intros [H _]].
  - cbn [default from_option id].
    rewrite list_elem_of_In, filter_In, <- list_elem_of_In.
    split; (intros [H1 H2]; split; [done|]); [by right | by destruct H2].
Qed.

Lemma fuzzy_term (text q : string) :
  fuzzyMatch text (Js.trim (Js.toLowerCase q)) = true ↔
  subsequence (Js.trim (Js.toLowerCase q)) (Js.toLowerCase text).
Proof.
  unfold fuzzyMatch. rewrite fuzzyLoop_spec.
  by rewrite <- TrimFacts.trim_lower, toLowerCase_idemp.
Qed.

(** X13. [fuzzyMatch] answers whether the pattern, in lower case, is a
    subsequence of the text, in lower case: its characters are met in
    the text in order, not necessarily side by side.  So the empty
    pattern matches every text, a pattern that occurs in the text
    matches it, and a pattern longer than the text does not. *)
Theorem fuzzyMatch_is_subsequence (text pattern : string) :
  (fuzzyMatch text pattern = true ↔
   subsequence (Js.toLowerCase pattern) (Js.toLowerCase text))
  ∧ fuzzyMatch text "" = true
  ∧ (Js.includes (Js.toLowerCase text) (Js.toLowerCase pattern) = true →
     fuzzyMatch text pattern = true)
  ∧ (String.length text < String.length pattern → fuzzyMatch text pattern = false).
Proof.
  split; [apply fuzzyLoop_spec|]. split; [by destruct text|]. split.
  - intros H%includes_spec. by apply fuzzyLoop_spec, substring_subsequence.
  - intros Hlen. apply not_true_is_false. intros H%fuzzyLoop_spec.
    apply sublist_length in H. rewrite !chars_length in H.
    assert (∀ s, String.length (Js.toLowerCase s) = String.length s) as Hl.
    { induction s as [|c s IH]; [done|]. simpl. by rewrite IH. }
    rewrite !Hl in H. lia.
Qed.

Lemma searchLoaded_created (icons : list Icon) (query : option string) :
  searchLoaded (map Created icons) query = Some (map Created (search icons query)).
Proof.
  unfold searchLoaded, search. destruct (blankQuery query); [done|].
  generalize (Js.trim (Js.toLowerCase (default "" query))). intros term.
  induction icons as [|icon icons IH]; [done|]. simpl. rewrite IH.
  fold (searchHit term icon). by destruct (searchHit term icon).
Qed.

Lemma searchLoaded_manifest (entries : list Scanner.Entry) (query : option string) :
  blankQuery query = false → entries ≠ [] →
  searchLoaded (map FromManifest entries) query = None.
Proof.
  intros Hq Hne. unfold searchLoaded. rewrite Hq. by destruct entries.
Qed.

(** X14. In a catalog of objects of [createIconObject], which is what
    [initialize] leaves when there is no manifest, the search finds
    every icon by its own name and by its own display name, and by
    every query which, trimmed and in lower case, is a subsequence of
    its name in lower case.  In the catalog read from the manifest of
    the scanner, whose entries have no [searchable], the search answers
    the whole catalog for a blank query and raises for every other
    query. *)
Theorem search_finds_by_name
    (icons : list Icon) (entries : list Scanner.Entry) (query : option string) :
  searchLoaded (map Created icons) query = Some (map Created (search icons query))
  ∧ Forall (fun icon =>
              icon ∈ search icons (Some (name icon))
              ∧ icon ∈ search icons (Some (displayName icon))
              ∧ ∀ q, subsequence (Js.trim (Js.toLowerCase q))
                                 (Js.toLowerCase (name icon)) →
                     icon ∈ search icons (Some q))
           icons
  ∧ (blankQuery query = true →
     searchLoaded (initialize (OkManifest entries)) query
     = Some (initialize (OkManifest entries)))
  ∧ (blankQuery query = false → entries ≠ [] →
     searchLoaded (initialize (OkManifest entries)) query = None)
  ∧ (∀ response,
       (∃ created, initialize response = map Created created)
       ∨ (∃ manifest, response = OkManifest manifest)).
Proof.
  split; [apply searchLoaded_created|]. split; [|split; [|split]].
  - apply Forall_forall. intros icon Hin.
    assert (∀ q, subsequence (Js.trim (Js.toLowerCase q)) (Js.toLowerCase (name icon)) →
                 icon ∈ search icons (Some q)) as Hsub.
    { intros q Hq. apply search_elem. split; [done|]. right.
      unfold searchHit. apply fuzzy_term in Hq. rewrite Hq. by rewrite orb_true_r. }
    split; [|split; [|exact Hsub]].
    + apply Hsub, substring_subsequence, TrimFacts.trim_substring.
    + apply search_elem. split; [done|]. right. unfold searchHit.
      replace (fuzzyMatch (displayName icon) _) with true; [by rewrite orb_true_r|].
      symmetry. apply fuzzy_term, substring_subsequence, TrimFacts.trim_substring.
  - intros Hq. unfold searchLoaded. by rewrite Hq.
  - apply searchLoaded_manifest.
  - intros [| |manifest|]; [left|left|right|left]; by eexists.
Qed.

(** X15. The searches do not look at the case of the query: two queries
    that are the same in lower case give the same result, in the MCP
    server and in the loader. *)
Theorem search_ignores_query_case
    (q1 q2 : string)
    (icons : list McpServer.Icon) (category : option string) (limit : option Z)
    (loaded : list Icon) :
  Js.toLowerCase q1 = Js.toLowerCase q2 →
  McpServer.searchIcons icons (Some q1) category limit =
  McpServer.searchIcons icons (Some q2) category limit
  ∧ search loaded (Some q1) = search loaded (Some q2).
Proof.
  intros Hlow.
  assert (Js.truthy q1 = Js.truthy q2) as Htruthy.
  { destruct q1, q2; done. }
  assert (Js.truthy (Js.trim q1) = Js.truthy (Js.trim q2)) as Htrim.
  { pose proof (TrimFacts.trim_lower q1) as H1. pose proof (TrimFacts.trim_lower q2) as H2.
    rewrite Hlow, H2 in H1.
    destruct (Js.trim q1), (Js.trim q2); done. }
  split.
  - unfold McpServer.searchIcons. by rewrite Htruthy, Htrim, Hlow.
  - unfold search, blankQuery. cbn [default from_option id].
    assert (String.eqb (Js.trim q1) "" = String.eqb (Js.trim q2) "") as ->.
    { destruct (Js.trim q1), (Js.trim q2); done. }
    by rewrite Htruthy, Hlow.
Qed.

Lemma search_ignores_query_case_witness :
  Js.toLowerCase "GitHub" = Js.toLowerCase "github"
  ∧ McpServer.searchIcons [githubIcon] (Some "GitHub") None None =
    McpServer.searchIcons [githubIcon] (Some "github") None None.
Proof.
  split; [reflexivity|].
  apply (search_ignores_query_case "GitHub" "github" [githubIcon] None None []).
  reflexivity.
Defined.

End LoaderSearchFacts.

(** ** The catalog of the loader *)

Module LoaderBuildFacts.

Import Spec SpecMore StringFacts IconsLoader LoaderBuild.

Lemma arr_includes_spec (l : list string) (x : string) :
  Js.arr_includes l x = true ↔ x ∈ l.
Proof.
  unfold Js.arr_includes. rewrite existsb_exists, list_elem_of_In. split.
  - by intros (y & Hy & ->%String.eqb_eq).
  - intros H. exists x. split; [done | apply String.eqb_refl].
Qed.

Lemma findIndex_first (wanted : string) (before : list Icon) (x : Icon) (after : list Icon) :
  name x = wanted →
  findIndex wanted (before ++ x :: after) = Some (length before) ↔
  wanted ∉ map name before.
Proof.
  intros Hx. induction before as [|y before IH]; simpl.
  - rewrite Hx, String.eqb_refl. split; [intros _; apply not_elem_of_nil | done].
  - destruct (String.eqb (name y) wanted) eqn:E.
    + apply String.eqb_eq in E. split; [done|]. intros H. destruct H. rewrite <- E. by left.
    + apply String.eqb_neq in E. rewrite not_elem_of_cons, <- IH.
      destruct (findIndex wanted (before ++ x :: after)); simpl;
        split; try done; try (intros [_ ?]; done).
      * intros [= ->]. done.
      * intros [_ [= ->]]. done.
Qed.

(** What the filter of [removeDuplicates] keeps of the part [l] of the
    array that comes after [before]. *)
Lemma keepFirstFrom_spec (before l : list Icon) :
  let kept := keepFirstFrom (before ++ l) (length before) l in
  sublist kept l
  ∧ NoDup (map name kept)
  ∧ (∀ icon, icon ∈ kept → name icon ∉ map name before)
  ∧ (∀ n, n ∉ map name before → getIcon kept n = getIcon l n).
Proof.
  revert before. induction l as [|x l IH]; intros before; cbn zeta.
  - split; [constructor|]. split; [constructor|].
    split; [by intros icon H%elem_of_nil | done].
  - pose proof (findIndex_first (name x) before x l eq_refl) as Hfirst.
    assert (before ++ x :: l = (before ++ [x]) ++ l) as Hself
      by by rewrite <- app_assoc.
    assert (S (length before) = length (before ++ [x])) as Hidx
      by (rewrite length_app; simpl; lia).
    destruct (IH (before ++ [x])) as (Hsub & Hnd & Hout & Hget).
    rewrite <- Hself, <- Hidx in Hsub, Hnd, Hout, Hget.
    assert (∀ n, n ∉ map name (before ++ [x]) ↔
                 (n ∉ map name before) ∧ n ≠ name x) as Hsplit.
    { intros n. rewrite map_app, elem_of_app. simpl.
      rewrite list_elem_of_singleton. tauto. }
    cbn [keepFirstFrom].
    destruct (bool_decide (findIndex (name x) (before ++ x :: l) = Some (length before)))
      eqn:Hkeep.
    + apply bool_decide_eq_true in Hkeep. apply Hfirst in Hkeep.
      split; [by constructor|]. split; [|split].
      * simpl. apply NoDup_cons. split; [|done].
        intros (icon & Hname & Hin)%list_elem_of_fmap.
        apply Hout, Hsplit in Hin as [_ Hne]. congruence.
      * intros icon [->|Hin]%elem_of_cons; [done|].
        by apply Hout, Hsplit in Hin as [? _].
      * intros n Hn. unfold getIcon. cbn [List.find].
        destruct (String.eqb (name x) n) eqn:E; [done|].
        apply String.eqb_neq in E. apply Hget, Hsplit. split; [done | congruence].
    + apply bool_decide_eq_false in Hkeep.
      assert (name x ∈ map name before) as Hseen.
      { destruct (decide (name x ∈ map name before)) as [?|Hno]; [done|].
        by apply Hfirst in Hno. }
      split; [by constructor|]. split; [done|]. split.
      * intros icon Hin. by apply Hout, Hsplit in Hin as [? _].
      * intros n Hn. unfold getIcon. cbn [List.find].
        replace (String.eqb (name x) n) with false.
        -- apply Hget, Hsplit. split; [done|]. intros ->. done.
        -- symmetry. apply String.eqb_neq. intros <-. done.
Qed.

Lemma removeDuplicates_spec (icons : list Icon) :
  sublist (removeDuplicates icons) icons
  ∧ NoDup (map name (removeDuplicates icons))
  ∧ (∀ n, getIcon (removeDuplicates icons) n = getIcon icons n).
Proof.
  destruct (keepFirstFrom_spec [] icons) as (Hsub & Hnd & _ & Hget).
  split; [done|]. split; [done|]. intros n. apply Hget, not_elem_of_nil.
Qed.

Lemma getIcon_Some (icons : list Icon) (n : string) (icon : Icon) :
  getIcon icons n = Some icon → icon ∈ icons ∧ name icon = n.
Proof.
  unfold getIcon. intros [Hin Hn]%find_some.
  split; [by apply list_elem_of_In | by apply String.eqb_eq].
Qed.

Lemma getIcon_None (icons : list Icon) (n : string) :
  getIcon icons n = None ↔ n ∉ map name icons.
Proof.
  unfold getIcon. split.
  - intros H (icon & -> & Hin)%list_elem_of_fmap.
    apply list_elem_of_In in Hin. pose proof (find_none _ _ H icon Hin) as Hn.
    simpl in Hn. by rewrite String.eqb_refl in Hn.
  - intros Hnot. destruct (List.find _ icons) as [icon|] eqn:E; [|done].
    apply getIcon_Some in E as [Hin <-]. destruct Hnot.
    apply list_elem_of_fmap. by exists icon.
Qed.

Lemma getIcon_NoDup (icons : list Icon) (icon : Icon) :
  NoDup (map name icons) → icon ∈ icons → getIcon icons (name icon) = Some icon.
Proof.
  unfold getIcon. induction icons as [|i icons IH]; simpl; intros Hnd Hin.
  - by apply elem_of_nil in Hin.
  - apply NoDup_cons in Hnd as [Hnotin Hnd].
    apply elem_of_cons in Hin as [->|Hin]; [by rewrite String.eqb_refl|].
    destruct (String.eqb (name i) (name icon)) eqn:E; [|by apply IH].
    apply String.eqb_eq in E. exfalso. apply Hnotin. rewrite E.
    apply list_elem_of_fmap. by exists icon.
Qed.

Lemma sublist_full {A} (l1 l2 : list A) :
  sublist l1 l2 → (length l2 ≤ length l1)%nat → l1 = l2.
Proof.
  induction 1 as [|x l1 l2 _ IH|x l1 l2 Hsub _]; simpl; intros Hlen.
  - done.
  - f_equal. apply IH. lia.
  - apply sublist_length in Hsub. lia.
Qed.

(** X16. Removing the duplicates of a catalog keeps, of the icons that
    bear the same name, the first, where it stands: what is left is a
    subsequence of the catalog in which no name occurs twice, and
    [getIcon] answers for every name what it answered before.  A
    catalog without duplicate names is left as it is.  In the catalog
    of [generateIconsList] the name [oracle], listed twice, occurs
    once: 182 icons for 183 names. *)
Theorem removeDuplicates_keeps_first (icons : list Icon) :
  sublist (removeDuplicates icons) icons
  ∧ NoDup (map name (removeDuplicates icons))
  ∧ (∀ n, getIcon (removeDuplicates icons) n = getIcon icons n)
  ∧ (∀ n, n ∈ map name (removeDuplicates icons) ↔ n ∈ map name icons)
  ∧ (NoDup (map name icons) → removeDuplicates icons = icons)
  ∧ length knownIcons = 183%nat
  ∧ length generateIconsList = 182%nat.
Proof.
  destruct (removeDuplicates_spec icons) as (Hsub & Hnd & Hget).
  assert (∀ n, n ∈ map name (removeDuplicates icons) ↔ n ∈ map name icons) as Hnames.
  { intros n. pose proof (getIcon_None (removeDuplicates icons) n) as H1.
    pose proof (getIcon_None icons n) as H2. rewrite Hget in H1.
    destruct (decide (n ∈ map name icons)) as [Hin|Hout].
    - split; [done|]. intros _.
      destruct (decide (n ∈ map name (removeDuplicates icons))) as [?|Hno]; [done|].
      apply H1, H2 in Hno. done.
    - split; [|done]. intros Hin. apply H2, H1 in Hout. done. }
  split; [done|]. split; [done|]. split; [done|]. split; [done|].
  split; [|split; by vm_compute].
  intros Hall. apply sublist_full; [done|].
  rewrite <- (length_map name icons), <- (length_map name (removeDuplicates icons)).
  apply submseteq_length, NoDup_submseteq; [done|].
  intros n. apply Hnames.
Qed.

Lemma lower_app (s t : string) :
  Js.toLowerCase (s +:+ t) = Js.toLowerCase s +:+ Js.toLowerCase t.
Proof.
  induction s as [|c s IH]; [by rewrite !str_app_nil_l|].
  rewrite str_app_cons. simpl. by rewrite IH.
Qed.

Lemma substring_lower (k s : string) :
  substring k s → substring (Js.toLowerCase k) (Js.toLowerCase s).
Proof.
  intros (before & after & ->).
  exists (Js.toLowerCase before), (Js.toLowerCase after). by rewrite !lower_app.
Qed.

Lemma substring_trans (a b c : string) : substring a b → substring b c → substring a c.
Proof.
  intros (p & q & ->) (p' & q' & ->). exists (p' +:+ p), (q +:+ q').
  by rewrite !str_app_assoc.
Qed.

Lemma join_elem (sep x : string) (l : list string) : x ∈ l → substring x (Js.join sep l).
Proof.
  induction l as [|y l IH]; [by intros H%elem_of_nil|].
  destruct l as [|z l].
  - intros ->%list_elem_of_singleton. exists "", "".
    by rewrite str_app_nil_l, str_app_nil_r.
  - rewrite DisplayNameFacts.join_cons2. intros [->|Hin]%elem_of_cons.
    + exists "", (sep +:+ Js.join sep (z :: l)). by rewrite str_app_nil_l.
    + destruct (IH Hin) as (before & after & ->).
      exists (y +:+ sep +:+ before), after. by rewrite !str_app_assoc.
Qed.

Lemma created_hit (n q : string) :
  q ∈ name (createIconObject n) :: displayName (createIconObject n)
      :: category (createIconObject n) :: tags (createIconObject n) →
  searchHit (Js.trim (Js.toLowerCase q)) (createIconObject n) = true.
Proof.
  intros Hq. unfold searchHit.
  replace (Js.includes _ _) with true; [done|]. symmetry.
  apply includes_spec.
  apply substring_trans with (Js.toLowerCase q);
    [apply TrimFacts.trim_substring|].
  apply substring_lower, join_elem. exact Hq.
Qed.

Lemma created_found (catalog : list Icon) :
  Forall (fun icon => ∃ n, icon = createIconObject n) catalog →
  foundByItsWords catalog.
Proof.
  intros Hall. apply Forall_forall. intros icon Hin q Hq.
  apply LoaderSearchFacts.search_elem. split; [done|]. right.
  rewrite Forall_forall in Hall. destruct (Hall icon Hin) as [n ->].
  by apply created_hit.
Qed.

Lemma created_map (names : list string) :
  Forall (fun icon => ∃ n, icon = createIconObject n) (map createIconObject names).
Proof.
  apply Forall_forall. intros icon (n & -> & _)%list_elem_of_fmap. by exists n.
Qed.

Lemma created_removeDuplicates (names : list string) :
  Forall (fun icon => ∃ n, icon = createIconObject n)
         (removeDuplicates (map createIconObject names)).
Proof.
  apply Forall_forall. intros icon Hin.
  eapply elem_of_sublist in Hin; [|apply removeDuplicates_spec].
  apply list_elem_of_fmap in Hin as (n & -> & _). by exists n.
Qed.

(** X17. An icon made by [createIconObject] is found by the search for
    its name, for its display name, for its category and for each of
    its tags, whatever catalog of such icons it stands in: the catalog
    of [generateIconsList], the fallback catalog, and any other made
    from a list of names, with or without its duplicates. *)
Theorem created_icon_is_found (names : list string) :
  foundByItsWords (map createIconObject names)
  ∧ foundByItsWords (removeDuplicates (map createIconObject names))
  ∧ foundByItsWords generateIconsList
  ∧ foundByItsWords loadFallbackIcons.
Proof.
  split; [apply created_found, created_map|].
  split; [apply created_found, created_removeDuplicates|].
  split; [apply created_found, created_removeDuplicates | apply created_found, created_map].
Qed.

Lemma setOf_spec (seen l : list string) :
  NoDup (setOf seen l) ∧ ∀ x, x ∈ setOf seen l ↔ x ∈ l ∧ x ∉ seen.
Proof.
  revert seen. induction l as [|y l IH]; intros seen; simpl.
  - split; [constructor|]. intros x. split; [by intros H%elem_of_nil|].
    by intros [H%elem_of_nil _].
  - destruct (Js.arr_includes seen y) eqn:E.
    + apply arr_includes_spec in E. destruct (IH seen) as [Hnd Hin].
      split; [done|]. intros x. rewrite Hin, elem_of_cons. split; [tauto|].
      intros [[->|?] Hout]; [done | tauto].
    + assert (y ∉ seen) as Hy.
      { intros H%arr_includes_spec. congruence. }
      destruct (IH (seen ++ [y])) as [Hnd Hin]. split.
      * apply NoDup_cons. split; [|done]. rewrite Hin, elem_of_app.
        intros [_ Hout]. apply Hout. right. by left.
      * intros x. rewrite !elem_of_cons, Hin, elem_of_app, list_elem_of_singleton.
        destruct (decide (x = y)) as [->|Hne]; tauto.
Qed.

Lemma paths_lookup (f : string → string) (l : list string) (m : gmap string string)
    (k : string) :
  fold_left (fun acc v => <[ v := f v ]> acc) l m !! k =
  if bool_decide (k ∈ l) then Some (f k) else m !! k.
Proof.
  revert m. induction l as [|v l IH]; intros m; simpl; [done|]. rewrite IH.
  destruct (decide (k = v)) as [->|Hne].
  - rewrite lookup_insert_eq. rewrite (bool_decide_eq_true_2 (v ∈ v :: l)) by by left.
    by destruct (bool_decide (v ∈ l)).
  - rewrite lookup_insert_ne by done.
    destruct (bool_decide (k ∈ l)) eqn:B.
    + apply bool_decide_eq_true in B.
      by rewrite (bool_decide_eq_true_2 (k ∈ v :: l)) by by right.
    + apply bool_decide_eq_false in B.
      rewrite (bool_decide_eq_false_2 (k ∈ v :: l)); [done|].
      by intros [?|?]%elem_of_cons.
Qed.

Lemma firstKeywordCategory_range (entries : list (string * list string)) (n c : string) :
  firstKeywordCategory entries n = Some c → c ∈ map fst entries.
Proof.
  induction entries as [|[c' ks] entries IH]; simpl; [done|].
  destruct (existsb _ ks); [intros [= ->]; by left|].
  intros H. right. by apply IH.
Qed.

Lemma firstPattern_range (patterns : list (list string * string)) (n : string) :
  firstPattern patterns n ∈ map snd patterns ∨ firstPattern patterns n = "other".
Proof.
  induction patterns as [|[alts c] patterns IH]; simpl; [by right|].
  destruct (matchesOneOf alts n); [left; by left|].
  destruct IH as [?|?]; [left; by right | by right].
Qed.

Lemma getCategoryForIcon_range (n : string) :
  getCategoryForIcon n ∈ getCategories ∨ getCategoryForIcon n = "other".
Proof.
  unfold getCategoryForIcon.
  destruct (firstKeywordCategory categories n) as [c|] eqn:E.
  - left. by apply firstKeywordCategory_range in E.
  - destruct (firstPattern_range categoryPatterns n) as [H|H]; [left | by right].
    revert H. generalize (firstPattern categoryPatterns n). intros c Hc.
    assert (Forall (fun c => c ∈ getCategories) (map snd categoryPatterns)) as Hall.
    { apply (bool_decide_unpack _). by vm_compute. }
    rewrite Forall_forall in Hall. by apply Hall.
Qed.

(** X18. The object that [createIconObject] makes for a name: its path
    is the file of the name; it has a path for each of its variations
    and for nothing else, the path of [default] being its own path; its
    tags are the name, the category and the tags listed for the name,
    each once, the name first; its category is one of the categories of
    the loader or [other]; its searchable text is in lower case. *)
Theorem created_icon_fields (n : string) :
  let icon := createIconObject n in
  name icon = n
  ∧ path icon = iconPath +:+ n +:+ ".svg"
  ∧ (∀ v, paths icon !! v =
          if bool_decide (v ∈ variations icon) then Some (variationPath n v) else None)
  ∧ "default" ∈ variations icon
  ∧ paths icon !! "default" = Some (path icon)
  ∧ NoDup (tags icon)
  ∧ (∀ t, t ∈ tags icon ↔
          t = n ∨ t = category icon ∨ t ∈ default [] (tagMap !! n))
  ∧ head (tags icon) = Some n
  ∧ (category icon ∈ getCategories ∨ category icon = "other")
  ∧ Js.toLowerCase (searchable icon) = searchable icon.
Proof.
  intros icon.
  assert (∀ v, paths icon !! v =
               if bool_decide (v ∈ variations icon) then Some (variationPath n v) else None)
    as Hpaths.
  { intros v. unfold icon, createIconObject. cbn [paths variations].
    by rewrite paths_lookup, lookup_empty. }
  assert ("default" ∈ variations icon) as Hdefault.
  { unfold icon, createIconObject, getIconVariations. cbn [variations].
    destruct (Js.arr_includes _ n); by left. }
  split; [done|]. split; [done|]. split; [exact Hpaths|]. split; [exact Hdefault|].
  split; [by rewrite Hpaths, bool_decide_eq_true_2|].
  destruct (setOf_spec [] ([n; category icon] ++ default [] (tagMap !! n))) as [Hnd Hin].
  split; [exact Hnd|]. split; [|split; [done|split]].
  - intros t. unfold icon at 1, createIconObject at 1. cbn [tags]. unfold generateTags.
    fold (createIconObject n). fold icon. unfold icon at 1. cbn [category].
    unfold icon in Hin. cbn [category] in Hin. rewrite Hin.
    rewrite elem_of_app, !elem_of_cons. split.
    + intros [[[?|[?|?%elem_of_nil]]|?] _]; tauto.
    + intros H. split; [tauto | apply not_elem_of_nil].
  - apply getCategoryForIcon_range.
  - apply toLowerCase_idemp.
Qed.

Lemma created_counted (catalog : list Icon) :
  Forall (fun icon => ∃ n, icon = createIconObject n) catalog → countedOnce catalog.
Proof.
  intros Hall. unfold countedOnce, getStats. cbn [s_categories s_total].
  rewrite <- (McpToolFacts.counts_sum category getCategories catalog).
  - (* the keys are neither empty nor ["all"]: each count is that of a filter *)
    reflexivity.
  - apply (bool_decide_unpack _). by vm_compute.
  - apply (bool_decide_unpack _). by vm_compute.
  - apply Forall_forall. intros icon Hin. rewrite Forall_forall in Hall.
    destruct (Hall icon Hin) as [n ->]. apply getCategoryForIcon_range.
Qed.

(** X19. [iconExists], [getIcon] and [getIconsByNames] agree on a name:
    the icon exists exactly when some icon of the catalog bears the
    name, [getIcon] then answers the first that does, which is also the
    first of the icons that [getIconsByNames] answers for that name
    alone; when no icon bears the name [getIcon] answers nothing and
    [getIconsByNames] the empty list. *)
Theorem loader_lookups_agree (icons : list Icon) (n : string) :
  (iconExists icons n = true ↔ n ∈ map name icons)
  ∧ (iconExists icons n = true ↔ is_Some (getIcon icons n))
  ∧ head (getIconsByNames icons [n]) = getIcon icons n
  ∧ (∀ icon, getIcon icons n = Some icon → icon ∈ icons ∧ name icon = n)
  ∧ ((n ∉ map name icons) → getIcon icons n = None ∧ getIconsByNames icons [n] = []).
Proof.
  assert (iconExists icons n = true ↔ n ∈ map name icons) as Hexists.
  { unfold iconExists. rewrite existsb_exists, list_elem_of_fmap. split.
    - intros (icon & Hin & E). apply String.eqb_eq in E. exists icon.
      split; [done | by apply list_elem_of_In].
    - intros (icon & -> & Hin). exists icon.
      split; [by apply list_elem_of_In | apply String.eqb_refl]. }
  assert (head (getIconsByNames icons [n]) = getIcon icons n) as Hhead.
  { clear Hexists. unfold getIconsByNames, getIcon, Js.arr_includes.
    induction icons as [|i icons IH]; [done|]. simpl.
    rewrite orb_false_r. destruct (String.eqb (name i) n); [done|].
    apply IH. }
  split; [exact Hexists|]. split; [|split; [exact Hhead|split]].
  - rewrite Hexists. pose proof (getIcon_None icons n) as Hnone.
    destruct (getIcon icons n) as [icon|] eqn:E.
    + split; [by eexists|]. intros _.
      destruct (decide (n ∈ map name icons)) as [?|Hno]; [done|].
      by apply Hnone in Hno.
    + split; [|by intros [? ?]]. intros Hin. exfalso. by apply Hnone.
  - apply getIcon_Some.
  - intros Hno. pose proof Hno as Hnone. apply getIcon_None in Hnone.
    split; [done|]. unfold getIconsByNames, Js.arr_includes.
    clear Hexists Hhead Hnone. induction icons as [|i icons IH]; [done|]. simpl.
    rewrite orb_false_r.
    destruct (String.eqb (name i) n) eqn:E.
    + apply String.eqb_eq in E. destruct Hno. rewrite <- E. by left.
    + apply IH. intros H. apply Hno. by right.
Qed.

(** X20. The popular and the trending icons of the loader are icons of
    the catalog in the order of the catalog, not in the order of the
    lists of names: the icons whose name is listed, cut at the limit;
    with the limits of [getStats] there are at most 20 and 10 of
    them. *)
Theorem loader_popular_in_catalog_order (icons : list Icon) :
  (∀ limit,
     sublist (getPopularIcons icons limit) icons
     ∧ Forall (fun icon => name icon ∈ popularNames) (getPopularIcons icons limit)
     ∧ sublist (getTrendingIcons icons limit) icons
     ∧ Forall (fun icon => name icon ∈ trendingNames) (getTrendingIcons icons limit))
  ∧ (∀ limit, (0 ≤ limit)%Z →
       getPopularIcons icons (Some limit) =
       take (Z.to_nat limit)
            (List.filter (fun icon => bool_decide (name icon ∈ popularNames)) icons)
       ∧ getTrendingIcons icons (Some limit) =
         take (Z.to_nat limit)
              (List.filter (fun icon => bool_decide (name icon ∈ trendingNames)) icons))
  ∧ (s_popular (getStats icons) ≤ 20)%nat
  ∧ (s_trending (getStats icons) ≤ 10)%nat.
Proof.
  assert (∀ names, getIconsByNames icons names =
                   List.filter (fun icon => bool_decide (name icon ∈ names)) icons) as Hby.
  { intros names. unfold getIconsByNames. apply filter_ext. intros icon.
    apply eq_true_iff_eq. by rewrite arr_includes_spec, bool_decide_eq_true. }
  assert (∀ names stop,
            sublist (Js.slice (getIconsByNames icons names) 0 stop) icons
            ∧ Forall (fun icon => name icon ∈ names)
                     (Js.slice (getIconsByNames icons names) 0 stop)) as Hsub.
  { intros names stop. split.
    - etrans; [apply SearchFacts.sublist_slice | apply SearchFacts.sublist_filter_bool].
    - apply Forall_forall. intros icon Hin.
      eapply elem_of_sublist in Hin; [|apply SearchFacts.sublist_slice].
      by apply PostFacts.getIconsByNames_elem in Hin as [_ ?]. }
  split; [|split; [|split]].
  - intros limit. unfold getPopularIcons, getTrendingIcons.
    destruct (Hsub popularNames (default 20%Z limit)) as [? ?].
    destruct (Hsub trendingNames (default 10%Z limit)) as [? ?]. done.
  - intros limit Hl. unfold getPopularIcons, getTrendingIcons.
    cbn [default from_option id].
    by rewrite !SearchFacts.slice_from_0, !Hby by done.
  - unfold getStats, getPopularIcons. cbn [s_popular default from_option id].
    rewrite SearchFacts.slice_from_0 by done. rewrite length_take.
    change (Z.to_nat 20) with 20%nat. lia.
  - unfold getStats, getTrendingIcons. cbn [s_trending default from_option id].
    rewrite SearchFacts.slice_from_0 by done. rewrite length_take.
    change (Z.to_nat 10) with 10%nat. lia.
Qed.

(** X21. In the statistics of the loader every icon made by
    [createIconObject] is counted once: the counts of the categories
    and the number of icons of category [other], which has no count of
    its own, add up to the total, in the catalog of
    [generateIconsList], in the fallback catalog and in any other made
    from a list of names.  The counts are those of [getCategories], in
    their order. *)
Theorem loader_stats_total (names : list string) :
  countedOnce (map createIconObject names)
  ∧ countedOnce (removeDuplicates (map createIconObject names))
  ∧ countedOnce generateIconsList
  ∧ countedOnce loadFallbackIcons
  ∧ (∀ icons, map fst (s_categories (getStats icons)) = getCategories)
  ∧ "other" ∉ getCategories.
Proof.
  split; [apply created_counted, created_map|].
  split; [apply created_counted, created_removeDuplicates|].
  split; [apply created_counted, created_removeDuplicates|].
  split; [apply created_counted, created_map|].
  split.
  - intros icons. unfold getStats. cbn [s_categories]. rewrite map_map. cbn [fst].
    apply map_id.
  - apply (bool_decide_unpack _). by vm_compute.
Qed.

End LoaderBuildFacts.

(** ** What a post contains *)

Module PostContentFacts.

Import Spec SpecMore StringFacts McpServer.

Lemma templates_cases (template : string) (text : string → string → string) :
  templates !! template = Some text →
  (template = "tools-spotlight" ∧ text = toolsSpotlight)
  ∨ (template = "tech-stack" ∧ text = techStack)
  ∨ (template = "comparison" ∧ text = comparison)
  ∨ (template = "trend-analysis" ∧ text = trendAnalysis).
Proof.
  unfold templates. rewrite !list_to_map_cons, list_to_map_nil. intros H.
  apply lookup_insert_Some in H as [[<- <-]|[_ H]]; [tauto|].
  apply lookup_insert_Some in H as [[<- <-]|[_ H]]; [tauto|].
  apply lookup_insert_Some in H as [[<- <-]|[_ H]]; [tauto|].
  apply lookup_insert_Some in H as [[<- <-]|[_ H]]; [tauto|].
  by rewrite lookup_empty in H.
Qed.

Lemma template_has_lists (template : string) (text : string → string → string)
    (iconList iconEmojis : string) :
  templates !! template = Some text →
  substring iconList (text iconList iconEmojis)
  ∧ substring iconEmojis (text iconList iconEmojis).
Proof.
  intros H. apply templates_cases in H as [[_ ->]|[[_ ->]|[[_ ->]|[_ ->]]]];
    split; apply LoaderBuildFacts.join_elem, list_elem_of_In; simpl; tauto.
Qed.

(** X22. For a template whose name is not inherited from
    [Object.prototype], a post names every icon found for the
    selection: its display name stands in the post whatever the
    template; with one of the four templates the post has the line of
    the icon in the list and, for an icon whose name is not inherited
    either, its emoji in the line of emojis; any other template gives
    the plain sentence.  The templates are [tools-spotlight],
    [tech-stack], [comparison] and [trend-analysis]. *)
Theorem post_mentions_every_icon
    (icons : list Icon) (template : string) (selected : list string) :
  Js.inherited template = false →
  let post := generateLinkedInPost icons template selected in
  Forall (fun icon =>
            substring (displayName icon) post
            ∧ (is_Some (templates !! template) →
               substring ("• " +:+ displayName icon) post
               ∧ (Js.inherited (name icon) = false →
                  substring (getIconEmoji (name icon)) post)))
         (iconObjects icons selected)
  ∧ (is_Some (templates !! template) ↔
     template ∈ ["tools-spotlight"; "tech-stack"; "comparison"; "trend-analysis"])
  ∧ (templates !! template = None →
     post = "Check out these amazing tools: "
              +:+ Js.join ", " (map displayName (iconObjects icons selected)) +:+ "!").
Proof.
  intros _ post. split; [|split].
  - apply Forall_forall. intros icon Hin. unfold post, generateLinkedInPost.
    assert (substring (displayName icon) ("• " +:+ displayName icon)) as Hbullet.
    { exists "• ", "". by rewrite str_app_nil_r. }
    destruct (templates !! template) as [text|] eqn:E.
    + destruct (template_has_lists template text
                  (Js.join nl (map (fun icon => "• " +:+ displayName icon)
                                   (iconObjects icons selected)))
                  (Js.join " " (map (fun icon => getIconEmoji (name icon))
                                    (iconObjects icons selected))) E) as [Hlist Hemojis].
      assert (substring ("• " +:+ displayName icon)
                (text (Js.join nl (map (fun icon => "• " +:+ displayName icon)
                                       (iconObjects icons selected)))
                      (Js.join " " (map (fun icon => getIconEmoji (name icon))
                                        (iconObjects icons selected))))) as Hline.
      { eapply LoaderBuildFacts.substring_trans; [|exact Hlist].
        apply LoaderBuildFacts.join_elem, list_elem_of_fmap. by exists icon. }
      split; [by eapply LoaderBuildFacts.substring_trans|].
      intros _. split; [exact Hline|]. intros _.
      eapply LoaderBuildFacts.substring_trans; [|exact Hemojis].
      apply LoaderBuildFacts.join_elem, list_elem_of_fmap. by exists icon.
    + split; [|by intros [? ?]].
      assert (substring (displayName icon)
                (Js.join ", " (map displayName (iconObjects icons selected))))
        as (before & after & ->).
      { apply LoaderBuildFacts.join_elem, list_elem_of_fmap. by exists icon. }
      exists ("Check out these amazing tools: " +:+ before), (after +:+ "!").
      by rewrite !str_app_assoc.
  - split.
    + intros [text H]. apply templates_cases in H.
      apply list_elem_of_In. simpl.
      destruct H as [[-> _]|[[-> _]|[[-> _]|[-> _]]]]; tauto.
    + intros H. apply list_elem_of_In in H. simpl in H.
      destruct H as [<-|[<-|[<-|[<-|[]]]]];
        apply (bool_decide_unpack _); by vm_compute.
  - intros H. unfold post, generateLinkedInPost. by rewrite H.
Qed.

Lemma post_mentions_every_icon_witness :
  Js.inherited "tech-stack" = false
  ∧ Forall (fun icon =>
              substring (displayName icon)
                        (generateLinkedInPost [githubIcon] "tech-stack" ["github"]))
           (iconObjects [githubIcon] ["github"]).
Proof.
  split; [reflexivity|].
  eapply Forall_impl;
    [apply (post_mentions_every_icon [githubIcon] "tech-stack" ["github"] eq_refl)|].
  simpl. by intros icon [H _].
Defined.

End PostContentFacts.
